(** * scrape_novel: the site-adapter extraction pipeline

    A shallow embedding of the three scripts of the repository
    ([scrape_novel.js], [scrape_novel_ncode.js] and the kakuyomu adapter)
    together with the properties of their extraction pipeline.

    JavaScript strings are sequences of UTF-16 code units; regular
    expressions without the [u] flag work on code units as well.  A string
    is therefore a [list N], and every string operation of the scripts
    ([indexOf], [substring], [replace], [split], [trim], [match], ...) is
    written out on that representation. *)

From Stdlib Require Import Ascii String.
From Stdlib Require Import List NArith Arith Bool Lia.
From Stdlib Require Import Sorting.Sorted Sorting.Permutation.
Import ListNotations.

Set Implicit Arguments.

(* ===================================================================== *)
(** ** JavaScript strings                                                 *)
(* ===================================================================== *)

Module JS.

Definition jsstring := list N.

(** An ASCII literal of the source, as code units. *)
Definition str (s : string) : jsstring :=
  map N_of_ascii (list_ascii_of_string s).

Fixpoint eqb (a b : jsstring) : bool :=
  match a, b with
  | [], [] => true
  | x :: a', y :: b' => N.eqb x y && eqb a' b'
  | _, _ => false
  end.

(** [s.startsWith(p)] *)
Fixpoint startsWith (s p : jsstring) {struct p} : bool :=
  match p, s with
  | [], _ => true
  | x :: p', y :: s' => N.eqb x y && startsWith s' p'
  | _ :: _, [] => false
  end.

(** The rest of [s] behind the prefix [p], when [p] is a prefix. *)
Fixpoint strip_prefix (p s : jsstring) : option jsstring :=
  match p, s with
  | [], _ => Some s
  | x :: p', y :: s' => if N.eqb x y then strip_prefix p' s' else None
  | _ :: _, [] => None
  end.

(** First position [>= i] at which [p] occurs, [s] being the suffix of the
    subject that starts at position [i]. *)
Fixpoint find_from (p s : jsstring) (i : nat) : option nat :=
  if startsWith s p then Some i
  else match s with
       | [] => None
       | _ :: s' => find_from p s' (S i)
       end.

(** [s.indexOf(p, from)]; [None] is the [-1] of JavaScript.  The start
    position is clamped to the length of [s]. *)
Definition indexOf (s p : jsstring) (from : nat) : option nat :=
  let from := Nat.min from (length s) in
  find_from p (skipn from s) from.

(** [s.includes(p)] *)
Definition includes (s p : jsstring) : bool :=
  match indexOf s p 0 with Some _ => true | None => false end.

(** [s.substring(a)] and [s.substring(0, b)] *)
Definition substring_from (s : jsstring) (a : nat) : jsstring := skipn a s.
Definition substring_to (s : jsstring) (b : nat) : jsstring := firstn b s.

(** [s.replace(p, r)] with a string pattern: only the first occurrence. *)
Fixpoint replace_first (p r s : jsstring) : jsstring :=
  match strip_prefix p s with
  | Some rest => r ++ rest
  | None => match s with
            | [] => []
            | x :: s' => x :: replace_first p r s'
            end
  end.

(** White space and line terminators of ECMAScript, the code units that
    [trim] removes. *)
Definition is_space (c : N) : bool :=
  (N.leb 9 c && N.leb c 13) || N.eqb c 32 || N.eqb c 160 || N.eqb c 5760
  || (N.leb 8192 c && N.leb c 8202) || N.eqb c 8232 || N.eqb c 8233
  || N.eqb c 8239 || N.eqb c 8287 || N.eqb c 12288 || N.eqb c 65279.

Fixpoint trimStart (s : jsstring) : jsstring :=
  match s with
  | c :: s' => if is_space c then trimStart s' else s
  | [] => []
  end.

Definition trimEnd (s : jsstring) : jsstring := rev (trimStart (rev s)).

(** [s.trim()] *)
Definition trim (s : jsstring) : jsstring := trimEnd (trimStart s).

Definition LF : N := 10.

(** [s.split('\n')]: the pieces between line feeds; never the empty list. *)
Fixpoint split_lines (s : jsstring) : list jsstring :=
  match s with
  | [] => [[]]
  | c :: s' =>
      if N.eqb c LF then [] :: split_lines s'
      else match split_lines s' with
           | l :: ls => (c :: l) :: ls
           | [] => [[c]]
           end
  end.

(** [a.join('\n')] *)
Fixpoint join_lines (ls : list jsstring) : jsstring :=
  match ls with
  | [] => []
  | [l] => l
  | l :: ls' => l ++ LF :: join_lines ls'
  end.

(** [a.includes(x)] on an array of strings *)
Definition array_includes (a : list jsstring) (x : jsstring) : bool :=
  existsb (eqb x) a.

(** The order of [<] on strings: lexicographic on code units. *)
Fixpoint leb (a b : jsstring) : bool :=
  match a, b with
  | [], _ => true
  | _ :: _, [] => false
  | x :: a', y :: b' =>
      if N.ltb x y then true
      else if N.ltb y x then false
      else leb a' b'
  end.

(** [a.sort()] without a comparator sorts strings by that order.  The
    result of sorting is the same whatever algorithm the engine runs (see
    [sort_unique] below); it is written here as a stable insertion sort. *)
Fixpoint insert_sorted (x : jsstring) (l : list jsstring) : list jsstring :=
  match l with
  | [] => [x]
  | y :: l' => if leb x y then x :: l else y :: insert_sorted x l'
  end.

Fixpoint sort (l : list jsstring) : list jsstring :=
  match l with
  | [] => []
  | x :: l' => insert_sorted x (sort l')
  end.

(** [n.toString()] for a natural number, most significant digit first. *)
Fixpoint digits_fuel (fuel n : nat) (acc : jsstring) : jsstring :=
  match fuel with
  | O => acc
  | S f =>
      let acc' := N.of_nat (48 + n mod 10) :: acc in
      if n <? 10 then acc' else digits_fuel f (n / 10) acc'
  end.

Definition toString (n : nat) : jsstring := digits_fuel (S n) n [].

(** [s.padStart(w, '0')] *)
Definition padStart0 (w : nat) (s : jsstring) : jsstring :=
  repeat 48%N (w - length s) ++ s.

End JS.

Import JS.

(* ===================================================================== *)
(** ** Regular expressions                                                *)
(* ===================================================================== *)

(** The regular expressions of the scripts are sequences of literals and
    of single-character classes under [*], [*?] or [+], with at most one
    capture group.  [exec_at] is the backtracking matcher of ECMAScript on
    that fragment: greedy quantifiers try the longest repetition first,
    lazy ones the shortest, and the first alternative that lets the rest
    of the pattern match wins. *)

Module Regex.

Inductive cclass :=
| CAny                (* [\s\S] *)
| CNot (c : N)        (* [^c]   *)
| CDigit.             (* \d     *)

Definition cmatch (cl : cclass) (x : N) : bool :=
  match cl with
  | CAny => true
  | CNot c => negb (N.eqb x c)
  | CDigit => N.leb 48 x && N.leb x 57
  end.

Inductive atom :=
| ALit (l : jsstring)       (* literal characters *)
| AStar (cl : cclass)       (* cl*  *)
| AStarLazy (cl : cclass)   (* cl*? *)
| APlus (cl : cclass)       (* cl+  *)
| AOpen                     (* (    *)
| AClose.                   (* )    *)

Definition regex := list atom.

Section Matcher.
Variable A : Type.

Fixpoint star_greedy (cl : cclass) (k : jsstring -> option A)
    (s : jsstring) : option A :=
  match s with
  | x :: s' =>
      if cmatch cl x then
        match star_greedy cl k s' with
        | Some r => Some r
        | None => k s
        end
      else k s
  | [] => k s
  end.

Fixpoint star_lazy (cl : cclass) (k : jsstring -> option A)
    (s : jsstring) : option A :=
  match k s with
  | Some r => Some r
  | None =>
      match s with
      | x :: s' => if cmatch cl x then star_lazy cl k s' else None
      | [] => None
      end
  end.
End Matcher.

(** [exec_at r op cap s]: match [r] against a prefix of [s]; [op] is the
    input at the opening parenthesis, [cap] the text of the group.  The
    result is the captured text and the input behind the match. *)
Fixpoint exec_at (r : regex) (op cap s : jsstring)
    : option (jsstring * jsstring) :=
  match r with
  | [] => Some (cap, s)
  | ALit l :: r' =>
      match strip_prefix l s with
      | Some s' => exec_at r' op cap s'
      | None => None
      end
  | AStar cl :: r' => star_greedy cl (exec_at r' op cap) s
  | AStarLazy cl :: r' => star_lazy cl (exec_at r' op cap) s
  | APlus cl :: r' =>
      match s with
      | x :: s' =>
          if cmatch cl x then star_greedy cl (exec_at r' op cap) s'
          else None
      | [] => None
      end
  | AOpen :: r' => exec_at r' s cap s
  | AClose :: r' => exec_at r' op (firstn (length op - length s) op) s
  end.

Definition exec_here (r : regex) (s : jsstring) :=
  exec_at r [] [] s.

(** [s.match(r)] for a regular expression without the [g] flag: the group
    of the leftmost match. *)
Fixpoint match_first (r : regex) (s : jsstring) : option jsstring :=
  match exec_here r s with
  | Some (cap, _) => Some cap
  | None => match s with
            | [] => None
            | _ :: s' => match_first r s'
            end
  end.

(** [s.search(r)]: the position of the leftmost match. *)
Fixpoint search_from (r : regex) (s : jsstring) (i : nat) : option nat :=
  match exec_here r s with
  | Some _ => Some i
  | None => match s with
            | [] => None
            | _ :: s' => search_from r s' (S i)
            end
  end.

Definition search (r : regex) (s : jsstring) : option nat :=
  search_from r s 0.

(** Successive matches of a regular expression with the [g] flag, as the
    loop [while ((m = r.exec(s)) !== null)] and [s.match(r)] visit them:
    each match starts where the previous one ended ([lastIndex]).  [skip]
    counts the code units of the current match still to be passed.  Every
    entry is the matched text and the text of the group. *)
Fixpoint exec_all_go (r : regex) (skip : nat) (s : jsstring)
    : list (jsstring * jsstring) :=
  match s with
  | [] => []
  | _ :: s' =>
      match skip with
      | S k => exec_all_go r k s'
      | O =>
          match exec_here r s with
          | Some (cap, rest) =>
              let n := length s - length rest in
              (firstn n s, cap) :: exec_all_go r (n - 1) s'
          | None => exec_all_go r 0 s'
          end
      end
  end.

Definition exec_all (r : regex) (s : jsstring) := exec_all_go r 0 s.

(** [s.replace(r, rep)] for a regular expression with the [g] flag. *)
Fixpoint replace_go (r : regex) (rep : jsstring) (skip : nat)
    (s : jsstring) : jsstring :=
  match s with
  | [] => []
  | x :: s' =>
      match skip with
      | S k => replace_go r rep k s'
      | O =>
          match exec_here r s with
          | Some (_, rest) =>
              rep ++ replace_go r rep (length s - length rest - 1) s'
          | None => x :: replace_go r rep 0 s'
          end
      end
  end.

Definition replace_all (r : regex) (rep s : jsstring) : jsstring :=
  replace_go r rep 0 s.

End Regex.

Import Regex.

(* ===================================================================== *)
(** ** Console, file system and process events                            *)
(* ===================================================================== *)

(** What a script prints is kept by kind, with the values it interpolates;
    the wording of the Japanese messages plays no role. *)
Inductive message :=
| MsgUsage                                   (* usage lines, no argument *)
| MsgHelp                                    (* the help text *)
| MsgNotHttps (urlString : jsstring)         (* scheme is not https *)
| MsgDomainNotAllowed (hostname : jsstring)  (* host is not the domain *)
| MsgAllowedDomains (domains : list jsstring)
| MsgInvalidUrl (urlString : jsstring)       (* new URL threw *)
| MsgErrorDetail                             (* error.message *)
| MsgBodyNotFound                            (* no body strategy matched *)
| MsgScraping (href : jsstring)
| MsgFetchingIndex
| MsgNovelTitle (title : jsstring)
| MsgFetchingMain
| MsgMainSaved
| MsgMainExtractFailed
| MsgSearchingLinks
| MsgStartDownload
| MsgFoundChapters (n : nat)
| MsgFirstThree
| MsgDownloading (chapterNum : nat) (chapterUrl : jsstring)
| MsgChapterSaved (chapterNum : nat) (chapterTitle : jsstring)
| MsgChapterExtractFailed (chapterNum : nat)
| MsgChapterError (chapterNum : nat)
| MsgChapterList (links : list jsstring)
| MsgNoLinks
| MsgDone
| MsgFatal
| MsgRunning
| MsgAllDone.

Inductive event :=
| Log (m : message)                        (* console.log *)
| Error (m : message)                      (* console.error *)
| Request (url : jsstring)                 (* a call of fetchUrl *)
| WriteFile (path data : jsstring)         (* fs.writeFileSync *)
| EnsureDir (dir : jsstring)               (* ensureOutputDir *)
| Sleep (ms : nat)                         (* await sleep(ms) *)
| ListFiles (dir : jsstring)               (* the closing file listing *)
| ChildExit (code : nat)                   (* a child process has ended *)
| Exit (code : nat).                       (* process.exit(code) *)

(** A run of a script is the list of its events.  [process.exit] ends the
    run; a run that ends without it has status 0.  Writing a file and
    creating the output directory are taken to succeed. *)
Definition trace := list event.

Definition exit_status (t : trace) : nat :=
  match last t (Exit 0) with
  | Exit c => c
  | _ => 0
  end.

(** The URLs handed to the fetcher during a run, in order. *)
Fixpoint requests (t : trace) : list jsstring :=
  match t with
  | [] => []
  | Request u :: t' => u :: requests t'
  | _ :: t' => requests t'
  end.

(** The files written during a run, in order. *)
Fixpoint written (t : trace) : list (jsstring * jsstring) :=
  match t with
  | [] => []
  | WriteFile p d :: t' => (p, d) :: written t'
  | _ :: t' => written t'
  end.

(** [path.join(dir, name)] *)
Definition path_join (dir name : jsstring) : jsstring :=
  dir ++ str "/" ++ name.

(* ===================================================================== *)
(** ** HTML text normalizer                                               *)
(* ===================================================================== *)

(** Code units that cannot be written inside a literal. *)
Definition DQ : N := 34.   (* double quote *)
Definition LT : N := 60.   (* < *)
Definition GT : N := 62.   (* > *)

(** The two normalizer functions are the same text in both adapters. *)

(** The entity table, in the order of the [replace] chain. *)
Definition entity_table : list (jsstring * jsstring) :=
  [ (str "&nbsp;", str " ");
    (str "&amp;", str "&");
    (str "&lt;", str "<");
    (str "&gt;", str ">");
    (str "&quot;", [DQ]);
    (str "&#39;", str "'") ].

Definition decodeHtmlEntities (text : jsstring) : jsstring :=
  let text := replace_all [ALit (str "&nbsp;")] (str " ") text in
  let text := replace_all [ALit (str "&amp;")] (str "&") text in
  let text := replace_all [ALit (str "&lt;")] (str "<") text in
  let text := replace_all [ALit (str "&gt;")] (str ">") text in
  let text := replace_all [ALit (str "&quot;")] [DQ] text in
  replace_all [ALit (str "&#39;")] (str "'") text.

(** [/<[^>]*>/g] *)
Definition tag_pattern : regex := [ALit [LT]; AStar (CNot GT); ALit [GT]].

Definition stripHtmlTags (text : jsstring) : jsstring :=
  replace_all tag_pattern [] text.

(** [/<br[^>]*>/g] *)
Definition br_pattern : regex := [ALit (str "<br"); AStar (CNot GT); ALit [GT]].

Definition br_to_newline (content : jsstring) : jsstring :=
  replace_all br_pattern [LF] content.

(** [content.split('\n').map(line => line.trim())
      .filter(line => line.length > 0).join('\n')] *)
Definition cleanLines (content : jsstring) : jsstring :=
  join_lines
    (filter (fun line => 0 <? length line)
       (map trim (split_lines content))).

(** [/<title>([^<]* )<\/title>/] (one group), the same in both adapters *)
Definition title_pattern : regex :=
  [ALit (str "<title>"); AOpen; AStar (CNot LT); AClose;
   ALit (str "</title>")].

(** The sentinel title that both adapters return when nothing matches
    (seven code units, "unknown title" in Japanese). *)
Definition unknown_title : jsstring :=
  [19981; 26126; 12394; 12479; 12452; 12488; 12523]%N.

(** JavaScript truthiness of a string. *)
Definition truthy (s : jsstring) : bool := 0 <? length s.

(** [chapter_NNN.txt] *)
Definition chapter_filename (chapterNum : nat) : jsstring :=
  str "chapter_" ++ padStart0 3 (toString chapterNum) ++ str ".txt".

(* ===================================================================== *)
(** ** Processes: events, exceptions and [process.exit]                   *)
(* ===================================================================== *)

(** A computation of a script emits events and then returns a value,
    throws, or has ended the process. *)
Inductive outcome (A : Type) :=
| Return (a : A)
| Throw
| Exited.

Arguments Return {A} a.
Arguments Throw {A}.
Arguments Exited {A}.

Definition proc (A : Type) : Type := (trace * outcome A)%type.

Definition ret {A} (a : A) : proc A := ([], Return a).

Definition bind {A B} (m : proc A) (f : A -> proc B) : proc B :=
  match m with
  | (t, Return a) => let (t', r) := f a in (t ++ t', r)
  | (t, Throw) => (t, Throw)
  | (t, Exited) => (t, Exited)
  end.

Definition emit (e : event) : proc unit := ([e], Return tt).
Definition throw {A} : proc A := ([], Throw).

(** [process.exit(code)] *)
Definition exit {A} (code : nat) : proc A := ([Exit code], Exited).

(** [try { m } catch (error) { handler }] *)
Definition try_catch {A} (m handler : proc A) : proc A :=
  match m with
  | (t, Throw) => let (t', r) := handler in (t ++ t', r)
  | _ => m
  end.

(** A function that logs and returns, run inside a process. *)
Definition lift {A} (r : A * trace) : proc A := (snd r, Return (fst r)).

Declare Scope proc_scope.
Delimit Scope proc_scope with proc.
Notation "x <- m ;; k" := (bind m (fun x => k))
  (at level 100, m at next level, right associativity) : proc_scope.
Notation "m ;; k" := (bind m (fun _ => k))
  (at level 100, right associativity) : proc_scope.
Open Scope proc_scope.

(* ===================================================================== *)
(** ** What the two adapters share                                        *)
(* ===================================================================== *)

(** The fields of a [URL] object that the scripts read. *)
Record URL := mkURL {
  protocol : jsstring;
  hostname : jsstring;
  href : jsstring
}.

(** [parseArguments], [validateUrl], [fetchUrl] and the body of the
    chapter loop are the same text in both adapter files, up to the
    constants of the site. *)
Section Adapter.

(** [new URL(s)] of Node.js: [None] when the constructor throws. *)
Variable URL_parse : jsstring -> option URL.

(** The network: the body that [https.get] delivers for a URL, [None]
    when the promise of [fetchUrl] is rejected.  A URL gets the same
    answer whenever it is fetched during a run. *)
Variable network : jsstring -> option jsstring.

Variable ALLOWED_DOMAIN : jsstring.
Variable OUTPUT_DIR : jsstring.
Variable extractTitle : jsstring -> jsstring.
Variable extractNovelContent : jsstring -> jsstring * trace.

Definition parseArguments (args : list jsstring) : proc jsstring :=
  match args with
  | [] => emit (Error MsgUsage) ;; exit 1
  | arg0 :: _ =>
      if array_includes args (str "--help") || array_includes args (str "-h")
      then emit (Log MsgHelp) ;; exit 0
      else ret arg0
  end.

Definition new_URL (urlString : jsstring) : proc URL :=
  match URL_parse urlString with
  | Some url => ret url
  | None => throw
  end.

Definition validateUrl (urlString : jsstring) : proc URL :=
  try_catch
    (url <- new_URL urlString ;;
     (if negb (eqb (protocol url) (str "https:"))
      then emit (Error (MsgNotHttps urlString)) ;; exit 1
      else ret tt) ;;
     (if negb (eqb (hostname url) ALLOWED_DOMAIN)
      then emit (Error (MsgDomainNotAllowed (hostname url))) ;;
           emit (Error (MsgAllowedDomains [ALLOWED_DOMAIN])) ;;
           exit 1
      else ret tt) ;;
     ret url)
    (emit (Error (MsgInvalidUrl urlString)) ;;
     emit (Error MsgErrorDetail) ;;
     exit 1).

Definition fetchUrl (url : jsstring) : proc jsstring :=
  emit (Request url) ;;
  match network url with
  | Some data => ret data
  | None => throw
  end.

(** One round of the chapter loop, for the index [i]. *)
Definition download_chapter (chapterLinks : list jsstring) (i : nat)
    : proc unit :=
  let chapterUrl := nth i chapterLinks [] in
  let chapterNum := i + 1 in
  emit (Log (MsgDownloading chapterNum chapterUrl)) ;;
  try_catch
    (chapterHtml <- fetchUrl chapterUrl ;;
     let chapterTitle := extractTitle chapterHtml in
     chapterContent <- lift (extractNovelContent chapterHtml) ;;
     (if truthy chapterContent
      then
        let filename := chapter_filename chapterNum in
        emit (WriteFile (path_join OUTPUT_DIR filename) chapterContent) ;;
        emit (Log (MsgChapterSaved chapterNum chapterTitle))
      else emit (Error (MsgChapterExtractFailed chapterNum))) ;;
     emit (Sleep 1000))
    (emit (Error (MsgChapterError chapterNum))).

(** [for (let i = start; i < start + n; i++)] over the rounds. *)
Fixpoint chapter_loop (chapterLinks : list jsstring) (n i : nat)
    : proc unit :=
  match n with
  | O => ret tt
  | S n' =>
      download_chapter chapterLinks i ;;
      chapter_loop chapterLinks n' (S i)
  end.

(** The part of [main] up to the discovery of the chapter links. *)
Definition main_listing (args : list jsstring) : proc jsstring :=
  urlString <- parseArguments args ;;
  novelUrl <- validateUrl urlString ;;
  emit (EnsureDir OUTPUT_DIR) ;;
  emit (Log (MsgScraping (href novelUrl))) ;;
  emit (Log MsgFetchingIndex) ;;
  html <- fetchUrl (href novelUrl) ;;
  emit (WriteFile (path_join OUTPUT_DIR (str "index.html")) html) ;;
  let title := extractTitle html in
  emit (Log (MsgNovelTitle title)) ;;
  emit (Log MsgFetchingMain) ;;
  content <- lift (extractNovelContent html) ;;
  (if truthy content
   then emit (WriteFile (path_join OUTPUT_DIR (str "content.txt")) content) ;;
        emit (Log MsgMainSaved)
   else emit (Error MsgMainExtractFailed)) ;;
  emit (Log MsgSearchingLinks) ;;
  ret html.

(** The closing report of [main]. *)
Definition main_report : proc unit :=
  emit (Log MsgDone) ;;
  emit (ListFiles OUTPUT_DIR).

(** The [catch] of [main]. *)
Definition main_catch : proc unit :=
  emit (Error MsgFatal) ;; exit 1.

End Adapter.

(* ===================================================================== *)
(** ** The ncode adapter (scrape_novel_ncode.js)                          *)
(* ===================================================================== *)

Module Ncode.

Definition OUTPUT_DIR : jsstring := str "novel_output/ncode".
Definition ALLOWED_DOMAIN : jsstring := str "ncode.syosetu.com".
Definition ORIGIN : jsstring := str "https://ncode.syosetu.com".

(** [/<div class=Q js-novel-text p-novel__text Q>/] without the blanks
    around the class names, Q standing for the double quote *)
Definition startPattern : regex :=
  [ALit (str "<div class=" ++ [DQ] ++ str "js-novel-text p-novel__text"
         ++ [DQ] ++ str ">")].

(** The [while (divCount > 0 && currentIndex !== -1)] loop.  The result
    is the final [endIndex]; [None] outside means the fuel ran out, which
    [scan_loop_total] shows does not happen with [scan_fuel]. *)
Fixpoint scan_loop (fuel : nat) (content : jsstring) (divCount : nat)
    (endIndex currentIndex : option nat) : option (option nat) :=
  match fuel with
  | O => None
  | S fuel' =>
      match currentIndex with
      | None => Some endIndex
      | Some ci =>
          if 0 <? divCount then
            let nextDiv := indexOf content (str "<div") (ci + 1) in
            let nextEndDiv := indexOf content (str "</div>") ci in
            match nextEndDiv with
            | None => Some endIndex                          (* break *)
            | Some ne =>
                if match nextDiv with
                   | Some nd => nd <? ne
                   | None => false
                   end
                then scan_loop fuel' content (divCount + 1) endIndex nextDiv
                else
                  let divCount' := divCount - 1 in
                  scan_loop fuel' content divCount'
                    (if divCount' =? 0 then Some ne else endIndex)
                    (Some ne)
            end
          else Some endIndex
      end
  end.

Definition scan_fuel (content : jsstring) : nat := 2 * length content + 2.

(** The value of [endIndex] behind the loop, for [content] starting at
    the marker. *)
Definition find_endIndex (content : jsstring) : option nat :=
  let divCount := 1 in
  let endIndex := None in
  let currentIndex := indexOf content (str "<div") 1 in
  match scan_loop (scan_fuel content) content divCount endIndex
          currentIndex with
  | Some endIndex => endIndex
  | None => None
  end.

Definition extractNovelContent (html : jsstring) : jsstring * trace :=
  match search startPattern html with
  | None => ([], [Error MsgBodyNotFound])
  | Some startMatch =>
      let content := substring_from html startMatch in
      let endIndex := find_endIndex content in
      let content :=
        match endIndex with
        | Some e => substring_to content e
        | None => content
        end in
      let content := br_to_newline content in
      let content := stripHtmlTags content in
      let content := decodeHtmlEntities content in
      let lines :=
        filter (fun line => 0 <? length line)
          (map trim (split_lines content)) in
      (join_lines lines, [])
  end.

(** The site name that is removed from the title (" - " and seven
    Japanese code units). *)
Definition site_suffix : jsstring :=
  str " - " ++ [23567; 35500; 23478; 12395; 12394; 12429; 12358]%N.

Definition extractTitle (html : jsstring) : jsstring :=
  match match_first title_pattern html with
  | Some t => replace_first site_suffix [] t
  | None => unknown_title
  end.

(** [/href=Q([^Q]*n9734kw\/\d+[^Q]* )Q/g], Q standing for the double
    quote *)
Definition linkPattern : regex :=
  [ALit (str "href=" ++ [DQ]); AOpen; AStar (CNot DQ);
   ALit (str "n9734kw/"); APlus CDigit; AStar (CNot DQ); AClose;
   ALit [DQ]].

Definition resolve_link (m1 : jsstring) : jsstring :=
  if startsWith m1 (str "http") then m1 else ORIGIN ++ m1.

(** The body of the [exec] loop over the matches. *)
Fixpoint collect_links (ms : list (jsstring * jsstring))
    (links : list jsstring) : list jsstring :=
  match ms with
  | [] => links
  | (_, m1) :: ms' =>
      let link := resolve_link m1 in
      collect_links ms'
        (if array_includes links link then links else links ++ [link])
  end.

Definition extractChapterLinks (html : jsstring) : list jsstring :=
  sort (collect_links (exec_all linkPattern html) []).

Section Run.
Variable URL_parse : jsstring -> option URL.
Variable network : jsstring -> option jsstring.

Definition validateUrl := validateUrl URL_parse ALLOWED_DOMAIN.

(** [main]: every discovered chapter is downloaded. *)
Definition main (args : list jsstring) : proc unit :=
  try_catch
    (html <- main_listing URL_parse network ALLOWED_DOMAIN OUTPUT_DIR
               extractTitle extractNovelContent args ;;
     let chapterLinks := extractChapterLinks html in
     (if 0 <? length chapterLinks
      then
        emit (Log MsgStartDownload) ;;
        chapter_loop network OUTPUT_DIR extractTitle extractNovelContent
          chapterLinks (length chapterLinks) 0
      else emit (Log MsgNoLinks)) ;;
     main_report OUTPUT_DIR)
    main_catch.
End Run.

End Ncode.

(* ===================================================================== *)
(** ** The kakuyomu adapter                                               *)
(* ===================================================================== *)

Module Kakuyomu.

Definition OUTPUT_DIR : jsstring := str "novel_output/kakuyomu".
Definition ALLOWED_DOMAIN : jsstring := str "kakuyomu.jp".
Definition ORIGIN : jsstring := str "https://kakuyomu.jp".

(** [/<div[^>]*widget-episodeBody[^>]*>([\s\S]*? )<\/div>/] *)
Definition episodeBody_pattern : regex :=
  [ALit (str "<div"); AStar (CNot GT); ALit (str "widget-episodeBody");
   AStar (CNot GT); ALit [GT]; AOpen; AStarLazy CAny; AClose;
   ALit (str "</div>")].

(** [/<div[^>]*widget-workEpisode[^>]*>([\s\S]*? )<\/div>/] *)
Definition workEpisode_pattern : regex :=
  [ALit (str "<div"); AStar (CNot GT); ALit (str "widget-workEpisode");
   AStar (CNot GT); ALit [GT]; AOpen; AStarLazy CAny; AClose;
   ALit (str "</div>")].

(** [/<p[^>]*widget-episodeBody-paragraph[^>]*>([\s\S]*? )<\/p>/g] *)
Definition paragraph_pattern : regex :=
  [ALit (str "<p"); AStar (CNot GT);
   ALit (str "widget-episodeBody-paragraph");
   AStar (CNot GT); ALit [GT]; AOpen; AStarLazy CAny; AClose;
   ALit (str "</p>")].

(** [html.match(r)] with the [g] flag: the matched texts, or [null] when
    there is none. *)
Definition match_global (r : regex) (html : jsstring)
    : option (list jsstring) :=
  match map fst (exec_all r html) with
  | [] => None
  | ms => Some ms
  end.

Definition extractNovelContent (html : jsstring) : jsstring * trace :=
  let selected :=
    match match_first episodeBody_pattern html with
    | Some m1 => Some m1
    | None =>
        match match_first workEpisode_pattern html with
        | Some m1 => Some m1
        | None =>
            match match_global paragraph_pattern html with
            | Some generalMatch => Some (join_lines generalMatch)
            | None => None
            end
        end
    end in
  match selected with
  | None => ([], [Error MsgBodyNotFound])
  | Some content =>
      let content := br_to_newline content in
      let content := stripHtmlTags content in
      let content := decodeHtmlEntities content in
      let lines :=
        filter (fun line => 0 <? length line)
          (map trim (split_lines content)) in
      (join_lines lines, [])
  end.

(** " - " and the four code units of the site name *)
Definition site_suffix : jsstring :=
  str " - " ++ [12459; 12463; 12520; 12512]%N.

(** [/<h1[^>]*widget-workTitle[^>]*>([^<]* )<\/h1>/] *)
Definition workTitle_pattern : regex :=
  [ALit (str "<h1"); AStar (CNot GT); ALit (str "widget-workTitle");
   AStar (CNot GT); ALit [GT]; AOpen; AStar (CNot LT); AClose;
   ALit (str "</h1>")].

Definition extractTitle (html : jsstring) : jsstring :=
  match match_first title_pattern html with
  | Some t => trim (replace_first site_suffix [] t)
  | None =>
      match match_first workTitle_pattern html with
      | Some t => trim t
      | None => unknown_title
      end
  end.

(** [/href=Q(\/works\/\d+\/episodes\/\d+)Q/g], Q standing for the double
    quote *)
Definition linkPattern : regex :=
  [ALit (str "href=" ++ [DQ]); AOpen; ALit (str "/works/"); APlus CDigit;
   ALit (str "/episodes/"); APlus CDigit; AClose; ALit [DQ]].

Fixpoint collect_links (ms : list (jsstring * jsstring))
    (links : list jsstring) : list jsstring :=
  match ms with
  | [] => links
  | (_, m1) :: ms' =>
      let link := ORIGIN ++ m1 in
      collect_links ms'
        (if array_includes links link then links else links ++ [link])
  end.

Definition extractChapterLinks (html : jsstring) : list jsstring :=
  sort (collect_links (exec_all linkPattern html) []).

Section Run.
Variable URL_parse : jsstring -> option URL.
Variable network : jsstring -> option jsstring.

Definition validateUrl := validateUrl URL_parse ALLOWED_DOMAIN.

(** [main]: only the first three chapters are downloaded. *)
Definition main (args : list jsstring) : proc unit :=
  try_catch
    (html <- main_listing URL_parse network ALLOWED_DOMAIN OUTPUT_DIR
               extractTitle extractNovelContent args ;;
     let chapterLinks := extractChapterLinks html in
     (if 0 <? length chapterLinks
      then
        emit (Log (MsgFoundChapters (length chapterLinks))) ;;
        emit (Log MsgFirstThree) ;;
        let downloadCount := Nat.min 3 (length chapterLinks) in
        chapter_loop network OUTPUT_DIR extractTitle extractNovelContent
          chapterLinks downloadCount 0 ;;
        emit (Log (MsgChapterList chapterLinks))
      else emit (Log MsgNoLinks)) ;;
     main_report OUTPUT_DIR)
    main_catch.
End Run.

End Kakuyomu.

(* ===================================================================== *)
(** ** The dispatcher (scrape_novel.js)                                   *)
(* ===================================================================== *)

Module Dispatcher.

(** What reading a property of an object literal can give: nothing, the
    string stored under the key, or a member that the object inherits
    from [Object.prototype]. *)
Inductive jsvalue :=
| VUndefined
| VString (s : jsstring)
| VInherited (key : jsstring).

(** The own properties of [SUPPORTED_SCRAPERS]. *)
Definition SUPPORTED_SCRAPERS : list (jsstring * jsstring) :=
  [ (str "ncode.syosetu.com", str "scrape_novel_ncode.js");
    (str "kakuyomu.jp", str "scrape_novel_kakuyomu.js") ].

(** The property names that every object literal inherits. *)
Definition Object_prototype_keys : list jsstring :=
  [ str "constructor"; str "__defineGetter__"; str "__defineSetter__";
    str "hasOwnProperty"; str "__lookupGetter__"; str "__lookupSetter__";
    str "isPrototypeOf"; str "propertyIsEnumerable"; str "toString";
    str "valueOf"; str "__proto__"; str "toLocaleString" ].

Fixpoint own_property (o : list (jsstring * jsstring)) (key : jsstring)
    : option jsstring :=
  match o with
  | [] => None
  | (k, v) :: o' => if eqb k key then Some v else own_property o' key
  end.

(** [o[key]] *)
Definition get (o : list (jsstring * jsstring)) (key : jsstring) : jsvalue :=
  match own_property o key with
  | Some v => VString v
  | None =>
      if array_includes Object_prototype_keys key then VInherited key
      else VUndefined
  end.

Definition value_truthy (v : jsvalue) : bool :=
  match v with
  | VUndefined => false
  | VString s => truthy s
  | VInherited _ => true
  end.

(** The events of a child process, seen through the inherited standard
    streams: its end is not the end of the parent. *)
Definition as_child (e : event) : event :=
  match e with
  | Exit c => ChildExit c
  | _ => e
  end.

Section Run.
Variable URL_parse : jsstring -> option URL.
Variable network : jsstring -> option jsstring.

Definition validateUrlAndGetScraper (urlString : jsstring) : proc jsvalue :=
  try_catch
    (url <- new_URL URL_parse urlString ;;
     (if negb (eqb (protocol url) (str "https:"))
      then emit (Error (MsgNotHttps urlString)) ;; exit 1
      else ret tt) ;;
     let scraper := get SUPPORTED_SCRAPERS (hostname url) in
     (if negb (value_truthy scraper)
      then emit (Error (MsgDomainNotAllowed (hostname url))) ;;
           emit (Error (MsgAllowedDomains (map fst SUPPORTED_SCRAPERS))) ;;
           exit 1
      else ret tt) ;;
     ret scraper)
    (emit (Error (MsgInvalidUrl urlString)) ;;
     emit (Error MsgErrorDetail) ;;
     exit 1).

(** [node scraperScript url], run in the directory of the scripts: one
    of the two adapters, or a failure of node to load the script. *)
Definition child_process (scraperScript : jsvalue) (url : jsstring)
    : proc unit :=
  match scraperScript with
  | VString s =>
      if eqb s (str "scrape_novel_ncode.js")
      then Ncode.main URL_parse network [url]
      else if eqb s (str "scrape_novel_kakuyomu.js")
      then Kakuyomu.main URL_parse network [url]
      else emit (Error MsgFatal) ;; exit 1
  | _ => emit (Error MsgFatal) ;; exit 1
  end.

(** [spawn('node', [scraperScript, url], {stdio: 'inherit'})] up to the
    [close] event: the output of the child appears on the streams of the
    parent, and the result is the exit code of the child. *)
Definition spawn_node (scraperScript : jsvalue) (url : jsstring) : proc nat :=
  let child := child_process scraperScript url in
  let code :=
    match snd child with
    | Exited => exit_status (fst child)
    | _ => 0
    end in
  (map as_child (fst child), Return code).

Definition runScraper (scraperScript : jsvalue) (url : jsstring)
    : proc unit :=
  emit (Log MsgRunning) ;;
  code <- spawn_node scraperScript url ;;
  if code =? 0 then ret tt else throw.

Definition main (args : list jsstring) : proc unit :=
  try_catch
    (urlString <- parseArguments args ;;
     scraperScript <- validateUrlAndGetScraper urlString ;;
     runScraper scraperScript urlString ;;
     emit (Log MsgAllDone))
    (emit (Error MsgFatal) ;; exit 1).
End Run.

End Dispatcher.

(* ===================================================================== *)
(** ** A URL parser for concrete runs                                     *)
(* ===================================================================== *)

(** [new URL] belongs to Node.js, not to the repository, and the theorems
    below hold for every parser.  To run the scripts on concrete inputs,
    [NodeURL.parse] follows the URL standard on the strings of the shape
    [http://host], [https://host], [http://host/path] and
    [https://host/path], where the host is made of labels of letters
    separated by single dots and the path of letters, digits, slashes,
    hyphens and underscores; it rejects every other string. *)
Module NodeURL.

Definition is_upper (c : N) : bool := N.leb 65 c && N.leb c 90.
Definition is_lower (c : N) : bool := N.leb 97 c && N.leb c 122.
Definition is_digit (c : N) : bool := N.leb 48 c && N.leb c 57.
Definition is_letter (c : N) : bool := is_upper c || is_lower c.
Definition to_lower (c : N) : N := if is_upper c then (c + 32)%N else c.

(** Slash, hyphen, underscore, letters and digits. *)
Definition is_path_char (c : N) : bool :=
  is_letter c || is_digit c || N.eqb c 47 || N.eqb c 45 || N.eqb c 95.

(** The longest prefix of characters in [p], and the rest. *)
Fixpoint span (p : N -> bool) (s : jsstring) : jsstring * jsstring :=
  match s with
  | c :: s' =>
      if p c then let (a, b) := span p s' in (c :: a, b) else ([], s)
  | [] => ([], [])
  end.

(** Labels of letters separated by single dots; [fresh] tells that a
    label has to start here. *)
Fixpoint is_host (fresh : bool) (h : jsstring) : bool :=
  match h with
  | [] => negb fresh
  | c :: h' =>
      if is_letter c then is_host false h'
      else N.eqb c 46 && negb fresh && is_host true h'
  end.

Definition parse (s : jsstring) : option URL :=
  let (scheme, rest) := span is_letter s in
  let scheme := map to_lower scheme in
  if eqb scheme (str "http") || eqb scheme (str "https") then
    match strip_prefix (str "://") rest with
    | Some rest =>
        let (host, path) := span (fun c => negb (N.eqb c 47)) rest in
        if is_host true host && forallb is_path_char path then
          let host := map to_lower host in
          Some {| protocol := scheme ++ str ":";
                  hostname := host;
                  href := scheme ++ str "://" ++ host
                          ++ (if truthy path then path else str "/") |}
        else None
    | None => None
    end
  else None.

End NodeURL.

(* ===================================================================== *)
(** ** Notions of the specification                                       *)
(* ===================================================================== *)

(** A text is already decoded when no entity of the table occurs in it. *)
Definition entity_free (text : jsstring) : bool :=
  forallb (fun e => negb (includes text (fst e))) entity_table.

(** The chain of [replace] calls is a left fold over the entity table. *)
Definition decode_step (text : jsstring) (e : jsstring * jsstring) :=
  replace_all [ALit (fst e)] (snd e) text.

(** An entry of the table whose replacement is shorter than the entity. *)
Definition shrinking (e : jsstring * jsstring) : Prop :=
  length (snd e) < length (fst e).

(** The lexicographic order on sequences of code units. *)
Inductive lex_le : jsstring -> jsstring -> Prop :=
| lex_le_nil (b : jsstring) : lex_le [] b
| lex_le_lt (x y : N) (a b : jsstring) : (x < y)%N -> lex_le (x :: a) (y :: b)
| lex_le_eq (x : N) (a b : jsstring) : lex_le a b -> lex_le (x :: a) (x :: b).

(** A non-empty run of decimal digits. *)
Definition digits (d : jsstring) : Prop :=
  d <> [] /\ Forall (fun c => (48 <= c <= 57)%N) d.

(** A path of the shape /works/<digits>/episodes/<digits>. *)
Definition episode_path (p : jsstring) : Prop :=
  exists work episode,
    digits work /\ digits episode /\
    p = str "/works/" ++ work ++ str "/episodes/" ++ episode.

(** The boundary of the balanced scan, in the words of the specification:
    the counter starts at 1 for the marker, every further opening tag
    [<div] adds 1, every closing tag [</div>] subtracts 1, and the
    boundary is the closing tag at which the counter reaches 0.  [s] is
    the text from position [i] on. *)
Fixpoint balanced_scan (s : jsstring) (counter i : nat) : option nat :=
  match s with
  | [] => None
  | _ :: s' =>
      if startsWith s (str "</div>") then
        if counter =? 1 then Some i
        else balanced_scan s' (counter - 1) (S i)
      else if startsWith s (str "<div") then
        balanced_scan s' (S counter) (S i)
      else balanced_scan s' counter (S i)
  end.

(** The boundary for a text that starts with the marker tag. *)
Definition balanced_boundary (content : jsstring) : option nat :=
  match content with
  | [] => None
  | _ :: rest => balanced_scan rest 1 1
  end.

(** The opening tag that marks the body on an ncode page. *)
Definition ncode_marker : jsstring :=
  str "<div class=" ++ [DQ] ++ str "js-novel-text p-novel__text" ++ [DQ]
  ++ str ">".

(** The steps behind the selection of the body, in the order of the
    specification. *)
Definition normalize_body (content : jsstring) : jsstring :=
  cleanLines (decodeHtmlEntities (stripHtmlTags (br_to_newline content))).

(** The two sources. *)
Inductive site := ncode | kakuyomu.

Definition domain (a : site) : jsstring :=
  match a with
  | ncode => Ncode.ALLOWED_DOMAIN
  | kakuyomu => Kakuyomu.ALLOWED_DOMAIN
  end.

Definition extractBody (a : site) : jsstring -> jsstring * trace :=
  match a with
  | ncode => Ncode.extractNovelContent
  | kakuyomu => Kakuyomu.extractNovelContent
  end.

Definition extractTitle (a : site) : jsstring -> jsstring :=
  match a with
  | ncode => Ncode.extractTitle
  | kakuyomu => Kakuyomu.extractTitle
  end.

Definition extractChapterLinks (a : site) : jsstring -> list jsstring :=
  match a with
  | ncode => Ncode.extractChapterLinks
  | kakuyomu => Kakuyomu.extractChapterLinks
  end.

Definition main (a : site) (URL_parse : jsstring -> option URL)
    (network : jsstring -> option jsstring) : list jsstring -> proc unit :=
  match a with
  | ncode => Ncode.main URL_parse network
  | kakuyomu => Kakuyomu.main URL_parse network
  end.

(** The content that the first matching strategy of a source selects;
    [None] when no strategy matches.  For ncode: the text from the first
    occurrence of the marker tag, cut at the end index of the scan when
    there is one.  For kakuyomu: the group of the episode body element,
    else the group of the work episode element, else all paragraph
    elements joined by line feeds. *)
Definition body_selection (a : site) (html : jsstring) : option jsstring :=
  match a with
  | ncode =>
      match indexOf html ncode_marker 0 with
      | Some start =>
          let content := substring_from html start in
          Some match Ncode.find_endIndex content with
               | Some e => substring_to content e
               | None => content
               end
      | None => None
      end
  | kakuyomu =>
      match match_first Kakuyomu.episodeBody_pattern html with
      | Some m1 => Some m1
      | None =>
          match match_first Kakuyomu.workEpisode_pattern html with
          | Some m1 => Some m1
          | None =>
              option_map join_lines
                (Kakuyomu.match_global Kakuyomu.paragraph_pattern html)
          end
      end
  end.

(** The page holds a document title element with the text [t]. *)
Definition title_element (html t : jsstring) : Prop :=
  exists pre post,
    html = pre ++ str "<title>" ++ t ++ str "</title>" ++ post /\
    ~ In LT t.

(** The page holds a heading of the class of work titles with the text
    [t]; the class name stands inside the opening tag. *)
Definition heading_element (html t : jsstring) : Prop :=
  exists pre attrs1 attrs2 post,
    html = pre ++ str "<h1" ++ attrs1 ++ str "widget-workTitle" ++ attrs2
           ++ [GT] ++ t ++ str "</h1>" ++ post /\
    ~ In GT attrs1 /\ ~ In GT attrs2 /\ ~ In LT t.

(** The script of the dispatcher that serves a source. *)
Definition script (a : site) : jsstring :=
  match a with
  | ncode => str "scrape_novel_ncode.js"
  | kakuyomu => str "scrape_novel_kakuyomu.js"
  end.

(** The input parses as a URL with the secure scheme whose host is
    exactly [dom]. *)
Definition valid_url (URL_parse : jsstring -> option URL)
    (dom urlString : jsstring) : Prop :=
  exists url,
    URL_parse urlString = Some url /\
    protocol url = str "https:" /\
    hostname url = dom.

(** A run that was refused: something was written to the error stream,
    the status is 1, the fetcher was never called and no file was
    written. *)
Definition rejected (t : trace) : Prop :=
  (exists m, In (Error m) t) /\
  exit_status t = 1 /\
  requests t = [] /\
  written t = [].

(** The output directory of a source. *)
Definition output_dir (a : site) : jsstring :=
  match a with
  | ncode => Ncode.OUTPUT_DIR
  | kakuyomu => Kakuyomu.OUTPUT_DIR
  end.

(** The events of the round of the chapter loop for the index [j]. *)
Definition chapter_round (a : site) (network : jsstring -> option jsstring)
    (links : list jsstring) (j : nat) : trace :=
  let url := nth j links [] in
  Log (MsgDownloading (j + 1) url) :: Request url ::
  match network url with
  | None => [Error (MsgChapterError (j + 1))]
  | Some html =>
      snd (extractBody a html)
      ++ (if truthy (fst (extractBody a html))
          then [WriteFile (path_join (output_dir a) (chapter_filename (j + 1)))
                  (fst (extractBody a html));
                Log (MsgChapterSaved (j + 1) (extractTitle a html))]
          else [Error (MsgChapterExtractFailed (j + 1))])
      ++ [Sleep 1000]
  end.

(** The artifact of the round for the index [j], if there is one. *)
Definition chapter_artifact (a : site) (network : jsstring -> option jsstring)
    (links : list jsstring) (j : nat) : list (jsstring * jsstring) :=
  match network (nth j links []) with
  | None => []
  | Some html =>
      if truthy (fst (extractBody a html))
      then [(path_join (output_dir a) (chapter_filename (j + 1)),
             fst (extractBody a html))]
      else []
  end.

(** How many rounds the loop of a source makes over [n] links. *)
Definition download_count (a : site) (n : nat) : nat :=
  match a with
  | ncode => n
  | kakuyomu => Nat.min 3 n
  end.

(** The events of a run up to the chapter loop, for the validated URL
    [url] and the listing page [html]. *)
Definition listing_events (a : site) (url : URL) (html : jsstring) : trace :=
  [EnsureDir (output_dir a); Log (MsgScraping (href url));
   Log MsgFetchingIndex; Request (href url);
   WriteFile (path_join (output_dir a) (str "index.html")) html;
   Log (MsgNovelTitle (extractTitle a html)); Log MsgFetchingMain]
  ++ snd (extractBody a html)
  ++ (if truthy (fst (extractBody a html))
      then [WriteFile (path_join (output_dir a) (str "content.txt"))
              (fst (extractBody a html));
            Log MsgMainSaved]
      else [Error MsgMainExtractFailed])
  ++ [Log MsgSearchingLinks].

(** The events of the chapter part of a run. *)
Definition chapters_events (a : site) (network : jsstring -> option jsstring)
    (html : jsstring) : trace :=
  let links := extractChapterLinks a html in
  if 0 <? length links then
    match a with
    | ncode =>
        [Log MsgStartDownload]
        ++ flat_map (chapter_round a network links)
             (seq 0 (download_count a (length links)))
    | kakuyomu =>
        [Log (MsgFoundChapters (length links)); Log MsgFirstThree]
        ++ flat_map (chapter_round a network links)
             (seq 0 (download_count a (length links)))
        ++ [Log (MsgChapterList links)]
    end
  else [Log MsgNoLinks].

(** A listing page with a body and five chapter links, a chapter page,
    and a network on which the second chapter cannot be fetched. *)
Definition scenario_listing : jsstring :=
  str "<html><title>Work - site</title><div class='widget-episodeBody'>"
  ++ str "Summary</div>"
  ++ flat_map
       (fun n => str "<a href=" ++ [DQ] ++ str "/works/7/episodes/"
                 ++ toString n ++ [DQ] ++ str ">chapter</a>")
       [1; 2; 3; 4; 5]
  ++ str "</html>".

Definition scenario_chapter : jsstring :=
  str "<title>Chapter</title><div class='widget-episodeBody'>"
  ++ str "<p>Once upon a time</p></div>".

Definition scenario_network (url : jsstring) : option jsstring :=
  if eqb url (str "https://kakuyomu.jp/works/7") then Some scenario_listing
  else if eqb url (str "https://kakuyomu.jp/works/7/episodes/2") then None
  else Some scenario_chapter.

(** A listing page of the ncode source with one absolute chapter link to
    a foreign host, and a network that serves it. *)
Definition foreign_listing : jsstring :=
  str "<html><a href=" ++ [DQ] ++ str "https://evil.example/n9734kw/1"
  ++ [DQ] ++ str ">1</a></html>".

Definition foreign_network (url : jsstring) : option jsstring :=
  if eqb url (str "https://ncode.syosetu.com/n9734kw/")
  then Some foreign_listing
  else Some (str "<html></html>").

(** The domains of the registered sources. *)
Definition registered_domains : list jsstring :=
  [domain ncode; domain kakuyomu].

(** The page holds an element that opens with [tag], carries the class
    name [cls] inside its opening tag, and is followed somewhere by the
    closing tag [close]. *)
Definition element_with_class (tag cls close html : jsstring) : Prop :=
  exists pre attrs1 attrs2 body post,
    html = pre ++ tag ++ attrs1 ++ cls ++ attrs2 ++ [GT] ++ body ++ close
           ++ post /\
    ~ In GT attrs1 /\ ~ In GT attrs2.

(** The page holds something that a body strategy of the source can
    match. *)
Definition has_body_element (a : site) (html : jsstring) : Prop :=
  match a with
  | ncode => exists pre post, html = pre ++ ncode_marker ++ post
  | kakuyomu =>
      element_with_class (str "<div") (str "widget-episodeBody")
        (str "</div>") html \/
      element_with_class (str "<div") (str "widget-workEpisode")
        (str "</div>") html \/
      element_with_class (str "<p") (str "widget-episodeBody-paragraph")
        (str "</p>") html
  end.

(* ===================================================================== *)
(** ** Notions for the further properties                                 *)
(* ===================================================================== *)

(** The text holds a tag in the sense of [stripHtmlTags]: a [<] with a
    [>] somewhere behind it. *)
Definition has_tag (text : jsstring) : Prop :=
  exists a b c, text = a ++ [LT] ++ b ++ [GT] ++ c.

(** The same, as a test. *)
Fixpoint tag_free (text : jsstring) : bool :=
  match text with
  | [] => true
  | c :: text' =>
      negb (N.eqb c LT && existsb (N.eqb GT) text') && tag_free text'
  end.

(** The rest of a string behind the first occurrence of [c]. *)
Fixpoint after_first (c : N) (s : jsstring) : option jsstring :=
  match s with
  | [] => None
  | x :: s' => if N.eqb x c then Some s' else after_first c s'
  end.

(** A line as the body extractors leave it: not empty, without a line
    feed, and with no white space at either end. *)
Definition clean_line (line : jsstring) : Prop :=
  line <> [] /\
  ~ In LF line /\
  (forall c rest, line = c :: rest -> is_space c = false) /\
  (forall c front, line = front ++ [c] -> is_space c = false).

(** The run of a script that only prints its help text. *)
Definition help_run : proc unit := ([Log MsgHelp; Exit 0], Exited).

(** The run of a script that was started without an argument. *)
Definition usage_run : proc unit := ([Error MsgUsage; Exit 1], Exited).

Definition has_help_flag (args : list jsstring) : bool :=
  array_includes args (str "--help") || array_includes args (str "-h").

(** What a run of the adapter [a] may write under the name [name]: the
    page as it came, the content of the page when it is not empty, and a
    chapter that is not empty under its number. *)
Definition artifact (a : site) (name data : jsstring) : Prop :=
  name = str "index.html" \/
  (name = str "content.txt" /\ data <> []) \/
  (exists k,
     0 < k /\ (a = kakuyomu -> k <= 3) /\
     name = chapter_filename k /\ data <> []).

(** Whether the next fetch or delay of a trace is a delay. *)
Fixpoint delay_first (t : trace) : bool :=
  match t with
  | [] => false
  | Sleep _ :: _ => true
  | Request _ :: _ => false
  | _ :: t' => delay_first t'
  end.

(** The number that a run of decimal digits writes, behind [acc]. *)
Fixpoint number_of (ds : jsstring) (acc : nat) : nat :=
  match ds with
  | [] => acc
  | d :: ds' => number_of ds' (10 * acc + (N.to_nat d - 48))
  end.

(* ===================================================================== *)
(** ** Notions for the normalizer inside a text                           *)
(* ===================================================================== *)

Definition AMP : N := 38.   (* & *)

(** The entities that the chain of [replace] calls handles behind
    [&amp;]: an [&] that comes out of [&amp;] can still begin one of
    them. *)
Definition later_entities : list (jsstring * jsstring) :=
  [ (str "&lt;", str "<");
    (str "&gt;", str ">");
    (str "&quot;", [DQ]);
    (str "&#39;", str "'") ].

(** A text made of code units that are neither [&] nor a character that
    the entity table decodes to, like the name of an entity. *)
Definition plain_name (t : jsstring) : bool :=
  forallb (fun y => negb (existsb (N.eqb y) [32; 38; 60; 62; 34; 39]%N)) t.

(** Marked-up text, piece by piece, as a reader of the page takes it
    apart: plain text, an entity of the table with the character it
    stands for, a line-break tag [<br ...>] and any other tag [<...>]. *)
Inductive piece :=
| Text (t : jsstring)
| Entity (e c : jsstring)
| Break (inner : jsstring)
| Tag (inner : jsstring).

(** The text of the page that the pieces make up. *)
Definition render_piece (p : piece) : jsstring :=
  match p with
  | Text t => t
  | Entity e _ => e
  | Break inner => str "<br" ++ inner ++ [GT]
  | Tag inner => [LT] ++ inner ++ [GT]
  end.

Definition render (ps : list piece) : jsstring :=
  flat_map render_piece ps.

(** The same with a line feed for every line break. *)
Definition with_line_feeds (ps : list piece) : jsstring :=
  flat_map (fun p => match p with
                     | Break _ => [LF]
                     | _ => render_piece p
                     end) ps.

(** The same without the tags. *)
Definition without_tags (ps : list piece) : jsstring :=
  flat_map (fun p => match p with
                     | Break _ => [LF]
                     | Tag _ => []
                     | _ => render_piece p
                     end) ps.

(** What a reader of the page sees: the text, the character of every
    entity, a line feed for every line break, nothing for a tag. *)
Definition reading (ps : list piece) : jsstring :=
  flat_map (fun p => match p with
                     | Text t => t
                     | Entity _ c => c
                     | Break _ => [LF]
                     | Tag _ => []
                     end) ps.

(** Plain text holds neither [<] nor [&]; the inside of a tag holds
    neither [<] nor [>]. *)
Definition plain_text (t : jsstring) : bool :=
  forallb (fun y => negb (N.eqb y LT) && negb (N.eqb y AMP)) t.

Definition tag_inside (inner : jsstring) : bool :=
  forallb (fun y => negb (N.eqb y LT) && negb (N.eqb y GT)) inner.

Definition in_entity_table (e c : jsstring) : bool :=
  existsb (fun ec => eqb (fst ec) e && eqb (snd ec) c) entity_table.

(** No entity that the chain handles behind [&amp;] begins at an [&]
    that stands before [rest]. *)
Definition no_second_entity (rest : jsstring) : bool :=
  forallb (fun ec => negb (startsWith (AMP :: rest) (fst ec)))
    later_entities.

(** The pieces are what their names say, a tag other than a line break
    does not begin with [<br], and what follows an [&amp;] in the text
    without its tags does not make a second entity with the [&]. *)
Fixpoint well_formed (ps : list piece) : bool :=
  match ps with
  | [] => true
  | Text t :: rest => plain_text t && well_formed rest
  | Entity e c :: rest =>
      in_entity_table e c
      && (negb (eqb e (str "&amp;")) || no_second_entity (without_tags rest))
      && well_formed rest
  | Break inner :: rest => tag_inside inner && well_formed rest
  | Tag inner :: rest =>
      tag_inside inner && negb (startsWith inner (str "br"))
      && well_formed rest
  end.

(** A body with a line break, a tag, encoded angle brackets, an encoded
    ampersand and an encoded blank at its end, and a kakuyomu page that
    holds it. *)
Definition scenario_markup : list piece :=
  [Text (str " one"); Break (str "/");
   Entity (str "&lt;") (str "<"); Text (str "two");
   Entity (str "&gt;") (str ">"); Text (str " ");
   Tag (str "b"); Text (str "x"); Tag (str "/b");
   Text (str " "); Entity (str "&amp;") (str "&");
   Text (str " y"); Entity (str "&nbsp;") (str " ")].

Definition scenario_markup_page : jsstring :=
  str "<div class='widget-episodeBody'>" ++ render scenario_markup
  ++ str "</div>".

(* ===================================================================== *)
(** ** Notions for the links of a page                                    *)
(* ===================================================================== *)

(** The page holds [href] as the value of an href attribute in double
    quotes. *)
Definition href_on_page (page href : jsstring) : Prop :=
  exists before after,
    page = before ++ str "href=" ++ [DQ] ++ href ++ [DQ] ++ after.

(** [u] is a chapter link that the source [a] discovers on [page].  For
    kakuyomu: the origin of the site followed by a path of the shape
    /works/<digits>/episodes/<digits> that is an href of the page.  For
    ncode: an href of the page that holds [n9734kw/] followed by digits,
    as it is when it starts with [http], and behind the origin of the
    site otherwise. *)
Definition discovered_link (a : site) (page u : jsstring) : Prop :=
  match a with
  | kakuyomu =>
      exists path,
        episode_path path /\ href_on_page page path /\
        u = str "https://kakuyomu.jp" ++ path
  | ncode =>
      exists pre d post,
        let href := pre ++ str "n9734kw/" ++ d ++ post in
        digits d /\ ~ In DQ pre /\ ~ In DQ post /\
        href_on_page page href /\
        ((startsWith href (str "http") = true /\ u = href) \/
         (startsWith href (str "http") = false /\
          u = str "https://ncode.syosetu.com" ++ href))
  end.

(* ===================================================================== *)
(** ** The adapters on a disk that can fail                               *)
(* ===================================================================== *)

(** The calls of the [fs] module that can throw: [mkdirSync] in
    [ensureOutputDir], [writeFileSync], and [readdirSync] with [statSync]
    in the closing report of [main]. *)
Inductive fs_call :=
| Mkdir (dir : jsstring)
| WriteTo (path data : jsstring)
| ReadDir (dir : jsstring).

(** The functions of the adapters that touch the disk, with a disk that
    decides for every call whether it succeeds.  A call that fails throws
    and leaves no event.  With a disk on which every call succeeds these
    are the functions of the sections above ([reliable_disk]). *)
Module Disk.

Section Adapter.
Variable disk : fs_call -> bool.
Variable URL_parse : jsstring -> option URL.
Variable network : jsstring -> option jsstring.
Variable ALLOWED_DOMAIN : jsstring.
Variable OUTPUT_DIR : jsstring.
Variable extractTitle : jsstring -> jsstring.
Variable extractNovelContent : jsstring -> jsstring * trace.

(** [mkdirSync] is only called when the directory is missing; the disk
    answers for the directory being there or made. *)
Definition ensureOutputDir : proc unit :=
  if disk (Mkdir OUTPUT_DIR) then emit (EnsureDir OUTPUT_DIR) else throw.

Definition writeFileSync (path data : jsstring) : proc unit :=
  if disk (WriteTo path data) then emit (WriteFile path data) else throw.

Definition download_chapter (chapterLinks : list jsstring) (i : nat)
    : proc unit :=
  let chapterUrl := nth i chapterLinks [] in
  let chapterNum := i + 1 in
  emit (Log (MsgDownloading chapterNum chapterUrl)) ;;
  try_catch
    (chapterHtml <- fetchUrl network chapterUrl ;;
     let chapterTitle := extractTitle chapterHtml in
     chapterContent <- lift (extractNovelContent chapterHtml) ;;
     (if truthy chapterContent
      then
        let filename := chapter_filename chapterNum in
        writeFileSync (path_join OUTPUT_DIR filename) chapterContent ;;
        emit (Log (MsgChapterSaved chapterNum chapterTitle))
      else emit (Error (MsgChapterExtractFailed chapterNum))) ;;
     emit (Sleep 1000))
    (emit (Error (MsgChapterError chapterNum))).

Fixpoint chapter_loop (chapterLinks : list jsstring) (n i : nat)
    : proc unit :=
  match n with
  | O => ret tt
  | S n' =>
      download_chapter chapterLinks i ;;
      chapter_loop chapterLinks n' (S i)
  end.

Definition main_listing (args : list jsstring) : proc jsstring :=
  urlString <- parseArguments args ;;
  novelUrl <- validateUrl URL_parse ALLOWED_DOMAIN urlString ;;
  ensureOutputDir ;;
  emit (Log (MsgScraping (href novelUrl))) ;;
  emit (Log MsgFetchingIndex) ;;
  html <- fetchUrl network (href novelUrl) ;;
  writeFileSync (path_join OUTPUT_DIR (str "index.html")) html ;;
  let title := extractTitle html in
  emit (Log (MsgNovelTitle title)) ;;
  emit (Log MsgFetchingMain) ;;
  content <- lift (extractNovelContent html) ;;
  (if truthy content
   then writeFileSync (path_join OUTPUT_DIR (str "content.txt")) content ;;
        emit (Log MsgMainSaved)
   else emit (Error MsgMainExtractFailed)) ;;
  emit (Log MsgSearchingLinks) ;;
  ret html.

Definition main_report : proc unit :=
  emit (Log MsgDone) ;;
  if disk (ReadDir OUTPUT_DIR) then emit (ListFiles OUTPUT_DIR) else throw.

(** [main] of scrape_novel_ncode.js *)
Definition ncode_main (args : list jsstring) : proc unit :=
  try_catch
    (html <- main_listing args ;;
     let chapterLinks := Ncode.extractChapterLinks html in
     (if 0 <? length chapterLinks
      then
        emit (Log MsgStartDownload) ;;
        chapter_loop chapterLinks (length chapterLinks) 0
      else emit (Log MsgNoLinks)) ;;
     main_report)
    main_catch.

(** [main] of the kakuyomu adapter *)
Definition kakuyomu_main (args : list jsstring) : proc unit :=
  try_catch
    (html <- main_listing args ;;
     let chapterLinks := Kakuyomu.extractChapterLinks html in
     (if 0 <? length chapterLinks
      then
        emit (Log (MsgFoundChapters (length chapterLinks))) ;;
        emit (Log MsgFirstThree) ;;
        let downloadCount := Nat.min 3 (length chapterLinks) in
        chapter_loop chapterLinks downloadCount 0 ;;
        emit (Log (MsgChapterList chapterLinks))
      else emit (Log MsgNoLinks)) ;;
     main_report)
    main_catch.

End Adapter.

(** The run of the adapter of a source. *)
Definition main (disk : fs_call -> bool) (a : site)
    (URL_parse : jsstring -> option URL)
    (network : jsstring -> option jsstring) : list jsstring -> proc unit :=
  match a with
  | ncode =>
      ncode_main disk URL_parse network Ncode.ALLOWED_DOMAIN
        Ncode.OUTPUT_DIR Ncode.extractTitle Ncode.extractNovelContent
  | kakuyomu =>
      kakuyomu_main disk URL_parse network Kakuyomu.ALLOWED_DOMAIN
        Kakuyomu.OUTPUT_DIR Kakuyomu.extractTitle
        Kakuyomu.extractNovelContent
  end.

End Disk.

(** The pacing of the chapter loop on a disk: a fetch is followed by a
    delay before the next fetch exactly when it succeeded and the chapter
    was empty or could be written.  [k] is the number of the chapter of
    the next fetch. *)
Fixpoint paced_on_disk (disk : fs_call -> bool) (a : site)
    (network : jsstring -> option jsstring) (k : nat) (t : trace) : bool :=
  match t with
  | [] => true
  | Request u :: t' =>
      Bool.eqb (delay_first t')
        (match network u with
         | None => false
         | Some html =>
             negb (truthy (fst (extractBody a html)))
             || disk (WriteTo (path_join (output_dir a) (chapter_filename k))
                        (fst (extractBody a html)))
         end)
      && paced_on_disk disk a network (S k) t'
  | _ :: t' => paced_on_disk disk a network k t'
  end.

(** The listing part of a run reaches the disk: the directory is there,
    the page is stored, and so is its content when it has one. *)
Definition listing_stored (disk : fs_call -> bool) (a : site)
    (html : jsstring) : bool :=
  disk (Mkdir (output_dir a))
  && disk (WriteTo (path_join (output_dir a) (str "index.html")) html)
  && (negb (truthy (fst (extractBody a html)))
      || disk (WriteTo (path_join (output_dir a) (str "content.txt"))
                 (fst (extractBody a html)))).

(** A disk that takes everything but the file of the first chapter of
    the kakuyomu adapter. *)
Definition scenario_disk (call : fs_call) : bool :=
  match call with
  | WriteTo path _ =>
      negb (eqb path (str "novel_output/kakuyomu/chapter_001.txt"))
  | _ => true
  end.

Unset Implicit Arguments.

(* ===================================================================== *)
(** ** Strings: basic facts                                               *)
(* ===================================================================== *)

Lemma eqb_eq (a b : jsstring) : eqb a b = true <-> a = b.
Proof.
  revert b; induction a as [|x a IH]; intros [|y b]; simpl;
    try (split; [discriminate | congruence]); try tauto.
  rewrite andb_true_iff, N.eqb_eq, IH.
  split; [intros [-> ->]; reflexivity | intros [= -> ->]; auto].
Qed.

Lemma eqb_refl (a : jsstring) : eqb a a = true.
Proof. apply eqb_eq; reflexivity. Qed.

Lemma eqb_neq (a b : jsstring) : eqb a b = false <-> a <> b.
Proof.
  rewrite <- eqb_eq. destruct (eqb a b); split; congruence.
Qed.

Lemma strip_prefix_app (p s : jsstring) : strip_prefix p (p ++ s) = Some s.
Proof.
  induction p as [|x p IH]; simpl; [reflexivity|].
  rewrite N.eqb_refl; exact IH.
Qed.

Lemma strip_prefix_Some (p s r : jsstring) :
  strip_prefix p s = Some r -> s = p ++ r.
Proof.
  revert s; induction p as [|x p IH]; intros [|y s]; simpl;
    try discriminate; try congruence.
  destruct (N.eqb x y) eqn:E; [|discriminate].
  apply N.eqb_eq in E; subst y. intros H; rewrite (IH _ H); reflexivity.
Qed.

Lemma strip_prefix_length (p s r : jsstring) :
  strip_prefix p s = Some r -> length s = length p + length r.
Proof.
  intros H; rewrite (strip_prefix_Some _ _ _ H), length_app; reflexivity.
Qed.

Lemma startsWith_strip (s p : jsstring) :
  startsWith s p = true <-> exists r, strip_prefix p s = Some r.
Proof.
  revert s; induction p as [|x p IH]; intros s; simpl.
  - split; eauto.
  - destruct s as [|y s].
    + split; [discriminate | intros [r H]; discriminate].
    + destruct (N.eqb x y); simpl; [apply IH|].
      split; [discriminate | intros [r H]; discriminate].
Qed.

Lemma startsWith_false_strip (s p : jsstring) :
  startsWith s p = false -> strip_prefix p s = None.
Proof.
  intros H. destruct (strip_prefix p s) eqn:E; [|reflexivity].
  assert (startsWith s p = true) by (apply startsWith_strip; eauto).
  congruence.
Qed.

Lemma startsWith_app (p s : jsstring) : startsWith (p ++ s) p = true.
Proof. apply startsWith_strip; exists s; apply strip_prefix_app. Qed.

Lemma find_from_shift (p s : jsstring) (i j : nat) :
  find_from p s i = None -> find_from p s j = None.
Proof.
  revert i j; induction s as [|x s IH]; intros i j; simpl;
    destruct (startsWith _ p); try discriminate; eauto.
Qed.

Lemma includes_cons_false (p : jsstring) (x : N) (s : jsstring) :
  includes (x :: s) p = false ->
  startsWith (x :: s) p = false /\ includes s p = false.
Proof.
  unfold includes, indexOf; simpl Nat.min; cbv beta zeta.
  change (skipn 0 (x :: s)) with (x :: s).
  change (skipn 0 s) with s.
  cbn [find_from].
  destruct (startsWith (x :: s) p); [discriminate|].
  destruct (find_from p s 1) eqn:E; [discriminate|].
  intros _; split; [reflexivity|].
  rewrite (find_from_shift _ _ _ 0 E); reflexivity.
Qed.

Lemma includes_cons_true (p : jsstring) (x : N) (s : jsstring) :
  includes (x :: s) p = true ->
  startsWith (x :: s) p = true \/ includes s p = true.
Proof.
  intros H.
  destruct (startsWith (x :: s) p) eqn:E1; [left; reflexivity|right].
  destruct (includes s p) eqn:E2; [reflexivity|].
  revert H. unfold includes, indexOf in *; simpl Nat.min in *; cbv beta zeta in *.
  change (skipn 0 (x :: s)) with (x :: s).
  change (skipn 0 s) with s in E2.
  cbn [find_from]. rewrite E1.
  destruct (find_from p s 0) eqn:E; [discriminate|].
  rewrite (find_from_shift _ _ _ 1 E); discriminate.
Qed.

(* ===================================================================== *)
(** ** Replacing a literal                                                *)
(* ===================================================================== *)

Lemma exec_here_lit (p s : jsstring) :
  exec_here [ALit p] s =
  match strip_prefix p s with
  | Some rest => Some ([], rest)
  | None => None
  end.
Proof. unfold exec_here; simpl. destruct (strip_prefix p s); reflexivity. Qed.

(** A literal that does not occur is not replaced. *)
Lemma replace_lit_absent (p r s : jsstring) :
  includes s p = false -> replace_all [ALit p] r s = s.
Proof.
  unfold replace_all.
  induction s as [|x s IH]; intros H; [reflexivity|].
  apply includes_cons_false in H as [H1 H2].
  cbn [replace_go]. rewrite exec_here_lit.
  rewrite (startsWith_false_strip _ _ H1), (IH H2); reflexivity.
Qed.

(** Replacing a literal by a text that is not longer never makes the
    string longer; [min k (length s)] code units are being skipped. *)
Lemma replace_lit_length (p r : jsstring) :
  length r <= length p -> 0 < length p ->
  forall s k,
    length (replace_go [ALit p] r k s) + Nat.min k (length s) <= length s.
Proof.
  intros Hr Hp. induction s as [|x s IH]; intros k; [simpl; lia|].
  cbn [replace_go]. destruct k as [|k].
  - rewrite exec_here_lit.
    destruct (strip_prefix p (x :: s)) as [rest|] eqn:E.
    + apply strip_prefix_length in E.
      specialize (IH (length (x :: s) - length rest - 1)).
      rewrite length_app. cbn [length] in *. lia.
    + specialize (IH 0). cbn [length Nat.min] in *. lia.
  - specialize (IH k). cbn [length] in *. lia.
Qed.

(** Replacing a literal that occurs by a shorter text makes the string
    shorter. *)
Lemma replace_lit_shorter (p r s : jsstring) :
  length r < length p -> includes s p = true ->
  length (replace_all [ALit p] r s) < length s.
Proof.
  intros Hr. unfold replace_all.
  induction s as [|x s IH]; intros H.
  - unfold includes, indexOf in H; simpl in H.
    destruct p; [simpl in Hr; lia | discriminate].
  - cbn [replace_go]. rewrite exec_here_lit.
    destruct (strip_prefix p (x :: s)) as [rest|] eqn:E.
    + pose proof (strip_prefix_length _ _ _ E) as L.
      pose proof (replace_lit_length p r ltac:(lia) ltac:(lia) s
                    (length (x :: s) - length rest - 1)) as B.
      rewrite length_app. cbn [length] in *. lia.
    + apply includes_cons_true in H as [H|H].
      * apply startsWith_strip in H as [r' H]. congruence.
      * specialize (IH H). cbn [length]; lia.
Qed.

Lemma replace_lit_le (p r s : jsstring) :
  length r <= length p -> 0 < length p ->
  length (replace_all [ALit p] r s) <= length s.
Proof.
  intros Hr Hp. pose proof (replace_lit_length p r Hr Hp s 0) as H.
  unfold replace_all. lia.
Qed.

(* ===================================================================== *)
(** ** decodeHtmlEntities                                                 *)
(* ===================================================================== *)

Lemma decode_as_fold (text : jsstring) :
  decodeHtmlEntities text = fold_left decode_step entity_table text.
Proof. reflexivity. Qed.

Lemma entity_table_shrinking : Forall shrinking entity_table.
Proof. repeat constructor; unfold shrinking; simpl; lia. Qed.

Lemma fold_decode_length (tbl : list (jsstring * jsstring)) :
  Forall shrinking tbl ->
  forall text, length (fold_left decode_step tbl text) <= length text.
Proof.
  induction 1 as [|e tbl He _ IH]; intros text; simpl; [lia|].
  etransitivity; [apply IH|].
  unfold shrinking in He.
  apply replace_lit_le; lia.
Qed.

Lemma fold_decode_fixed (tbl : list (jsstring * jsstring)) :
  Forall shrinking tbl ->
  forall text,
    length (fold_left decode_step tbl text) = length text ->
    forallb (fun e => negb (includes text (fst e))) tbl = true.
Proof.
  induction 1 as [|e tbl He Htbl IH]; intros text L; simpl in *;
    [reflexivity|].
  destruct (includes text (fst e)) eqn:E; simpl.
  - exfalso.
    pose proof (replace_lit_shorter (fst e) (snd e) text He E) as S1.
    pose proof (fold_decode_length tbl Htbl (decode_step text e)) as S2.
    unfold decode_step in *. lia.
  - apply IH. revert L. unfold decode_step at 2.
    rewrite (replace_lit_absent _ _ _ E). auto.
Qed.

Lemma fold_decode_absent (tbl : list (jsstring * jsstring)) (text : jsstring) :
  forallb (fun e => negb (includes text (fst e))) tbl = true ->
  fold_left decode_step tbl text = text.
Proof.
  induction tbl as [|e tbl IH]; simpl; [reflexivity|].
  rewrite andb_true_iff, negb_true_iff. intros [E H].
  unfold decode_step at 2. rewrite (replace_lit_absent _ _ _ E). auto.
Qed.

(** Decoding never makes a text longer. *)
Lemma decode_length (text : jsstring) :
  length (decodeHtmlEntities text) <= length text.
Proof.
  rewrite decode_as_fold.
  apply fold_decode_length, entity_table_shrinking.
Qed.

(** The fixed points of decoding are exactly the already decoded texts. *)
Lemma decode_fixed_iff (text : jsstring) :
  decodeHtmlEntities text = text <-> entity_free text = true.
Proof.
  rewrite decode_as_fold. unfold entity_free. split.
  - intros H. apply fold_decode_fixed; [apply entity_table_shrinking|].
    rewrite H; reflexivity.
  - apply fold_decode_absent.
Qed.

(** Every entity of the table is decoded to its character. *)
Lemma decode_table :
  forall e c, In (e, c) entity_table -> decodeHtmlEntities e = c.
Proof.
  intros e c H. cbn [In entity_table] in H.
  repeat (destruct H as [[= <- <-]|H]; [vm_compute; reflexivity|]).
  destruct H.
Qed.

(** An entity outside the table is left as it is. *)
Example decode_unknown_entity :
  decodeHtmlEntities (str "a &copy; b &#x27; c") = str "a &copy; b &#x27; c".
Proof. vm_compute; reflexivity. Qed.

(** C3, as stated, fails: decoding [&amp;amp;] gives [&amp;], and decoding
    that again gives [&]. *)
Lemma decode_not_idempotent :
  decodeHtmlEntities (str "&amp;amp;") = str "&amp;" /\
  decodeHtmlEntities (decodeHtmlEntities (str "&amp;amp;")) = str "&" /\
  decodeHtmlEntities (decodeHtmlEntities (str "&amp;amp;"))
    <> decodeHtmlEntities (str "&amp;amp;").
Proof. vm_compute. repeat split; discriminate. Qed.


(* ===================================================================== *)
(** ** Decoding inside a text                                             *)
(* ===================================================================== *)

Lemma replace_go_skip (r : regex) (rep a s : jsstring) :
  replace_go r rep (length a) (a ++ s) = replace_go r rep 0 s.
Proof. induction a as [|x a IH]; [reflexivity | exact IH]. Qed.

(** A literal at the head of the text is replaced, and the replacing goes
    on behind it. *)
Lemma replace_lit_hit (p r s : jsstring) :
  p <> [] ->
  replace_all [ALit p] r (p ++ s) = r ++ replace_all [ALit p] r s.
Proof.
  destruct p as [|x p]; [congruence|]. intros _.
  unfold replace_all. cbn [app replace_go].
  rewrite exec_here_lit.
  change (x :: p ++ s) with ((x :: p) ++ s). rewrite strip_prefix_app.
  f_equal. cbn [app length]. rewrite length_app.
  replace (S (length p + length s) - length s - 1) with (length p) by lia.
  apply replace_go_skip.
Qed.

(** A code unit at which the literal does not begin is kept. *)
Lemma replace_lit_miss (p r : jsstring) (x : N) (s : jsstring) :
  strip_prefix p (x :: s) = None ->
  replace_all [ALit p] r (x :: s) = x :: replace_all [ALit p] r s.
Proof.
  intros H. unfold replace_all. cbn [replace_go].
  rewrite exec_here_lit, H. reflexivity.
Qed.

(** A stretch without the first code unit of the literal is kept. *)
Lemma replace_lit_text (x : N) (p r w s : jsstring) :
  ~ In x w ->
  replace_all [ALit (x :: p)] r (w ++ s)
  = w ++ replace_all [ALit (x :: p)] r s.
Proof.
  induction w as [|c w IH]; intros H; [reflexivity|].
  cbn [app]. rewrite replace_lit_miss.
  - rewrite IH; [reflexivity|]. intros X. apply H. right. exact X.
  - cbn [strip_prefix]. destruct (N.eqb x c) eqn:E; [|reflexivity].
    apply N.eqb_eq in E. exfalso. apply H. left. symmetry. exact E.
Qed.

(** Replacing [x p] by the one code unit [c] does not change whether the
    text begins with [t], when neither [x] nor [c] occurs in [t]. *)
Lemma replace_lit_prefix (x c : N) (p t : jsstring) :
  ~ In x t -> ~ In c t ->
  forall s,
    startsWith (replace_all [ALit (x :: p)] [c] s) t = startsWith s t.
Proof.
  induction t as [|y t IH]; intros Hx Hc s; [reflexivity|].
  assert (Yx : N.eqb y x = false)
    by (apply N.eqb_neq; intros ->; apply Hx; left; reflexivity).
  assert (Yc : N.eqb y c = false)
    by (apply N.eqb_neq; intros ->; apply Hc; left; reflexivity).
  destruct s as [|z s]; [reflexivity|].
  destruct (strip_prefix (x :: p) (z :: s)) as [rest|] eqn:E.
  - pose proof (strip_prefix_Some _ _ _ E) as S.
    cbn [app] in S. injection S as -> S.
    change (x :: s) with ([x] ++ s). rewrite S.
    change ([x] ++ p ++ rest) with ((x :: p) ++ rest).
    rewrite replace_lit_hit by discriminate.
    cbn [app startsWith]. rewrite Yx, Yc. reflexivity.
  - rewrite (replace_lit_miss _ _ _ _ E). cbn [startsWith].
    rewrite IH; [reflexivity | |].
    + intros X. apply Hx. right. exact X.
    + intros X. apply Hc. right. exact X.
Qed.

(** What the entities of the table have in common: each begins with [&],
    holds no further [&], and is replaced by one code unit. *)
Lemma entity_shape (e r : jsstring) :
  In (e, r) entity_table ->
  exists p c, e = AMP :: p /\ ~ In AMP p /\ r = [c] /\
              In c [32; 38; 60; 62; 34; 39]%N.
Proof.
  intros H. cbn [In entity_table] in H.
  repeat (destruct H as [[= <- <-]|H];
          [eexists; eexists; split; [reflexivity|];
           split; [intros X; cbv in X;
                   repeat (destruct X as [X|X]; [discriminate X|]);
                   exact X|];
           split; [reflexivity|]; cbv; tauto|]).
  destruct H.
Qed.

(** A stretch without [&] passes every step of the chain. *)
Lemma pass_text (e r w s : jsstring) :
  In (e, r) entity_table -> ~ In AMP w ->
  replace_all [ALit e] r (w ++ s) = w ++ replace_all [ALit e] r s.
Proof.
  intros H W. destruct (entity_shape e r H) as (p & c & -> & _ & -> & _).
  apply replace_lit_text, W.
Qed.

(** So does an [&] with such a stretch behind it, when the entity of the
    step does not begin there. *)
Lemma pass_word (e r t s : jsstring) :
  In (e, r) entity_table -> ~ In AMP t ->
  strip_prefix e (AMP :: t ++ s) = None ->
  replace_all [ALit e] r (AMP :: t ++ s)
  = AMP :: t ++ replace_all [ALit e] r s.
Proof.
  intros H T M. rewrite (replace_lit_miss _ _ _ _ M).
  rewrite (pass_text e r t s H T). reflexivity.
Qed.

Lemma plain_name_notin (t : jsstring) (c : N) :
  plain_name t = true -> In c [32; 38; 60; 62; 34; 39]%N -> ~ In c t.
Proof.
  unfold plain_name. rewrite forallb_forall. intros P C X.
  specialize (P c X). apply negb_true_iff in P.
  assert (E : existsb (N.eqb c) [32; 38; 60; 62; 34; 39]%N = true)
    by (apply existsb_exists; exists c; split; [exact C | apply N.eqb_refl]).
  congruence.
Qed.

(** A step of the chain does not change whether the text begins with the
    name of an entity. *)
Lemma pass_prefix (e r t : jsstring) :
  In (e, r) entity_table -> plain_name t = true ->
  forall s, startsWith (replace_all [ALit e] r s) t = startsWith s t.
Proof.
  intros H P s.
  destruct (entity_shape e r H) as (p & c & -> & _ & -> & C).
  apply replace_lit_prefix.
  - apply plain_name_notin; [exact P | cbv; tauto].
  - apply plain_name_notin; [exact P | exact C].
Qed.

Ltac in_table :=
  cbn [In entity_table]; repeat (first [left; reflexivity | right]).

Ltac no_amp :=
  let X := fresh in
  intros X; cbv in X; repeat (destruct X as [X|X]; [discriminate X|]);
  exact X.

(** Behind the steps that have run, the text begins with the name of an
    entity exactly when it did before. *)
Ltac see_through :=
  repeat (rewrite pass_prefix;
          [| in_table | first [reflexivity | assumption]]).

(** A code unit other than [&] is kept, wherever it stands. *)
Lemma decode_other (c : N) (b : jsstring) :
  c <> AMP ->
  decodeHtmlEntities (c :: b) = c :: decodeHtmlEntities b.
Proof.
  intros H. unfold decodeHtmlEntities. cbv zeta.
  change (c :: b) with ([c] ++ b).
  assert (W : ~ In AMP [c]) by (intros [X|[]]; congruence).
  rewrite (pass_text (str "&nbsp;") (str " ") [c] _ ltac:(in_table) W).
  rewrite (pass_text (str "&amp;") (str "&") [c] _ ltac:(in_table) W).
  rewrite (pass_text (str "&lt;") (str "<") [c] _ ltac:(in_table) W).
  rewrite (pass_text (str "&gt;") (str ">") [c] _ ltac:(in_table) W).
  rewrite (pass_text (str "&quot;") [DQ] [c] _ ltac:(in_table) W).
  rewrite (pass_text (str "&#39;") (str "'") [c] _ ltac:(in_table) W).
  reflexivity.
Qed.

Lemma entity_not_here (e r b : jsstring) :
  (forall e c, In (e, c) entity_table -> startsWith (AMP :: b) e = false) ->
  In (e, r) entity_table ->
  exists p, e = AMP :: p /\ startsWith b p = false.
Proof.
  intros U H. specialize (U e r H).
  destruct (entity_shape e r H) as (p & c & -> & _).
  exists p. split; [reflexivity|].
  cbn [startsWith] in U. rewrite N.eqb_refl in U. exact U.
Qed.

(** An [&] at which no entity of the table begins is kept, wherever it
    stands: an unknown entity passes. *)
Lemma decode_unknown (b : jsstring) :
  (forall e c, In (e, c) entity_table -> startsWith (AMP :: b) e = false) ->
  decodeHtmlEntities (AMP :: b) = AMP :: decodeHtmlEntities b.
Proof.
  intros U. unfold decodeHtmlEntities. cbv zeta.
  assert (M : forall e r s,
             In (e, r) entity_table ->
             (forall t, plain_name t = true ->
                        startsWith s t = startsWith b t) ->
             replace_all [ALit e] r (AMP :: s)
             = AMP :: replace_all [ALit e] r s).
  { intros e r s H S.
    destruct (entity_not_here e r b U H) as (p & -> & F).
    apply replace_lit_miss. cbn [strip_prefix]. rewrite N.eqb_refl.
    apply startsWith_false_strip. rewrite S; [exact F|].
    cbn [In entity_table] in H.
    repeat (destruct H as [[= <- _]|H]; [reflexivity|]). destruct H. }
  rewrite (M (str "&nbsp;") (str " ") b ltac:(in_table))
    by reflexivity.
  rewrite (M (str "&amp;") (str "&") _ ltac:(in_table))
    by (intros t T; see_through; reflexivity).
  rewrite (M (str "&lt;") (str "<") _ ltac:(in_table))
    by (intros t T; see_through; reflexivity).
  rewrite (M (str "&gt;") (str ">") _ ltac:(in_table))
    by (intros t T; see_through; reflexivity).
  rewrite (M (str "&quot;") [DQ] _ ltac:(in_table))
    by (intros t T; see_through; reflexivity).
  rewrite (M (str "&#39;") (str "'") _ ltac:(in_table))
    by (intros t T; see_through; reflexivity).
  reflexivity.
Qed.

(** The entity of a step at the head of the text is replaced. *)
Lemma pass_hit (e r t s : jsstring) :
  e = AMP :: t ->
  replace_all [ALit e] r (AMP :: t ++ s) = r ++ replace_all [ALit e] r s.
Proof.
  intros ->. change (AMP :: t ++ s) with ((AMP :: t) ++ s).
  apply replace_lit_hit. discriminate.
Qed.

(** An [&] behind which the name of the entity of a step does not follow
    passes the step. *)
Lemma pass_amp (e r p s : jsstring) :
  e = AMP :: p -> startsWith s p = false ->
  replace_all [ALit e] r (AMP :: s) = AMP :: replace_all [ALit e] r s.
Proof.
  intros -> F. apply replace_lit_miss. cbn [strip_prefix].
  rewrite N.eqb_refl. apply startsWith_false_strip, F.
Qed.

(** One step of the chain on a text that begins with [&] and the name [t],
    or, behind the step that has replaced the entity, with [w]. *)
Ltac pass e r t w :=
  first
    [ rewrite (pass_hit e r t _ eq_refl)
    | rewrite (pass_word e r t _ ltac:(in_table) ltac:(no_amp) eq_refl)
    | rewrite (pass_text e r w _ ltac:(in_table) ltac:(no_amp)) ].

Ltac chain t w :=
  unfold decodeHtmlEntities; cbv zeta;
  pass (str "&nbsp;") (str " ") t w;
  pass (str "&amp;") (str "&") t w;
  pass (str "&lt;") (str "<") t w;
  pass (str "&gt;") (str ">") t w;
  pass (str "&quot;") [DQ] t w;
  pass (str "&#39;") (str "'") t w;
  reflexivity.

(** An entity of the table other than [&amp;] is decoded to its character,
    wherever it stands. *)
Lemma decode_entity (e c b : jsstring) :
  In (e, c) entity_table -> e <> str "&amp;" ->
  decodeHtmlEntities (e ++ b) = c ++ decodeHtmlEntities b.
Proof.
  intros H NA. cbn [In entity_table] in H.
  destruct H as [[= <- <-]|H].
  { change (str "&nbsp;" ++ b) with (AMP :: str "nbsp;" ++ b).
    chain (str "nbsp;") (str " "). }
  destruct H as [[= <- <-]|H]; [congruence|].
  destruct H as [[= <- <-]|H].
  { change (str "&lt;" ++ b) with (AMP :: str "lt;" ++ b).
    chain (str "lt;") (str "<"). }
  destruct H as [[= <- <-]|H].
  { change (str "&gt;" ++ b) with (AMP :: str "gt;" ++ b).
    chain (str "gt;") (str ">"). }
  destruct H as [[= <- <-]|H].
  { change (str "&quot;" ++ b) with (AMP :: str "quot;" ++ b).
    chain (str "quot;") [DQ]. }
  destruct H as [[= <- <-]|H]; [|destruct H].
  change (str "&#39;" ++ b) with (AMP :: str "#39;" ++ b).
  chain (str "#39;") (str "'").
Qed.

(** [&amp;] is decoded to [&] when none of the entities that the chain
    handles later begins at that [&]. *)
Lemma decode_amp (b : jsstring) :
  (forall e c, In (e, c) later_entities -> startsWith (AMP :: b) e = false) ->
  decodeHtmlEntities (str "&amp;" ++ b) = AMP :: decodeHtmlEntities b.
Proof.
  intros U.
  assert (F : forall e c p, In (e, c) later_entities -> e = AMP :: p ->
                            startsWith b p = false).
  { intros e c p H ->. specialize (U _ _ H). cbn [startsWith] in U.
    rewrite N.eqb_refl in U. exact U. }
  unfold decodeHtmlEntities. cbv zeta.
  change (str "&amp;" ++ b) with (AMP :: str "amp;" ++ b).
  rewrite (pass_word (str "&nbsp;") (str " ") (str "amp;") _
             ltac:(in_table) ltac:(no_amp) eq_refl).
  rewrite (pass_hit (str "&amp;") (str "&") (str "amp;") _ eq_refl).
  change (str "&" ++ ?x) with (AMP :: x).
  rewrite (pass_amp (str "&lt;") (str "<") (str "lt;") _ eq_refl)
    by (see_through; apply (F (str "&lt;") (str "<")); [|reflexivity];
        cbn [In later_entities]; tauto).
  rewrite (pass_amp (str "&gt;") (str ">") (str "gt;") _ eq_refl)
    by (see_through; apply (F (str "&gt;") (str ">")); [|reflexivity];
        cbn [In later_entities]; tauto).
  rewrite (pass_amp (str "&quot;") [DQ] (str "quot;") _ eq_refl)
    by (see_through; apply (F (str "&quot;") [DQ]); [|reflexivity];
        cbn [In later_entities]; tauto).
  rewrite (pass_amp (str "&#39;") (str "'") (str "#39;") _ eq_refl)
    by (see_through; apply (F (str "&#39;") (str "'")); [|reflexivity];
        cbn [In later_entities]; tauto).
  reflexivity.
Qed.

(** The first two steps of the chain on [&amp;] with a name behind it. *)
Lemma early_steps (t b : jsstring) :
  ~ In AMP t ->
  replace_all [ALit (str "&amp;")] (str "&")
    (replace_all [ALit (str "&nbsp;")] (str " ")
       (str "&amp;" ++ t ++ b))
  = AMP :: t
    ++ replace_all [ALit (str "&amp;")] (str "&")
         (replace_all [ALit (str "&nbsp;")] (str " ") b).
Proof.
  intros T.
  change (str "&amp;" ++ t ++ b) with (AMP :: str "amp;" ++ t ++ b).
  rewrite (pass_word (str "&nbsp;") (str " ") (str "amp;") _
             ltac:(in_table) ltac:(no_amp) eq_refl).
  rewrite (pass_text (str "&nbsp;") (str " ") t b ltac:(in_table) T).
  rewrite (pass_hit (str "&amp;") (str "&") (str "amp;") _ eq_refl).
  rewrite (pass_text (str "&amp;") (str "&") t _ ltac:(in_table) T).
  reflexivity.
Qed.

Ltac late_chain t w :=
  unfold decodeHtmlEntities; cbv zeta;
  rewrite (early_steps t _ ltac:(no_amp));
  pass (str "&lt;") (str "<") t w;
  pass (str "&gt;") (str ">") t w;
  pass (str "&quot;") [DQ] t w;
  pass (str "&#39;") (str "'") t w;
  reflexivity.

(** The chain decodes twice: the [&] that comes out of [&amp;] is read
    again by the later steps, so [&amp;lt;] becomes [<] in one call. *)
Lemma decode_twice (e c b : jsstring) :
  In (e, c) later_entities ->
  decodeHtmlEntities (str "&amp;" ++ tl e ++ b) = c ++ decodeHtmlEntities b.
Proof.
  intros H. cbn [In later_entities] in H.
  destruct H as [[= <- <-]|H].
  { change (tl (str "&lt;")) with (str "lt;").
    late_chain (str "lt;") (str "<"). }
  destruct H as [[= <- <-]|H].
  { change (tl (str "&gt;")) with (str "gt;").
    late_chain (str "gt;") (str ">"). }
  destruct H as [[= <- <-]|H].
  { change (tl (str "&quot;")) with (str "quot;").
    late_chain (str "quot;") [DQ]. }
  destruct H as [[= <- <-]|H]; [|destruct H].
  change (tl (str "&#39;")) with (str "#39;").
  late_chain (str "#39;") (str "'").
Qed.

(** C3, amended: [decodeHtmlEntities] is a total function that is
    idempotent exactly on the inputs whose decoded text holds no entity
    of the table, and whose value on every text is fixed by what it does
    at the head of the text.  A code unit other than [&] is kept.  An [&]
    at which no entity of the table begins is kept, so that an unknown
    entity passes unchanged.  Each of [&nbsp;], [&lt;], [&gt;], [&quot;]
    and [&#39;] is replaced by its character wherever it stands.  [&amp;]
    is replaced by [&], and that [&] is read again by the later steps of
    the chain: [&amp;lt;], [&amp;gt;], [&amp;quot;] and [&amp;#39;] are
    decoded to the character of the second entity in one call.  In each
    case the decoding goes on behind what was read. *)
Theorem decode_idempotent_iff (x : jsstring) :
  (decodeHtmlEntities (decodeHtmlEntities x) = decodeHtmlEntities x
   <-> entity_free (decodeHtmlEntities x) = true)
  /\ (forall e c, In (e, c) entity_table -> decodeHtmlEntities e = c)
  /\ (forall text, entity_free text = true -> decodeHtmlEntities text = text)
  /\ decodeHtmlEntities [] = []
  /\ (forall c b, c <> AMP ->
        decodeHtmlEntities (c :: b) = c :: decodeHtmlEntities b)
  /\ (forall b,
        (forall e c, In (e, c) entity_table ->
                     startsWith (AMP :: b) e = false) ->
        decodeHtmlEntities (AMP :: b) = AMP :: decodeHtmlEntities b)
  /\ (forall e c b, In (e, c) entity_table -> e <> str "&amp;" ->
        decodeHtmlEntities (e ++ b) = c ++ decodeHtmlEntities b)
  /\ (forall b,
        (forall e c, In (e, c) later_entities ->
                     startsWith (AMP :: b) e = false) ->
        decodeHtmlEntities (str "&amp;" ++ b) = AMP :: decodeHtmlEntities b)
  /\ (forall e c b, In (e, c) later_entities ->
        decodeHtmlEntities (str "&amp;" ++ tl e ++ b)
        = c ++ decodeHtmlEntities b).
Proof.
  split; [apply decode_fixed_iff|].
  split; [exact decode_table|].
  split; [intros text; apply decode_fixed_iff|].
  split; [reflexivity|].
  split; [exact decode_other|].
  split; [exact decode_unknown|].
  split; [exact decode_entity|].
  split; [exact decode_amp | exact decode_twice].
Qed.

(* ===================================================================== *)
(** ** The order of strings and sorting                                   *)
(* ===================================================================== *)

Lemma leb_lex (a b : jsstring) : leb a b = true <-> lex_le a b.
Proof.
  revert b; induction a as [|x a IH]; intros b; simpl.
  - split; [constructor | reflexivity].
  - destruct b as [|y b]; [split; [discriminate | inversion 1]|].
    destruct (N.ltb x y) eqn:E1.
    + apply N.ltb_lt in E1. split; [constructor; assumption | reflexivity].
    + apply N.ltb_ge in E1.
      destruct (N.ltb y x) eqn:E2.
      * apply N.ltb_lt in E2. split; [discriminate|].
        inversion 1; subst; lia.
      * apply N.ltb_ge in E2. assert (x = y) by lia; subst y.
        rewrite IH. split; [constructor; assumption|].
        inversion 1; subst; [lia | assumption].
Qed.

Lemma leb_total (a b : jsstring) : leb a b = false -> leb b a = true.
Proof.
  revert b; induction a as [|x a IH]; intros [|y b]; simpl;
    try discriminate; try reflexivity.
  destruct (N.ltb x y) eqn:E1; [discriminate|].
  destruct (N.ltb y x) eqn:E2; [reflexivity|]. apply IH.
Qed.

Lemma leb_antisym (a b : jsstring) :
  leb a b = true -> leb b a = true -> a = b.
Proof.
  revert b; induction a as [|x a IH]; intros [|y b]; simpl;
    try discriminate; try reflexivity.
  destruct (N.ltb x y) eqn:E1, (N.ltb y x) eqn:E2; try discriminate.
  - apply N.ltb_lt in E1, E2. lia.
  - apply N.ltb_ge in E1, E2. assert (x = y) by lia; subst y.
    intros H1 H2; f_equal; auto.
Qed.

Lemma leb_trans (a b c : jsstring) :
  leb a b = true -> leb b c = true -> leb a c = true.
Proof.
  revert b c; induction a as [|x a IH]; intros [|y b] [|z c]; simpl;
    try discriminate; try reflexivity.
  destruct (N.ltb x y) eqn:E1, (N.ltb y x) eqn:E2;
  destruct (N.ltb y z) eqn:E3, (N.ltb z y) eqn:E4;
  destruct (N.ltb x z) eqn:E5, (N.ltb z x) eqn:E6;
    try discriminate; try reflexivity;
    rewrite ?N.ltb_lt, ?N.ltb_ge in *; try lia.
  apply IH.
Qed.

Lemma lex_le_trans (a b c : jsstring) : lex_le a b -> lex_le b c -> lex_le a c.
Proof. rewrite <- !leb_lex. apply leb_trans. Qed.

Lemma insert_sorted_perm (x : jsstring) (l : list jsstring) :
  Permutation (x :: l) (insert_sorted x l).
Proof.
  induction l as [|y l IH]; simpl; [reflexivity|].
  destruct (leb x y); [reflexivity|].
  rewrite perm_swap. constructor. exact IH.
Qed.

Lemma sort_perm (l : list jsstring) : Permutation l (sort l).
Proof.
  induction l as [|x l IH]; simpl; [constructor|].
  rewrite <- insert_sorted_perm. constructor. exact IH.
Qed.

Lemma insert_sorted_sorted (x : jsstring) (l : list jsstring) :
  StronglySorted lex_le l -> StronglySorted lex_le (insert_sorted x l).
Proof.
  induction 1 as [|y l Hl IH Hy]; simpl; [repeat constructor|].
  destruct (leb x y) eqn:E.
  - apply leb_lex in E. constructor; [constructor; assumption|].
    constructor; [assumption|].
    eapply Forall_impl; [|exact Hy].
    intros z Hz. eapply lex_le_trans; eassumption.
  - apply leb_total, leb_lex in E. constructor; [assumption|].
    eapply Permutation_Forall; [apply insert_sorted_perm|].
    constructor; assumption.
Qed.

Lemma sort_sorted (l : list jsstring) : StronglySorted lex_le (sort l).
Proof.
  induction l as [|x l IH]; simpl; [constructor|].
  apply insert_sorted_sorted, IH.
Qed.

(** Two sorted arrangements of the same strings are equal: the result of
    [sort] does not depend on the sorting algorithm. *)
Lemma sort_unique (l1 l2 : list jsstring) :
  StronglySorted lex_le l1 -> StronglySorted lex_le l2 ->
  Permutation l1 l2 -> l1 = l2.
Proof.
  intros H1; revert l2; induction H1 as [|x l1 Hl1 IH Hx]; intros l2 H2 P.
  - apply Permutation_nil in P; subst; reflexivity.
  - destruct H2 as [|y l2 Hl2 Hy].
    + apply Permutation_sym, Permutation_nil in P; discriminate.
    + assert (x = y).
      { assert (Ix : In x (y :: l2))
          by (eapply Permutation_in; [exact P | left; reflexivity]).
        assert (Iy : In y (x :: l1))
          by (eapply Permutation_in;
              [apply Permutation_sym; exact P | left; reflexivity]).
        destruct Ix as [->|Ix]; [reflexivity|].
        destruct Iy as [->|Iy]; [reflexivity|].
        rewrite Forall_forall in Hx, Hy.
        apply leb_antisym; apply leb_lex; auto. }
      subst y. f_equal. apply IH; [assumption|].
      eapply Permutation_cons_inv; exact P.
Qed.

Lemma array_includes_In (a : list jsstring) (x : jsstring) :
  array_includes a x = true <-> In x a.
Proof.
  unfold array_includes. rewrite existsb_exists. split.
  - intros [y [Hy E]]. apply eqb_eq in E; subst; assumption.
  - intros H; exists x; split; [assumption | apply eqb_refl].
Qed.

(** Pushing a string only when the array does not include it keeps the
    array free of duplicates. *)
Lemma push_new_NoDup (links : list jsstring) (link : jsstring) :
  NoDup links ->
  NoDup (if array_includes links link then links else links ++ [link]).
Proof.
  intros H. destruct (array_includes links link) eqn:E; [assumption|].
  apply NoDup_app; [assumption | repeat constructor; inversion 1 |].
  intros x Hx [<-|[]].
  apply array_includes_In in Hx. congruence.
Qed.

Lemma push_new_In (links : list jsstring) (link x : jsstring) :
  In x (if array_includes links link then links else links ++ [link]) <->
  In x links \/ x = link.
Proof.
  destruct (array_includes links link) eqn:E.
  - apply array_includes_In in E. split; [auto | intros [H| ->]; auto].
  - rewrite in_app_iff; simpl. intuition congruence.
Qed.

(* ===================================================================== *)
(** ** The matcher                                                        *)
(* ===================================================================== *)

Lemma star_greedy_sound (A : Type) (cl : cclass) (k : jsstring -> option A)
    (s : jsstring) (r : A) :
  star_greedy cl k s = Some r ->
  exists pre rest,
    s = pre ++ rest /\ forallb (cmatch cl) pre = true /\ k rest = Some r.
Proof.
  induction s as [|x s IH]; simpl; intros H.
  - exists [], []; auto.
  - destruct (cmatch cl x) eqn:E.
    + destruct (star_greedy cl k s) as [r'|] eqn:G.
      * injection H as ->. destruct (IH eq_refl) as (pre & rest & -> & F & K).
        exists (x :: pre), rest; simpl; rewrite E, F; auto.
      * exists [], (x :: s); auto.
    + exists [], (x :: s); auto.
Qed.

Lemma star_lazy_sound (A : Type) (cl : cclass) (k : jsstring -> option A)
    (s : jsstring) (r : A) :
  star_lazy cl k s = Some r ->
  exists pre rest,
    s = pre ++ rest /\ forallb (cmatch cl) pre = true /\ k rest = Some r.
Proof.
  induction s as [|x s IH]; simpl; intros H.
  - destruct (k []) eqn:K; [|discriminate].
    exists [], []; rewrite K; auto.
  - destruct (k (x :: s)) eqn:K.
    + exists [], (x :: s); rewrite K; auto.
    + destruct (cmatch cl x) eqn:E; [|discriminate].
      destruct (IH H) as (pre & rest & -> & F & K').
      exists (x :: pre), rest; simpl; rewrite E, F; auto.
Qed.

(** A greedy star finds a match whenever some repetition lets the rest of
    the pattern match. *)
Lemma star_greedy_complete (A : Type) (cl : cclass)
    (k : jsstring -> option A) (pre rest : jsstring) :
  forallb (cmatch cl) pre = true -> k rest <> None ->
  star_greedy cl k (pre ++ rest) <> None.
Proof.
  induction pre as [|x pre IH]; simpl; intros F K.
  - destruct rest as [|y rest]; simpl; [assumption|].
    destruct (cmatch cl y); [|assumption].
    destruct (star_greedy cl k rest); [discriminate | assumption].
  - apply andb_true_iff in F as [E F]. rewrite E.
    specialize (IH F K).
    destruct (star_greedy cl k (pre ++ rest)); [discriminate | congruence].
Qed.

Lemma plus_greedy_sound (A : Type) (cl : cclass) (k : jsstring -> option A)
    (s : jsstring) (r : A) :
  match s with
  | x :: s' => if cmatch cl x then star_greedy cl k s' else None
  | [] => None
  end = Some r ->
  exists pre rest,
    s = pre ++ rest /\ pre <> [] /\ forallb (cmatch cl) pre = true /\
    k rest = Some r.
Proof.
  destruct s as [|x s]; [discriminate|].
  destruct (cmatch cl x) eqn:E; [|discriminate].
  intros H. apply star_greedy_sound in H as (pre & rest & -> & F & K).
  exists (x :: pre), rest; simpl; rewrite E, F.
  repeat split; auto; discriminate.
Qed.

(** The text of the group is what lies between the two parentheses. *)
Lemma capture_firstn (mid s : jsstring) :
  firstn (length (mid ++ s) - length s) (mid ++ s) = mid.
Proof.
  rewrite length_app.
  replace (length mid + length s - length s) with (length mid + 0) by lia.
  rewrite firstn_app_2, firstn_O. apply app_nil_r.
Qed.

(** A step of a match through a literal of the pattern: the input in [H]
    starts with the literal. *)
Ltac literal_in H :=
  match type of H with
  | context [strip_prefix ?l ?s] =>
      let r := fresh "s" in
      let E := fresh "E" in
      destruct (strip_prefix l s) as [r|] eqn:E; [|discriminate H];
      apply strip_prefix_Some in E; subst s
  end.

(** Every match that the [exec] loop visits is a match of the pattern at
    some position of the subject. *)
Lemma exec_all_go_In (r : regex) (s : jsstring) (k : nat)
    (w cap : jsstring) :
  In (w, cap) (exec_all_go r k s) ->
  exists pre s' rest,
    s = pre ++ s' /\ exec_here r s' = Some (cap, rest) /\
    w = firstn (length s' - length rest) s'.
Proof.
  revert k; induction s as [|x s IH]; intros k; simpl; [tauto|].
  assert (Later : forall k', In (w, cap) (exec_all_go r k' s) ->
            exists pre s' rest, x :: s = pre ++ s' /\
              exec_here r s' = Some (cap, rest) /\
              w = firstn (length s' - length rest) s').
  { intros k' H. destruct (IH _ H) as (pre & s' & rest & -> & E & W).
    exists (x :: pre), s', rest; auto. }
  destruct k as [|k]; [|apply Later].
  destruct (exec_here r (x :: s)) as [[cap' rest]|] eqn:E; [|apply Later].
  intros [[= <- <-]|H]; [|eapply Later; exact H].
  exists [], (x :: s), rest; auto.
Qed.

(** The leftmost match is a match at some position. *)
Lemma match_first_Some (r : regex) (s cap : jsstring) :
  match_first r s = Some cap ->
  exists pre s' rest, s = pre ++ s' /\ exec_here r s' = Some (cap, rest).
Proof.
  induction s as [|x s IH]; simpl.
  - destruct (exec_here r []) as [[c rest]|] eqn:E; [|discriminate].
    intros [= <-]. exists [], [], rest; auto.
  - destruct (exec_here r (x :: s)) as [[c rest]|] eqn:E.
    + intros [= <-]. exists [], (x :: s), rest; auto.
    + intros H. destruct (IH H) as (pre & s' & rest & -> & E').
      exists (x :: pre), s', rest; auto.
Qed.

(** A match at some position makes [match] succeed. *)
Lemma match_first_complete (r : regex) (pre s' : jsstring) :
  exec_here r s' <> None -> match_first r (pre ++ s') <> None.
Proof.
  intros H. induction pre as [|x pre IH]; simpl.
  - destruct s' as [|y s']; simpl;
      destruct (exec_here r _) as [[c rest]|]; congruence.
  - destruct (exec_here r (x :: pre ++ s')) as [[c rest]|];
      [discriminate | assumption].
Qed.

Lemma not_class (c : N) (l : jsstring) :
  forallb (cmatch (CNot c)) l = true <-> ~ In c l.
Proof.
  induction l as [|x l IH]; simpl; [tauto|].
  rewrite andb_true_iff, negb_true_iff, N.eqb_neq, IH.
  intuition congruence.
Qed.


(* ===================================================================== *)
(** ** Chapter links                                                      *)
(* ===================================================================== *)

Lemma digit_class (d : jsstring) :
  forallb (cmatch CDigit) d = true -> Forall (fun c => (48 <= c <= 57)%N) d.
Proof.
  rewrite forallb_forall, Forall_forall. intros H c Hc.
  specialize (H c Hc). simpl in H.
  apply andb_true_iff in H as [H1 H2].
  apply N.leb_le in H1, H2. lia.
Qed.

(** What a pattern of the shape l0 ( l1 \d+ l2 \d+ ) l3 matches. *)
Lemma two_numbers_match (l0 l1 l2 l3 s cap rest : jsstring) :
  exec_here [ALit l0; AOpen; ALit l1; APlus CDigit; ALit l2; APlus CDigit;
             AClose; ALit l3] s = Some (cap, rest) ->
  exists d1 d2,
    digits d1 /\ digits d2 /\ cap = l1 ++ d1 ++ l2 ++ d2 /\
    s = l0 ++ cap ++ l3 ++ rest.
Proof.
  unfold exec_here. cbn [exec_at]. intros H.
  literal_in H. literal_in H.
  apply plus_greedy_sound in H as (d1 & s3 & -> & N1 & D1 & H).
  literal_in H.
  apply plus_greedy_sound in H as (d2 & s5 & -> & N2 & D2 & H).
  literal_in H.
  injection H as <- <-.
  match goal with
  | |- context [firstn _ (l1 ++ d1 ++ l2 ++ d2 ++ l3 ++ ?r)] =>
      replace (l1 ++ (d1 ++ l2 ++ d2 ++ l3 ++ r))
        with ((l1 ++ d1 ++ l2 ++ d2) ++ l3 ++ r)
        by (rewrite <- !app_assoc; reflexivity)
  end.
  rewrite capture_firstn.
  exists d1, d2. repeat split; auto using digit_class.
Qed.

(** What the link pattern of the kakuyomu adapter matches. *)
Lemma kakuyomu_link_match (s cap rest : jsstring) :
  exec_here Kakuyomu.linkPattern s = Some (cap, rest) ->
  episode_path cap /\ s = str "href=" ++ [DQ] ++ cap ++ [DQ] ++ rest.
Proof.
  intros H. apply two_numbers_match in H as (d1 & d2 & D1 & D2 & -> & ->).
  split; [exists d1, d2; auto|].
  rewrite <- !app_assoc. reflexivity.
Qed.

Lemma kakuyomu_collect_In (ms : list (jsstring * jsstring))
    (links : list jsstring) (l : jsstring) :
  In l (Kakuyomu.collect_links ms links) <->
  In l links \/ exists m, In m ms /\ l = Kakuyomu.ORIGIN ++ snd m.
Proof.
  revert links; induction ms as [|[w m1] ms IH]; intros links; simpl.
  - split; [auto | intros [H|[m [[] _]]]; assumption].
  - rewrite IH, push_new_In. split.
    + intros [[H| ->]|[m [Hm ->]]]; eauto.
    + intros [H|[m [[<-|Hm] ->]]]; eauto.
Qed.

Lemma kakuyomu_collect_NoDup (ms : list (jsstring * jsstring))
    (links : list jsstring) :
  NoDup links -> NoDup (Kakuyomu.collect_links ms links).
Proof.
  revert links; induction ms as [|[w m1] ms IH]; intros links H; simpl;
    [assumption|].
  apply IH, push_new_NoDup, H.
Qed.

Lemma ncode_collect_In (ms : list (jsstring * jsstring))
    (links : list jsstring) (l : jsstring) :
  In l (Ncode.collect_links ms links) <->
  In l links \/ exists m, In m ms /\ l = Ncode.resolve_link (snd m).
Proof.
  revert links; induction ms as [|[w m1] ms IH]; intros links; simpl.
  - split; [auto | intros [H|[m [[] _]]]; assumption].
  - rewrite IH, push_new_In. split.
    + intros [[H| ->]|[m [Hm ->]]]; eauto.
    + intros [H|[m [[<-|Hm] ->]]]; eauto.
Qed.

Lemma ncode_collect_NoDup (ms : list (jsstring * jsstring))
    (links : list jsstring) :
  NoDup links -> NoDup (Ncode.collect_links ms links).
Proof.
  revert links; induction ms as [|[w m1] ms IH]; intros links H; simpl;
    [assumption|].
  apply IH, push_new_NoDup, H.
Qed.

(** The links of the kakuyomu adapter are the resolved matches. *)
Lemma kakuyomu_links_In (html l : jsstring) :
  In l (Kakuyomu.extractChapterLinks html) <->
  exists m, In m (exec_all Kakuyomu.linkPattern html) /\
            l = Kakuyomu.ORIGIN ++ snd m.
Proof.
  unfold Kakuyomu.extractChapterLinks. split.
  - intros H. eapply Permutation_in in H;
      [|apply Permutation_sym, sort_perm].
    apply kakuyomu_collect_In in H as [[]|H]; exact H.
  - intros H. eapply Permutation_in; [apply sort_perm|].
    apply kakuyomu_collect_In; auto.
Qed.

(** The links of the ncode adapter are the resolved matches. *)
Lemma ncode_links_In (html l : jsstring) :
  In l (Ncode.extractChapterLinks html) <->
  exists m, In m (exec_all Ncode.linkPattern html) /\
            l = Ncode.resolve_link (snd m).
Proof.
  unfold Ncode.extractChapterLinks. split.
  - intros H. eapply Permutation_in in H;
      [|apply Permutation_sym, sort_perm].
    apply ncode_collect_In in H as [[]|H]; exact H.
  - intros H. eapply Permutation_in; [apply sort_perm|].
    apply ncode_collect_In; auto.
Qed.

(** C4: for every page, the chapter links of either adapter contain no
    string twice and are in the lexicographic order of their code units,
    not in the order of the chapter numbers: a path that occurs three
    times gives one link, and the link of episode 10 comes before the
    link of episode 9. *)
Theorem chapter_links_dedup_sorted :
  (forall html,
     NoDup (Kakuyomu.extractChapterLinks html) /\
     StronglySorted lex_le (Kakuyomu.extractChapterLinks html)) /\
  (forall html,
     NoDup (Ncode.extractChapterLinks html) /\
     StronglySorted lex_le (Ncode.extractChapterLinks html)) /\
  (let a := str "<a href=" ++ [DQ] ++ str "/works/7/episodes/42" ++ [DQ]
            ++ str ">" in
   Kakuyomu.extractChapterLinks (a ++ a ++ a)
   = [str "https://kakuyomu.jp/works/7/episodes/42"]) /\
  (let a := str "<a href=" ++ [DQ] ++ str "/n9734kw/42/" ++ [DQ]
            ++ str ">" in
   Ncode.extractChapterLinks (a ++ a ++ a)
   = [str "https://ncode.syosetu.com/n9734kw/42/"]) /\
  (Kakuyomu.extractChapterLinks
     (str "<a href=" ++ [DQ] ++ str "/works/7/episodes/9" ++ [DQ]
      ++ str "><a href=" ++ [DQ] ++ str "/works/7/episodes/10" ++ [DQ]
      ++ str ">")
   = [str "https://kakuyomu.jp/works/7/episodes/10";
      str "https://kakuyomu.jp/works/7/episodes/9"]).
Proof.
  split; [|split; [|split; [|split]]].
  - intros html. unfold Kakuyomu.extractChapterLinks. split.
    + eapply Permutation_NoDup; [apply sort_perm|].
      apply kakuyomu_collect_NoDup; constructor.
    + apply sort_sorted.
  - intros html. unfold Ncode.extractChapterLinks. split.
    + eapply Permutation_NoDup; [apply sort_perm|].
      apply ncode_collect_NoDup; constructor.
    + apply sort_sorted.
  - vm_compute; reflexivity.
  - vm_compute; reflexivity.
  - vm_compute; reflexivity.
Qed.

(** C10: every chapter link that the kakuyomu adapter returns is the
    origin https://kakuyomu.jp followed by a path of the shape
    /works/<digits>/episodes/<digits> that occurs as an href of the page;
    whatever other hrefs the page holds, no link is on another host. *)
Theorem kakuyomu_links_absolute (html l : jsstring) :
  In l (Kakuyomu.extractChapterLinks html) ->
  exists path,
    episode_path path /\
    l = str "https://kakuyomu.jp" ++ path /\
    exists before after,
      html = before ++ str "href=" ++ [DQ] ++ path ++ [DQ] ++ after.
Proof.
  intros H. apply kakuyomu_links_In in H as ([w cap] & Hm & ->).
  apply exec_all_go_In in Hm as (pre & s' & rest & -> & E & _).
  apply kakuyomu_link_match in E as [P ->].
  exists cap. split; [assumption|]. split; [reflexivity|].
  exists pre, rest. reflexivity.
Qed.

Lemma kakuyomu_links_absolute_witness :
  exists path,
    episode_path path /\
    str "https://kakuyomu.jp/works/7/episodes/42"
      = str "https://kakuyomu.jp" ++ path /\
    exists before after,
      str "<a href=" ++ [DQ] ++ str "/works/7/episodes/42" ++ [DQ]
        ++ str "><a href=" ++ [DQ] ++ str "https://evil.example/x" ++ [DQ]
        ++ str ">"
      = before ++ str "href=" ++ [DQ] ++ path ++ [DQ] ++ after.
Proof.
  apply (kakuyomu_links_absolute
           (str "<a href=" ++ [DQ] ++ str "/works/7/episodes/42" ++ [DQ]
            ++ str "><a href=" ++ [DQ] ++ str "https://evil.example/x"
            ++ [DQ] ++ str ">")
           (str "https://kakuyomu.jp/works/7/episodes/42")).
  vm_compute. left; reflexivity.
Defined.

(* ===================================================================== *)
(** ** The balanced scan of the ncode adapter                             *)
(* ===================================================================== *)

Lemma find_from_bounds (p s : jsstring) (i0 i : nat) :
  p <> [] -> find_from p s i0 = Some i -> i0 <= i < i0 + length s.
Proof.
  intros Hp. revert i0; induction s as [|x s IH]; intros i0.
  - cbn [find_from]. destruct p; [congruence|]. simpl. discriminate.
  - cbn [find_from]. destruct (startsWith (x :: s) p).
    + intros [= <-]. cbn [length]. lia.
    + intros H. apply IH in H. cbn [length]. lia.
Qed.

Lemma indexOf_bounds (s p : jsstring) (from i : nat) :
  p <> [] -> indexOf s p from = Some i -> from <= i < length s.
Proof.
  unfold indexOf. intros Hp H.
  apply find_from_bounds in H; [|assumption].
  rewrite length_skipn in H. lia.
Qed.

(** The loop ends: every round lowers [divCount + 2 * (length - index)]. *)
Lemma scan_loop_ends (content : jsstring) (fuel divCount : nat)
    (endIndex : option nat) (ci : nat) :
  divCount + 2 * (length content - ci) < fuel ->
  Ncode.scan_loop fuel content divCount endIndex (Some ci) <> None.
Proof.
  revert divCount endIndex ci.
  induction fuel as [|fuel IH]; intros dc e ci Hm; [lia|].
  cbn [Ncode.scan_loop].
  destruct (0 <? dc) eqn:Hdc; [|discriminate].
  apply Nat.ltb_lt in Hdc.
  destruct (indexOf content (str "</div>") ci) as [ne|] eqn:E1;
    [|discriminate].
  apply indexOf_bounds in E1; [|discriminate].
  destruct (indexOf content (str "<div") (ci + 1)) as [nd|] eqn:E2.
  - apply indexOf_bounds in E2; [|discriminate].
    destruct (nd <? ne); apply IH; lia.
  - apply IH; lia.
Qed.

(** [find_endIndex] never falls back on its default for lack of fuel. *)
Lemma scan_loop_total (content : jsstring) :
  Ncode.scan_loop (Ncode.scan_fuel content) content 1 None
    (indexOf content (str "<div") 1) <> None.
Proof.
  destruct (indexOf content (str "<div") 1) as [ci|] eqn:E.
  - apply scan_loop_ends. unfold Ncode.scan_fuel. lia.
  - unfold Ncode.scan_fuel. rewrite Nat.add_comm. simpl. discriminate.
Qed.

(** More fuel does not change the result of the loop. *)
Lemma scan_loop_fuel (content : jsstring) (fuel fuel' divCount : nat)
    (endIndex currentIndex r : option nat) :
  Ncode.scan_loop fuel content divCount endIndex currentIndex = Some r ->
  fuel <= fuel' ->
  Ncode.scan_loop fuel' content divCount endIndex currentIndex = Some r.
Proof.
  revert fuel' divCount endIndex currentIndex.
  induction fuel as [|fuel IH]; intros fuel' dc e ci H L; [discriminate|].
  destruct fuel' as [|fuel']; [lia|].
  cbn [Ncode.scan_loop] in *.
  destruct ci as [ci|]; [|assumption].
  destruct (0 <? dc); [|assumption].
  destruct (indexOf content (str "</div>") ci) as [ne|]; [|assumption].
  destruct (match indexOf content (str "<div") (ci + 1) with
            | Some nd => nd <? ne
            | None => false
            end); apply IH; (assumption || lia).
Qed.

(** C1 on the example of the specification: for the marker element
    holding a nested [<div>inner</div>] followed by [more], the balanced
    scan of the specification cuts at the closing tag of the marker and
    gives [innermore]; the loop of [extractNovelContent] does not count
    the first nested [<div] and cuts at the first closing tag, so that the
    function returns [inner]. *)
Theorem ncode_nested_div_truncated :
  let html := ncode_marker ++ str "<div>inner</div>more</div>" in
  Ncode.extractNovelContent html = (str "inner", []) /\
  Ncode.find_endIndex html = Some (length ncode_marker + 10) /\
  balanced_boundary html = Some (length ncode_marker + 20) /\
  normalize_body (substring_to html (length ncode_marker + 20))
    = str "innermore".
Proof. cbv zeta. repeat split; vm_compute; reflexivity. Qed.

(** Without any further [<div] behind the marker the loop does not run at
    all, and nothing is cut off: the text behind the closing tag of the
    marker is part of the result. *)
Example ncode_flat_body_not_cut :
  Ncode.extractNovelContent (ncode_marker ++ str "hello</div><p>tail</p>")
  = (str "hellotail", []).
Proof. vm_compute; reflexivity. Qed.

(* ===================================================================== *)
(** ** Occurrences                                                        *)
(* ===================================================================== *)

Lemma find_from_Some (p s : jsstring) (i k : nat) :
  find_from p s i = Some k ->
  exists pre post, s = pre ++ p ++ post /\ k = i + length pre.
Proof.
  revert i; induction s as [|x s IH]; intros i; cbn [find_from].
  - destruct (startsWith [] p) eqn:E; [|discriminate].
    apply startsWith_strip in E as [r E]. apply strip_prefix_Some in E.
    intros [= <-]. exists [], r. simpl. split; [assumption | lia].
  - destruct (startsWith (x :: s) p) eqn:E.
    + apply startsWith_strip in E as [r E]. apply strip_prefix_Some in E.
      intros [= <-]. exists [], r. simpl. split; [assumption | lia].
    + intros H. apply IH in H as (pre & post & -> & ->).
      exists (x :: pre), post. simpl. split; [reflexivity | lia].
Qed.

Lemma find_from_complete (p pre post : jsstring) (i : nat) :
  find_from p (pre ++ p ++ post) i <> None.
Proof.
  revert i; induction pre as [|x pre IH]; intros i.
  - simpl app. destruct (p ++ post) eqn:E; cbn [find_from]; rewrite <- ?E;
      rewrite startsWith_app; discriminate.
  - simpl app. cbn [find_from].
    destruct (startsWith (x :: pre ++ p ++ post) p); [discriminate|].
    apply IH.
Qed.

(** [indexOf] finds a text exactly when it occurs. *)
Lemma indexOf_None_iff (s p : jsstring) :
  indexOf s p 0 = None <-> ~ exists pre post, s = pre ++ p ++ post.
Proof.
  unfold indexOf. simpl Nat.min. cbv zeta. change (skipn 0 s) with s.
  split.
  - intros H (pre & post & ->). exact (find_from_complete p pre post 0 H).
  - intros H. destruct (find_from p s 0) as [k|] eqn:E; [|reflexivity].
    exfalso. apply H. apply find_from_Some in E as (pre & post & -> & _).
    eauto.
Qed.

(** A lazy star finds a match whenever some repetition lets the rest of
    the pattern match. *)
Lemma star_lazy_complete (A : Type) (cl : cclass)
    (k : jsstring -> option A) (pre rest : jsstring) :
  forallb (cmatch cl) pre = true -> k rest <> None ->
  star_lazy cl k (pre ++ rest) <> None.
Proof.
  induction pre as [|x pre IH]; simpl; intros F K.
  - destruct rest as [|y rest]; simpl; destruct (k _); congruence.
  - apply andb_true_iff in F as [E F]. rewrite E.
    destruct (k (x :: pre ++ rest)); [discriminate | auto].
Qed.

(** What a pattern of the shape a c* m c* g ( [\s\S]*? ) b matches. *)
Lemma lazy_element_sound (a m g b : jsstring) (c : N)
    (s cap rest : jsstring) :
  exec_here [ALit a; AStar (CNot c); ALit m; AStar (CNot c); ALit g; AOpen;
             AStarLazy CAny; AClose; ALit b] s = Some (cap, rest) ->
  exists attrs1 attrs2,
    s = a ++ attrs1 ++ m ++ attrs2 ++ g ++ cap ++ b ++ rest /\
    ~ In c attrs1 /\ ~ In c attrs2.
Proof.
  unfold exec_here. cbn [exec_at]. intros H.
  literal_in H.
  apply star_greedy_sound in H as (a1 & s2 & -> & F1 & H).
  literal_in H.
  apply star_greedy_sound in H as (a2 & s4 & -> & F2 & H).
  literal_in H.
  apply star_lazy_sound in H as (t & s6 & -> & F3 & H).
  literal_in H.
  injection H as <- <-. rewrite capture_firstn.
  exists a1, a2. rewrite <- !not_class. auto.
Qed.

Lemma lazy_element_complete (a m g b : jsstring) (c : N)
    (attrs1 attrs2 body post : jsstring) :
  ~ In c attrs1 -> ~ In c attrs2 ->
  exec_here [ALit a; AStar (CNot c); ALit m; AStar (CNot c); ALit g; AOpen;
             AStarLazy CAny; AClose; ALit b]
    (a ++ attrs1 ++ m ++ attrs2 ++ g ++ body ++ b ++ post) <> None.
Proof.
  intros F1 F2. unfold exec_here. cbn [exec_at]. rewrite strip_prefix_app.
  apply star_greedy_complete; [apply not_class, F1|].
  rewrite strip_prefix_app.
  apply star_greedy_complete; [apply not_class, F2|].
  rewrite strip_prefix_app.
  apply star_lazy_complete.
  - apply forallb_forall. reflexivity.
  - rewrite strip_prefix_app. discriminate.
Qed.

(** A pattern of that shape matches somewhere exactly when an element of
    the class occurs. *)
Lemma lazy_element_occurs (tag cls close html : jsstring) :
  (exists pre s,
     html = pre ++ s /\
     exec_here [ALit tag; AStar (CNot GT); ALit cls; AStar (CNot GT);
                ALit [GT]; AOpen; AStarLazy CAny; AClose; ALit close] s
     <> None)
  <-> element_with_class tag cls close html.
Proof.
  split.
  - intros (pre & s & -> & H).
    destruct (exec_here _ s) as [[cap rest]|] eqn:E; [|congruence].
    apply lazy_element_sound in E as (a1 & a2 & -> & F1 & F2).
    exists pre, a1, a2, cap, rest. auto.
  - intros (pre & a1 & a2 & body & post & -> & F1 & F2).
    eexists pre, _. split; [reflexivity|].
    apply lazy_element_complete; assumption.
Qed.

Lemma match_first_None_iff (r : regex) (html : jsstring) :
  match_first r html = None <->
  ~ exists pre s, html = pre ++ s /\ exec_here r s <> None.
Proof.
  split.
  - intros H (pre & s & -> & E).
    exact (match_first_complete r pre s E H).
  - intros H. destruct (match_first r html) as [cap|] eqn:E; [|reflexivity].
    exfalso. apply H.
    apply match_first_Some in E as (pre & s & rest & -> & E).
    exists pre, s. split; [reflexivity | congruence].
Qed.

(** The [exec] loop visits at least one match when the pattern matches
    somewhere and cannot match the empty rest of the subject. *)
Lemma exec_all_complete (r : regex) (pre s : jsstring) :
  exec_here r [] = None -> exec_here r s <> None ->
  exec_all r (pre ++ s) <> [].
Proof.
  intros E0 E. unfold exec_all.
  induction pre as [|x pre IH]; simpl app.
  - destruct s as [|y s]; [congruence|]. cbn [exec_all_go].
    destruct (exec_here r (y :: s)) as [[cap rest]|];
      [discriminate | congruence].
  - cbn [exec_all_go].
    destruct (exec_here r (x :: pre ++ s)) as [[cap rest]|];
      [discriminate | exact IH].
Qed.

Lemma exec_all_nil_iff (r : regex) (html : jsstring) :
  exec_here r [] = None ->
  exec_all r html = [] <->
  ~ exists pre s, html = pre ++ s /\ exec_here r s <> None.
Proof.
  intros E0. split.
  - intros H (pre & s & -> & E).
    exact (exec_all_complete r pre s E0 E H).
  - intros H. destruct (exec_all r html) as [|[w cap] l] eqn:E;
      [reflexivity|].
    exfalso. apply H.
    assert (I : In (w, cap) (exec_all r html))
      by (rewrite E; left; reflexivity).
    apply exec_all_go_In in I as (pre & s & rest & -> & X & _).
    exists pre, s. split; [reflexivity | congruence].
Qed.

(* ===================================================================== *)
(** ** Body extraction                                                    *)
(* ===================================================================== *)

Lemma search_lit (p s : jsstring) (i : nat) :
  search_from [ALit p] s i = find_from p s i.
Proof.
  revert i; induction s as [|x s IH]; intros i; cbn [search_from find_from];
    rewrite exec_here_lit.
  - destruct (startsWith [] p) eqn:E.
    + apply startsWith_strip in E as [r ->]. reflexivity.
    + rewrite (startsWith_false_strip _ _ E). reflexivity.
  - destruct (startsWith (x :: s) p) eqn:E.
    + apply startsWith_strip in E as [r ->]. reflexivity.
    + rewrite (startsWith_false_strip _ _ E). apply IH.
Qed.

Lemma search_startPattern (html : jsstring) :
  search Ncode.startPattern html = indexOf html ncode_marker 0.
Proof. unfold search, Ncode.startPattern. apply search_lit. Qed.

(** [extractNovelContent] is the selection of the body followed by the
    normalisation, with a diagnostic when nothing is selected. *)
Lemma extractBody_selection (a : site) (html : jsstring) :
  extractBody a html =
  match body_selection a html with
  | Some c => (normalize_body c, [])
  | None => ([], [Error MsgBodyNotFound])
  end.
Proof.
  destruct a; unfold extractBody, body_selection.
  - unfold Ncode.extractNovelContent. rewrite search_startPattern.
    destruct (indexOf html ncode_marker 0); reflexivity.
  - unfold Kakuyomu.extractNovelContent.
    destruct (match_first Kakuyomu.episodeBody_pattern html); [reflexivity|].
    destruct (match_first Kakuyomu.workEpisode_pattern html); [reflexivity|].
    destruct (Kakuyomu.match_global Kakuyomu.paragraph_pattern html);
      reflexivity.
Qed.

(** No strategy of a source selects anything exactly when the page holds
    nothing that a strategy can match. *)
Lemma body_selection_None_iff (a : site) (html : jsstring) :
  body_selection a html = None <-> ~ has_body_element a html.
Proof.
  destruct a; unfold body_selection, has_body_element.
  - rewrite <- indexOf_None_iff.
    destruct (indexOf html ncode_marker 0); split; congruence.
  - assert (M1 : match_first Kakuyomu.episodeBody_pattern html = None <->
                 ~ element_with_class (str "<div") (str "widget-episodeBody")
                     (str "</div>") html).
    { rewrite match_first_None_iff. apply not_iff_compat.
      exact (lazy_element_occurs (str "<div") (str "widget-episodeBody")
               (str "</div>") html). }
    assert (M2 : match_first Kakuyomu.workEpisode_pattern html = None <->
                 ~ element_with_class (str "<div") (str "widget-workEpisode")
                     (str "</div>") html).
    { rewrite match_first_None_iff. apply not_iff_compat.
      exact (lazy_element_occurs (str "<div") (str "widget-workEpisode")
               (str "</div>") html). }
    assert (M3 : exec_all Kakuyomu.paragraph_pattern html = [] <->
                 ~ element_with_class (str "<p")
                     (str "widget-episodeBody-paragraph") (str "</p>") html).
    { rewrite (exec_all_nil_iff Kakuyomu.paragraph_pattern html eq_refl).
      apply not_iff_compat.
      exact (lazy_element_occurs (str "<p")
               (str "widget-episodeBody-paragraph") (str "</p>") html). }
    unfold Kakuyomu.match_global.
    destruct (match_first Kakuyomu.episodeBody_pattern html);
      [split; [discriminate | intros H; apply M1; tauto]|].
    destruct (match_first Kakuyomu.workEpisode_pattern html);
      [split; [discriminate | intros H; apply M2; tauto]|].
    destruct (exec_all Kakuyomu.paragraph_pattern html) as [|m ms]; simpl.
    + split; [intros _ | reflexivity].
      assert (N1 := proj1 M1 eq_refl). assert (N2 := proj1 M2 eq_refl).
      assert (N3 := proj1 M3 eq_refl). tauto.
    + split; [discriminate|]. intros H.
      assert (X : m :: ms = []) by (apply M3; tauto). discriminate.
Qed.

(** C7: when the page holds nothing that a strategy of the source can
    match, so that no strategy of the chain selects anything, the body
    extractor of that source does not throw: it writes one diagnostic to
    the error stream and returns the empty string, which the chapter loop
    tests, reports, and passes over without leaving the loop. *)
Theorem body_not_found (a : site) (html : jsstring) :
  ~ has_body_element a html ->
  body_selection a html = None /\
  extractBody a html = ([], [Error MsgBodyNotFound]) /\
  forall (network : jsstring -> option jsstring) (OUTPUT_DIR : jsstring)
         (title : jsstring -> jsstring) (links : list jsstring) (i : nat),
    network (nth i links []) = Some html ->
    download_chapter network OUTPUT_DIR title (extractBody a) links i
    = ([Log (MsgDownloading (i + 1) (nth i links []));
        Request (nth i links []);
        Error MsgBodyNotFound;
        Error (MsgChapterExtractFailed (i + 1));
        Sleep 1000],
       Return tt).
Proof.
  intros H. apply body_selection_None_iff in H.
  assert (E : extractBody a html = ([], [Error MsgBodyNotFound]))
    by (rewrite extractBody_selection, H; reflexivity).
  split; [exact H|]. split; [exact E|].
  intros network OUTPUT_DIR title links i Hnet.
  unfold download_chapter, fetchUrl. cbv zeta.
  rewrite Hnet. unfold lift. cbn [bind emit ret]. rewrite E. reflexivity.
Qed.

Lemma body_not_found_witness :
  extractBody kakuyomu (str "<html><body><p>no body here</p></body></html>")
  = ([], [Error MsgBodyNotFound]).
Proof.
  apply (body_not_found kakuyomu
           (str "<html><body><p>no body here</p></body></html>")).
  apply body_selection_None_iff. vm_compute; reflexivity.
Defined.

(** The order matters: an encoded angle bracket survives because the tags
    are stripped before the entities are decoded. *)
Example strip_before_decode :
  normalize_body (str "a &lt;b&gt; c") = str "a <b> c" /\
  cleanLines (stripHtmlTags (decodeHtmlEntities (str "a &lt;b&gt; c")))
  = str "a  c".
Proof. split; vm_compute; reflexivity. Qed.

(* ===================================================================== *)
(** ** Title extraction                                                   *)
(* ===================================================================== *)

(** What a pattern of the shape a ( cl* ) b matches. *)
Lemma group_match_sound (a b : jsstring) (cl : cclass)
    (s cap rest : jsstring) :
  exec_here [ALit a; AOpen; AStar cl; AClose; ALit b] s = Some (cap, rest) ->
  s = a ++ cap ++ b ++ rest /\ forallb (cmatch cl) cap = true.
Proof.
  unfold exec_here. cbn [exec_at]. intros H.
  literal_in H.
  apply star_greedy_sound in H as (t & s2 & -> & F & H).
  literal_in H.
  injection H as <- <-. rewrite capture_firstn. auto.
Qed.

Lemma group_match_complete (a b : jsstring) (cl : cclass)
    (t post : jsstring) :
  forallb (cmatch cl) t = true ->
  exec_here [ALit a; AOpen; AStar cl; AClose; ALit b] (a ++ t ++ b ++ post)
  <> None.
Proof.
  intros F. unfold exec_here. cbn [exec_at]. rewrite strip_prefix_app.
  apply star_greedy_complete; [assumption|].
  rewrite strip_prefix_app. discriminate.
Qed.

(** What a pattern of the shape a c1* m c1* g ( c2* ) b matches. *)
Lemma element_match_sound (a m g b : jsstring) (c1 c2 : cclass)
    (s cap rest : jsstring) :
  exec_here [ALit a; AStar c1; ALit m; AStar c1; ALit g; AOpen; AStar c2;
             AClose; ALit b] s = Some (cap, rest) ->
  exists attrs1 attrs2,
    s = a ++ attrs1 ++ m ++ attrs2 ++ g ++ cap ++ b ++ rest /\
    forallb (cmatch c1) attrs1 = true /\
    forallb (cmatch c1) attrs2 = true /\
    forallb (cmatch c2) cap = true.
Proof.
  unfold exec_here. cbn [exec_at]. intros H.
  literal_in H.
  apply star_greedy_sound in H as (a1 & s2 & -> & F1 & H).
  literal_in H.
  apply star_greedy_sound in H as (a2 & s4 & -> & F2 & H).
  literal_in H.
  apply star_greedy_sound in H as (t & s6 & -> & F3 & H).
  literal_in H.
  injection H as <- <-. rewrite capture_firstn.
  exists a1, a2. auto.
Qed.

Lemma element_match_complete (a m g b : jsstring) (c1 c2 : cclass)
    (attrs1 attrs2 t post : jsstring) :
  forallb (cmatch c1) attrs1 = true ->
  forallb (cmatch c1) attrs2 = true ->
  forallb (cmatch c2) t = true ->
  exec_here [ALit a; AStar c1; ALit m; AStar c1; ALit g; AOpen; AStar c2;
             AClose; ALit b]
    (a ++ attrs1 ++ m ++ attrs2 ++ g ++ t ++ b ++ post) <> None.
Proof.
  intros F1 F2 F3. unfold exec_here. cbn [exec_at]. rewrite strip_prefix_app.
  apply star_greedy_complete; [assumption|]. rewrite strip_prefix_app.
  apply star_greedy_complete; [assumption|]. rewrite strip_prefix_app.
  apply star_greedy_complete; [assumption|]. rewrite strip_prefix_app.
  discriminate.
Qed.

(** The first title strategy matches exactly the pages with a title
    element, and its group is the text of such an element. *)
Lemma title_match_sound (html t : jsstring) :
  match_first title_pattern html = Some t -> title_element html t.
Proof.
  intros H. apply match_first_Some in H as (pre & s & rest & -> & E).
  apply group_match_sound in E as [-> F].
  exists pre, rest. split; [reflexivity | apply not_class, F].
Qed.

Lemma title_match_complete (html t : jsstring) :
  title_element html t -> match_first title_pattern html <> None.
Proof.
  intros (pre & post & -> & F).
  apply match_first_complete, group_match_complete, not_class, F.
Qed.

Lemma heading_match_sound (html t : jsstring) :
  match_first Kakuyomu.workTitle_pattern html = Some t ->
  heading_element html t.
Proof.
  intros H. apply match_first_Some in H as (pre & s & rest & -> & E).
  apply element_match_sound in E as (a1 & a2 & -> & F1 & F2 & F3).
  exists pre, a1, a2, rest. rewrite <- !not_class. auto.
Qed.

Lemma heading_match_complete (html t : jsstring) :
  heading_element html t ->
  match_first Kakuyomu.workTitle_pattern html <> None.
Proof.
  intros (pre & a1 & a2 & post & -> & F1 & F2 & F3).
  apply match_first_complete.
  apply (element_match_complete (str "<h1") (str "widget-workTitle") [GT]
           (str "</h1>")); apply not_class; assumption.
Qed.

(** C8, as stated, fails: both adapters return the empty string for a
    page whose title element is empty, and the ncode adapter has no
    heading strategy. *)
Lemma empty_title_returned :
  Kakuyomu.extractTitle (str "<html><title></title></html>") = [] /\
  Ncode.extractTitle (str "<html><title></title></html>") = [] /\
  Ncode.extractTitle (str "<h1 class='widget-workTitle'>Work</h1>")
  = unknown_title.
Proof. repeat split; vm_compute; reflexivity. Qed.

(** C8, amended: for every page, the kakuyomu adapter returns the text of
    a title element with the first occurrence of its site name removed and
    the result trimmed; when the page has no title element, the trimmed
    text of a work title heading; when it has neither, the sentinel.  The
    ncode adapter returns the text of a title element with the first
    occurrence of its site name removed, and the sentinel when the page
    has no title element.  No strategy throws, and the sentinel is not
    empty; the text taken from a matching element can be empty. *)
Theorem extractTitle_strategies (html : jsstring) :
  ((exists t, title_element html t /\
      Kakuyomu.extractTitle html
      = trim (replace_first Kakuyomu.site_suffix [] t))
   \/ (~ (exists t, title_element html t) /\
       exists t, heading_element html t /\
         Kakuyomu.extractTitle html = trim t)
   \/ (~ (exists t, title_element html t) /\
       ~ (exists t, heading_element html t) /\
       Kakuyomu.extractTitle html = unknown_title))
  /\
  ((exists t, title_element html t /\
      Ncode.extractTitle html = replace_first Ncode.site_suffix [] t)
   \/ (~ (exists t, title_element html t) /\
       Ncode.extractTitle html = unknown_title))
  /\ unknown_title <> [].
Proof.
  unfold Kakuyomu.extractTitle, Ncode.extractTitle.
  destruct (match_first title_pattern html) as [t|] eqn:E1.
  - apply title_match_sound in E1.
    split; [left; eauto|]. split; [left; eauto | discriminate].
  - assert (NT : ~ (exists t, title_element html t)).
    { intros [t Ht]. apply title_match_complete in Ht. congruence. }
    split; [|split; [right; auto | discriminate]].
    right. destruct (match_first Kakuyomu.workTitle_pattern html)
      as [t|] eqn:E2.
    + apply heading_match_sound in E2. left; eauto.
    + right. split; [assumption|]. split; [|reflexivity].
      intros [t Ht]. apply heading_match_complete in Ht. congruence.
Qed.

(* ===================================================================== *)
(** ** Processes                                                          *)
(* ===================================================================== *)

Lemma bind_Return (A B : Type) (a : A) (f : A -> proc B) :
  bind (ret a) f = f a.
Proof. simpl. destruct (f a); reflexivity. Qed.

Lemma requests_app (t1 t2 : trace) :
  requests (t1 ++ t2) = requests t1 ++ requests t2.
Proof.
  induction t1 as [|e t1 IH]; simpl; [reflexivity|].
  destruct e; simpl; rewrite IH; reflexivity.
Qed.

Lemma written_app (t1 t2 : trace) :
  written (t1 ++ t2) = written t1 ++ written t2.
Proof.
  induction t1 as [|e t1 IH]; simpl; [reflexivity|].
  destruct e; simpl; rewrite IH; reflexivity.
Qed.

(* ===================================================================== *)
(** ** URL validation                                                     *)
(* ===================================================================== *)

(** The four ways through [validateUrl]. *)
Lemma validateUrl_cases (URL_parse : jsstring -> option URL)
    (dom urlString : jsstring) :
  validateUrl URL_parse dom urlString =
  match URL_parse urlString with
  | None =>
      ([Error (MsgInvalidUrl urlString); Error MsgErrorDetail; Exit 1],
       Exited)
  | Some url =>
      if negb (eqb (protocol url) (str "https:")) then
        ([Error (MsgNotHttps urlString); Exit 1], Exited)
      else if negb (eqb (hostname url) dom) then
        ([Error (MsgDomainNotAllowed (hostname url));
          Error (MsgAllowedDomains [dom]); Exit 1], Exited)
      else ([], Return url)
  end.
Proof.
  unfold validateUrl, new_URL.
  destruct (URL_parse urlString) as [url|]; [|reflexivity].
  rewrite bind_Return.
  destruct (negb (eqb (protocol url) (str "https:"))); [reflexivity|].
  rewrite bind_Return.
  destruct (negb (eqb (hostname url) dom)); reflexivity.
Qed.

Lemma validateUrl_valid (URL_parse : jsstring -> option URL)
    (dom urlString : jsstring) (url : URL) :
  URL_parse urlString = Some url -> protocol url = str "https:" ->
  hostname url = dom ->
  validateUrl URL_parse dom urlString = ([], Return url).
Proof.
  intros P S H. rewrite validateUrl_cases, P, S, H, !eqb_refl. reflexivity.
Qed.

Lemma validateUrl_Return (URL_parse : jsstring -> option URL)
    (dom urlString : jsstring) (url : URL) :
  snd (validateUrl URL_parse dom urlString) = Return url ->
  URL_parse urlString = Some url /\ protocol url = str "https:" /\
  hostname url = dom /\
  validateUrl URL_parse dom urlString = ([], Return url).
Proof.
  rewrite validateUrl_cases.
  destruct (URL_parse urlString) as [u|]; [|discriminate].
  destruct (eqb (protocol u) (str "https:")) eqn:E1; [|discriminate].
  destruct (eqb (hostname u) dom) eqn:E2; [|discriminate].
  simpl. intros [= ->]. apply eqb_eq in E1, E2. auto.
Qed.

Lemma validateUrl_invalid (URL_parse : jsstring -> option URL)
    (dom urlString : jsstring) :
  ~ valid_url URL_parse dom urlString ->
  snd (validateUrl URL_parse dom urlString) = Exited /\
  rejected (fst (validateUrl URL_parse dom urlString)).
Proof.
  intros NV. rewrite validateUrl_cases.
  destruct (URL_parse urlString) as [u|] eqn:P.
  - destruct (eqb (protocol u) (str "https:")) eqn:E1; simpl.
    + destruct (eqb (hostname u) dom) eqn:E2; simpl.
      * exfalso. apply NV. exists u. apply eqb_eq in E1, E2. auto.
      * split; [reflexivity|]. split; [eexists; left; reflexivity|].
        repeat split.
    + split; [reflexivity|]. split; [eexists; left; reflexivity|].
      repeat split.
  - split; [reflexivity|]. split; [eexists; left; reflexivity|].
    repeat split.
Qed.

(** [main] of an adapter ends where [validateUrl] ends the process. *)
Lemma main_validation_exit (a : site) (URL_parse : jsstring -> option URL)
    (network : jsstring -> option jsstring) (args : list jsstring)
    (urlString : jsstring) :
  parseArguments args = ret urlString ->
  snd (validateUrl URL_parse (domain a) urlString) = Exited ->
  main a URL_parse network args
  = (fst (validateUrl URL_parse (domain a) urlString), Exited).
Proof.
  intros PA V.
  destruct (validateUrl URL_parse (domain a) urlString) as [t o] eqn:E.
  simpl in V; subst o. simpl fst.
  destruct a; unfold main, Ncode.main, Kakuyomu.main, main_listing;
    rewrite PA, bind_Return; simpl domain in E; rewrite E; reflexivity.
Qed.

Lemma own_property_supported (h s : jsstring) :
  Dispatcher.own_property Dispatcher.SUPPORTED_SCRAPERS h = Some s <->
  exists a, h = domain a /\ s = script a.
Proof.
  unfold Dispatcher.SUPPORTED_SCRAPERS. cbn [Dispatcher.own_property].
  destruct (eqb (str "ncode.syosetu.com") h) eqn:E1.
  - apply eqb_eq in E1; subst h. split.
    + intros [= <-]. exists ncode; auto.
    + intros [[] [H ->]]; [reflexivity | discriminate].
  - destruct (eqb (str "kakuyomu.jp") h) eqn:E2.
    + apply eqb_eq in E2; subst h. split.
      * intros [= <-]. exists kakuyomu; auto.
      * intros [[] [H ->]]; [discriminate | reflexivity].
    + apply eqb_neq in E1, E2. split; [discriminate|].
      intros [[] [-> _]]; exfalso; [apply E1 | apply E2]; reflexivity.
Qed.

(** The dispatcher hands a valid URL of a source to the script of that
    source. *)
Lemma dispatcher_valid (a : site) (URL_parse : jsstring -> option URL)
    (urlString : jsstring) :
  valid_url URL_parse (domain a) urlString ->
  Dispatcher.validateUrlAndGetScraper URL_parse urlString
  = ([], Return (Dispatcher.VString (script a))).
Proof.
  intros (url & P & S & H).
  unfold Dispatcher.validateUrlAndGetScraper, new_URL.
  rewrite P. cbv iota. rewrite bind_Return, S, eqb_refl. simpl negb.
  cbv iota. rewrite bind_Return.
  unfold Dispatcher.get.
  assert (O : Dispatcher.own_property Dispatcher.SUPPORTED_SCRAPERS
                (hostname url) = Some (script a))
    by (apply own_property_supported; exists a; auto).
  rewrite O. destruct a; reflexivity.
Qed.

(** The dispatcher refuses every other input: by its own check, or, for
    a host that is the name of an inherited member of the table of
    scrapers, because the child process it starts cannot run. *)
Lemma dispatcher_invalid (URL_parse : jsstring -> option URL)
    (network : jsstring -> option jsstring) (args : list jsstring)
    (urlString : jsstring) :
  parseArguments args = ret urlString ->
  (forall a, ~ valid_url URL_parse (domain a) urlString) ->
  rejected (fst (Dispatcher.main URL_parse network args)).
Proof.
  intros PA NV. unfold Dispatcher.main. rewrite PA, bind_Return.
  unfold Dispatcher.validateUrlAndGetScraper, new_URL.
  destruct (URL_parse urlString) as [u|] eqn:P.
  2:{ simpl. split; [eexists; left; reflexivity | repeat split]. }
  rewrite bind_Return.
  destruct (eqb (protocol u) (str "https:")) eqn:E1.
  2:{ simpl. split; [eexists; left; reflexivity | repeat split]. }
  apply eqb_eq in E1. simpl negb. cbv iota. rewrite bind_Return.
  unfold Dispatcher.get.
  destruct (Dispatcher.own_property Dispatcher.SUPPORTED_SCRAPERS
              (hostname u)) as [s|] eqn:O.
  { exfalso. apply own_property_supported in O as (a & H & _).
    apply (NV a). exists u; auto. }
  destruct (array_includes Dispatcher.Object_prototype_keys (hostname u)).
  - simpl. split; [eexists; right; left; reflexivity | repeat split].
  - simpl. split; [eexists; left; reflexivity | repeat split].
Qed.

(** C6: validation is one gate in front of all network activity.  When
    the input does not parse as a URL, or its scheme is not https, or its
    host is not exactly the domain of the source, [validateUrl] ends the
    process: a diagnostic is on the error stream, the status is 1, and
    the run of the adapter holds no call of the fetcher and no write.
    Otherwise [validateUrl] returns the parsed URL without any output.
    The dispatcher hands a valid URL of a source to the script of that
    source, and its run is refused in the same way when the input is
    valid for no source. *)
Theorem url_validation_gate (URL_parse : jsstring -> option URL)
    (network : jsstring -> option jsstring) (args : list jsstring)
    (urlString : jsstring) :
  parseArguments args = ret urlString ->
  (forall a : site,
     (valid_url URL_parse (domain a) urlString ->
      exists url,
        URL_parse urlString = Some url /\
        validateUrl URL_parse (domain a) urlString = ([], Return url) /\
        Dispatcher.validateUrlAndGetScraper URL_parse urlString
        = ([], Return (Dispatcher.VString (script a)))) /\
     (~ valid_url URL_parse (domain a) urlString ->
      snd (validateUrl URL_parse (domain a) urlString) = Exited /\
      rejected (fst (validateUrl URL_parse (domain a) urlString)) /\
      snd (main a URL_parse network args) = Exited /\
      rejected (fst (main a URL_parse network args)))) /\
  ((forall a, ~ valid_url URL_parse (domain a) urlString) ->
   rejected (fst (Dispatcher.main URL_parse network args))).
Proof.
  intros PA. split.
  - intros a. split.
    + intros V. pose proof (dispatcher_valid a URL_parse urlString V) as D.
      destruct V as (url & P & S & H). exists url.
      split; [assumption|]. split; [|assumption].
      apply validateUrl_valid; assumption.
    + intros NV.
      destruct (validateUrl_invalid URL_parse (domain a) urlString NV)
        as [X R].
      rewrite (main_validation_exit a URL_parse network args urlString PA X).
      auto.
  - apply dispatcher_invalid; assumption.
Qed.

(* ===================================================================== *)
(** ** The chapter loop                                                   *)
(* ===================================================================== *)

(** The body extractors write nothing but their one diagnostic. *)
Lemma extractBody_diags (a : site) (html : jsstring) :
  snd (extractBody a html) = [] \/
  snd (extractBody a html) = [Error MsgBodyNotFound].
Proof.
  rewrite extractBody_selection.
  destruct (body_selection a html); simpl; auto.
Qed.

Lemma extractBody_requests (a : site) (html : jsstring) :
  requests (snd (extractBody a html)) = [].
Proof. destruct (extractBody_diags a html) as [-> | ->]; reflexivity. Qed.

Lemma extractBody_written (a : site) (html : jsstring) :
  written (snd (extractBody a html)) = [].
Proof. destruct (extractBody_diags a html) as [-> | ->]; reflexivity. Qed.

(** One round of the loop: every failure is caught inside the round. *)
Lemma download_chapter_trace (a : site)
    (network : jsstring -> option jsstring) (links : list jsstring)
    (j : nat) :
  download_chapter network (output_dir a) (extractTitle a) (extractBody a)
    links j
  = (chapter_round a network links j, Return tt).
Proof.
  unfold download_chapter, chapter_round, fetchUrl, lift.
  unfold bind, emit, try_catch, ret, throw. cbv beta iota zeta.
  destruct (network (nth j links [])) as [html|]; [|reflexivity].
  cbv beta iota zeta.
  destruct (truthy (fst (extractBody a html))); reflexivity.
Qed.

Lemma chapter_loop_trace (a : site)
    (network : jsstring -> option jsstring) (links : list jsstring)
    (n i : nat) :
  chapter_loop network (output_dir a) (extractTitle a) (extractBody a)
    links n i
  = (flat_map (chapter_round a network links) (seq i n), Return tt).
Proof.
  revert i; induction n as [|n IH]; intros i; [reflexivity|].
  cbn [chapter_loop seq flat_map].
  rewrite download_chapter_trace, IH. reflexivity.
Qed.

Lemma chapter_round_requests (a : site)
    (network : jsstring -> option jsstring) (links : list jsstring)
    (j : nat) :
  requests (chapter_round a network links j) = [nth j links []].
Proof.
  unfold chapter_round. cbv zeta. cbn [requests]. f_equal.
  destruct (network (nth j links [])) as [html|]; [|reflexivity].
  rewrite !requests_app, extractBody_requests.
  destruct (truthy (fst (extractBody a html))); reflexivity.
Qed.

Lemma chapter_round_written (a : site)
    (network : jsstring -> option jsstring) (links : list jsstring)
    (j : nat) :
  written (chapter_round a network links j)
  = chapter_artifact a network links j.
Proof.
  unfold chapter_round, chapter_artifact. cbv zeta. cbn [written].
  destruct (network (nth j links [])) as [html|]; [|reflexivity].
  rewrite !written_app, extractBody_written.
  destruct (truthy (fst (extractBody a html))); reflexivity.
Qed.

Lemma requests_flat_map (f : nat -> trace) (l : list nat) :
  requests (flat_map f l) = flat_map (fun j => requests (f j)) l.
Proof.
  induction l as [|j l IH]; simpl; [reflexivity|].
  rewrite requests_app, IH. reflexivity.
Qed.

Lemma written_flat_map (f : nat -> trace) (l : list nat) :
  written (flat_map f l) = flat_map (fun j => written (f j)) l.
Proof.
  induction l as [|j l IH]; simpl; [reflexivity|].
  rewrite written_app, IH. reflexivity.
Qed.

Lemma loop_requests (a : site) (network : jsstring -> option jsstring)
    (links : list jsstring) (l : list nat) :
  requests (flat_map (chapter_round a network links) l)
  = map (fun j => nth j links []) l.
Proof.
  rewrite requests_flat_map.
  induction l as [|j l IH]; cbn [flat_map map]; [reflexivity|].
  rewrite chapter_round_requests, IH. reflexivity.
Qed.

Lemma loop_written (a : site) (network : jsstring -> option jsstring)
    (links : list jsstring) (l : list nat) :
  written (flat_map (chapter_round a network links) l)
  = flat_map (chapter_artifact a network links) l.
Proof.
  rewrite written_flat_map.
  induction l as [|j l IH]; cbn [flat_map]; [reflexivity|].
  rewrite chapter_round_written, IH. reflexivity.
Qed.

(** The number in the name of an artifact: three digits below 1000. *)
Lemma chapter_number_padded (n : nat) :
  n < 1000 ->
  padStart0 3 (toString n)
  = [N.of_nat (48 + n / 100); N.of_nat (48 + (n / 10) mod 10);
     N.of_nat (48 + n mod 10)].
Proof.
  intros H.
  assert (A : forallb
                (fun n => eqb (padStart0 3 (toString n))
                   [N.of_nat (48 + n / 100);
                    N.of_nat (48 + (n / 10) mod 10);
                    N.of_nat (48 + n mod 10)])
                (seq 0 1000) = true) by (vm_compute; reflexivity).
  rewrite forallb_forall in A. apply eqb_eq, A, in_seq. lia.
Qed.

(* ===================================================================== *)
(** ** Runs of an adapter                                                 *)
(* ===================================================================== *)

(** [parseArguments] hands on the first argument or ends the process
    without touching the network or the disk. *)
Lemma parseArguments_cases (args : list jsstring) :
  (exists urlString, parseArguments args = ret urlString) \/
  (exists t, parseArguments args = (t, Exited) /\
             requests t = [] /\ written t = []).
Proof.
  unfold parseArguments. destruct args as [|arg0 args].
  - right. eexists. split; [reflexivity|]. split; reflexivity.
  - destruct (array_includes (arg0 :: args) (str "--help")
              || array_includes (arg0 :: args) (str "-h")).
    + right. eexists. split; [reflexivity|]. split; reflexivity.
    + left. eexists. reflexivity.
Qed.

(** A run whose URL passes validation: the listing page is fetched; when
    that fails the run ends with status 1, otherwise the page is stored,
    the chapters are downloaded and the run ends normally. *)
Lemma main_trace (a : site) (URL_parse : jsstring -> option URL)
    (network : jsstring -> option jsstring) (args : list jsstring)
    (urlString : jsstring) (url : URL) :
  parseArguments args = ret urlString ->
  validateUrl URL_parse (domain a) urlString = ret url ->
  main a URL_parse network args =
  match network (href url) with
  | None =>
      ([EnsureDir (output_dir a); Log (MsgScraping (href url));
        Log MsgFetchingIndex; Request (href url);
        Error MsgFatal; Exit 1], Exited)
  | Some html =>
      (listing_events a url html ++ chapters_events a network html
       ++ [Log MsgDone; ListFiles (output_dir a)], Return tt)
  end.
Proof.
  intros PA V.
  destruct a; unfold main, Ncode.main, Kakuyomu.main, main_listing,
    main_report, main_catch; simpl domain in V;
    rewrite PA, bind_Return, V, bind_Return;
    unfold fetchUrl, lift;
    (destruct (network (href url)) as [html|]; [|reflexivity]).
  - pose proof (chapter_loop_trace ncode network
                  (Ncode.extractChapterLinks html)
                  (length (Ncode.extractChapterLinks html)) 0) as L.
    cbn [output_dir extractTitle extractBody] in L.
    unfold listing_events, chapters_events.
    cbn [output_dir extractTitle extractBody extractChapterLinks
         download_count].
    unfold bind, emit, try_catch, ret, throw. cbv beta iota zeta.
    destruct (truthy (fst (Ncode.extractNovelContent html)));
      cbv beta iota zeta; rewrite L;
      destruct (0 <? length (Ncode.extractChapterLinks html));
      cbv beta iota zeta; rewrite <- ?app_assoc; cbn [app];
      rewrite <- ?app_assoc; reflexivity.
  - pose proof (chapter_loop_trace kakuyomu network
                  (Kakuyomu.extractChapterLinks html)
                  (Nat.min 3 (length (Kakuyomu.extractChapterLinks html)))
                  0) as L.
    cbn [output_dir extractTitle extractBody] in L.
    unfold listing_events, chapters_events.
    cbn [output_dir extractTitle extractBody extractChapterLinks
         download_count].
    unfold bind, emit, try_catch, ret, throw. cbv beta iota zeta.
    destruct (truthy (fst (Kakuyomu.extractNovelContent html)));
      cbv beta iota zeta; rewrite L;
      destruct (0 <? length (Kakuyomu.extractChapterLinks html));
      cbv beta iota zeta; rewrite <- ?app_assoc; cbn [app];
      rewrite <- ?app_assoc; reflexivity.
Qed.

(** A run that [parseArguments] ends. *)
Lemma main_arguments_exit (a : site) (URL_parse : jsstring -> option URL)
    (network : jsstring -> option jsstring) (args : list jsstring)
    (t : trace) :
  parseArguments args = (t, Exited) ->
  main a URL_parse network args = (t, Exited).
Proof.
  intros PA.
  destruct a; unfold main, Ncode.main, Kakuyomu.main, main_listing;
    rewrite PA; reflexivity.
Qed.

Lemma validateUrl_quiet (URL_parse : jsstring -> option URL)
    (dom urlString : jsstring) :
  requests (fst (validateUrl URL_parse dom urlString)) = [] /\
  written (fst (validateUrl URL_parse dom urlString)) = [] /\
  snd (validateUrl URL_parse dom urlString) <> Throw.
Proof.
  rewrite validateUrl_cases.
  destruct (URL_parse urlString) as [u|];
    [|repeat split; discriminate].
  destruct (negb (eqb (protocol u) (str "https:")));
    [repeat split; discriminate|].
  destruct (negb (eqb (hostname u) dom)); repeat split; discriminate.
Qed.

Lemma download_count_le (a : site) (n : nat) : download_count a n <= n.
Proof. destruct a; cbn [download_count]; lia. Qed.

(** The chapter part of a run fetches discovered chapter links only. *)
Lemma chapters_requests (a : site) (network : jsstring -> option jsstring)
    (html u : jsstring) :
  In u (requests (chapters_events a network html)) ->
  In u (extractChapterLinks a html).
Proof.
  unfold chapters_events. cbv zeta.
  generalize (extractChapterLinks a html) as links. intros links.
  destruct (0 <? length links); [|intros []].
  assert (R : In u (map (fun j => nth j links [])
                      (seq 0 (download_count a (length links)))) ->
              In u links).
  { rewrite in_map_iff. intros (j & <- & Hj). apply in_seq in Hj.
    apply nth_In. pose proof (download_count_le a (length links)). lia. }
  destruct a; rewrite ?requests_app, loop_requests; cbn [requests];
    rewrite ?app_nil_r; exact R.
Qed.

Lemma listing_requests (a : site) (url : URL) (html : jsstring) :
  requests (listing_events a url html) = [href url].
Proof.
  unfold listing_events. cbn [app requests].
  rewrite !requests_app, extractBody_requests.
  destruct (truthy (fst (extractBody a html))); reflexivity.
Qed.



Lemma listing_written (a : site) (url : URL) (html : jsstring) :
  written (listing_events a url html)
  = (path_join (output_dir a) (str "index.html"), html)
    :: (if truthy (fst (extractBody a html))
        then [(path_join (output_dir a) (str "content.txt"),
               fst (extractBody a html))]
        else []).
Proof.
  unfold listing_events. cbn [app written]. f_equal.
  rewrite !written_app, extractBody_written.
  destruct (truthy (fst (extractBody a html))); reflexivity.
Qed.

Lemma chapters_written (a : site) (network : jsstring -> option jsstring)
    (html : jsstring) :
  written (chapters_events a network html)
  = flat_map (chapter_artifact a network (extractChapterLinks a html))
      (seq 0 (download_count a (length (extractChapterLinks a html)))).
Proof.
  unfold chapters_events. cbv zeta.
  generalize (extractChapterLinks a html) as links. intros links.
  destruct (0 <? length links) eqn:E.
  - destruct a; rewrite ?written_app, loop_written; cbn [written];
      rewrite ?app_nil_r; reflexivity.
  - apply Nat.ltb_ge in E.
    assert (Z : download_count a (length links) = 0)
      by (pose proof (download_count_le a (length links)); lia).
    rewrite Z. reflexivity.
Qed.

(** The files of a run whose listing page could be fetched. *)
Lemma main_written (a : site) (URL_parse : jsstring -> option URL)
    (network : jsstring -> option jsstring) (args : list jsstring)
    (urlString : jsstring) (url : URL) (html : jsstring) :
  parseArguments args = ret urlString ->
  validateUrl URL_parse (domain a) urlString = ret url ->
  network (href url) = Some html ->
  written (fst (main a URL_parse network args))
  = (path_join (output_dir a) (str "index.html"), html)
    :: (if truthy (fst (extractBody a html))
        then [(path_join (output_dir a) (str "content.txt"),
               fst (extractBody a html))]
        else [])
    ++ flat_map (chapter_artifact a network (extractChapterLinks a html))
         (seq 0 (download_count a (length (extractChapterLinks a html)))).
Proof.
  intros PA V Hnet.
  rewrite (main_trace a URL_parse network args urlString url PA V), Hnet.
  cbn [fst]. rewrite !written_app, listing_written, chapters_written.
  cbn [written]. rewrite app_nil_r. reflexivity.
Qed.

(* ===================================================================== *)
(** ** The claims on runs                                                 *)
(* ===================================================================== *)

(** C2: the chapter loop makes one round for every index, whatever
    happens in the rounds before: each round fetches the page of its
    link; a rejected fetch is caught and reported with the number of the
    chapter; a fetched page whose body is empty is reported; a non-empty
    body is written to the file named by the 1-based index of the link
    among the discovered links, padded with zeros to three digits.  With
    five discovered links, the limit of three of the kakuyomu adapter and
    a failing fetch of the second chapter, the files of the run are the
    two of the listing page and the chapters 001 and 003.  The ncode
    adapter makes a round for every discovered link, the kakuyomu adapter
    for the first three. *)
Theorem chapter_loop_artifacts :
  (forall (a : site) (network : jsstring -> option jsstring)
          (links : list jsstring) (n i : nat),
     let run := chapter_loop network (output_dir a) (extractTitle a)
                  (extractBody a) links n i in
     run = (flat_map (chapter_round a network links) (seq i n), Return tt) /\
     requests (fst run) = map (fun j => nth j links []) (seq i n) /\
     written (fst run) =
     flat_map
       (fun j =>
          match network (nth j links []) with
          | None => []
          | Some html =>
              if truthy (fst (extractBody a html))
              then [(path_join (output_dir a)
                       (str "chapter_" ++ padStart0 3 (toString (j + 1))
                        ++ str ".txt"),
                     fst (extractBody a html))]
              else []
          end)
       (seq i n)) /\
  (forall n, n < 1000 ->
     padStart0 3 (toString n)
     = [N.of_nat (48 + n / 100); N.of_nat (48 + (n / 10) mod 10);
        N.of_nat (48 + n mod 10)]) /\
  (forall (a : site) (URL_parse : jsstring -> option URL)
          (network : jsstring -> option jsstring) (args : list jsstring)
          (urlString : jsstring) (url : URL) (html : jsstring),
     parseArguments args = ret urlString ->
     validateUrl URL_parse (domain a) urlString = ret url ->
     network (href url) = Some html ->
     written (fst (main a URL_parse network args))
     = (path_join (output_dir a) (str "index.html"), html)
       :: (if truthy (fst (extractBody a html))
           then [(path_join (output_dir a) (str "content.txt"),
                  fst (extractBody a html))]
           else [])
       ++ flat_map (chapter_artifact a network (extractChapterLinks a html))
            (seq 0 (match a with
                    | ncode => length (extractChapterLinks a html)
                    | kakuyomu =>
                        Nat.min 3 (length (extractChapterLinks a html))
                    end))) /\
  (let run := Kakuyomu.main NodeURL.parse scenario_network
                [str "https://kakuyomu.jp/works/7"] in
   length (Kakuyomu.extractChapterLinks scenario_listing) = 5 /\
   snd run = Return tt /\
   requests (fst run)
   = [str "https://kakuyomu.jp/works/7";
      str "https://kakuyomu.jp/works/7/episodes/1";
      str "https://kakuyomu.jp/works/7/episodes/2";
      str "https://kakuyomu.jp/works/7/episodes/3"] /\
   In (Error (MsgChapterError 2)) (fst run) /\
   map fst (written (fst run))
   = [str "novel_output/kakuyomu/index.html";
      str "novel_output/kakuyomu/content.txt";
      str "novel_output/kakuyomu/chapter_001.txt";
      str "novel_output/kakuyomu/chapter_003.txt"]).
Proof.
  split; [|split; [|split]].
  - intros a network links n i. cbv zeta.
    rewrite chapter_loop_trace. cbn [fst].
    split; [reflexivity|]. split; [apply loop_requests|].
    apply loop_written.
  - exact chapter_number_padded.
  - intros a URL_parse network args urlString url html PA V Hnet.
    rewrite (main_written a URL_parse network args urlString url html
               PA V Hnet).
    destruct a; reflexivity.
  - cbv zeta. split; [vm_compute; reflexivity|].
    split; [vm_compute; reflexivity|].
    split; [vm_compute; reflexivity|].
    split; [|vm_compute; reflexivity].
    vm_compute. repeat (first [left; reflexivity | right]).
Qed.

(** C5, as stated, fails: the ncode adapter takes an absolute href as it
    is, so a listing page with a chapter link to a foreign host makes the
    run fetch from that host. *)
Lemma foreign_host_fetched :
  let run := Ncode.main NodeURL.parse foreign_network
               [str "https://ncode.syosetu.com/n9734kw/"] in
  requests (fst run)
  = [str "https://ncode.syosetu.com/n9734kw/";
     str "https://evil.example/n9734kw/1"] /\
  option_map hostname (NodeURL.parse (str "https://evil.example/n9734kw/1"))
  = Some (str "evil.example") /\
  ~ In (str "evil.example") registered_domains.
Proof.
  cbv zeta. split; [vm_compute; reflexivity|].
  split; [vm_compute; reflexivity|].
  intros [H|[H|[]]]; vm_compute in H; discriminate.
Qed.



Lemma url_validation_gate_witness :
  parseArguments [str "http://kakuyomu.jp/works/7"]
  = ret (str "http://kakuyomu.jp/works/7") /\
  snd (main kakuyomu NodeURL.parse scenario_network
         [str "http://kakuyomu.jp/works/7"]) = Exited /\
  rejected (fst (main kakuyomu NodeURL.parse scenario_network
                   [str "http://kakuyomu.jp/works/7"])).
Proof.
  split; [reflexivity|].
  destruct (url_validation_gate NodeURL.parse scenario_network
              [str "http://kakuyomu.jp/works/7"]
              (str "http://kakuyomu.jp/works/7") eq_refl) as [H _].
  destruct (H kakuyomu) as [_ H2].
  apply H2. intros (u & P & S & _).
  vm_compute in P. injection P as <-. vm_compute in S. discriminate.
Defined.

(** A host that is the name of a member inherited by the table of
    scrapers passes the check of the dispatcher; the run is refused all
    the same, because no script of that name can be started. *)
Example dispatcher_inherited_host :
  Dispatcher.validateUrlAndGetScraper NodeURL.parse
    (str "https://constructor/works/7")
  = ([], Return (Dispatcher.VInherited (str "constructor"))) /\
  fst (Dispatcher.main NodeURL.parse scenario_network
         [str "https://constructor/works/7"])
  = [Log MsgRunning; Error MsgFatal; ChildExit 1; Error MsgFatal; Exit 1].
Proof. split; vm_compute; reflexivity. Qed.

(** A valid URL of a source makes the dispatcher run the adapter of that
    source on it. *)
Example dispatcher_runs_adapter :
  requests (fst (Dispatcher.main NodeURL.parse scenario_network
                   [str "https://kakuyomu.jp/works/7"]))
  = requests (fst (Kakuyomu.main NodeURL.parse scenario_network
                     [str "https://kakuyomu.jp/works/7"])) /\
  exit_status (fst (Dispatcher.main NodeURL.parse scenario_network
                      [str "https://kakuyomu.jp/works/7"])) = 0.
Proof. split; vm_compute; reflexivity. Qed.

(* ===================================================================== *)
(** ** stripHtmlTags                                                      *)
(* ===================================================================== *)

Lemma after_first_Some (c : N) (s r : jsstring) :
  after_first c s = Some r ->
  exists mid, s = mid ++ c :: r /\ ~ In c mid.
Proof.
  revert r; induction s as [|x s IH]; intros r; simpl; [discriminate|].
  destruct (N.eqb x c) eqn:E.
  - apply N.eqb_eq in E; subst x. intros [= <-]. exists []. auto.
  - apply N.eqb_neq in E. intros H.
    destruct (IH _ H) as (mid & -> & M).
    exists (x :: mid). split; [reflexivity|].
    intros [X|X]; [congruence | auto].
Qed.

Lemma after_first_None (c : N) (s : jsstring) :
  after_first c s = None <-> ~ In c s.
Proof.
  induction s as [|x s IH]; simpl; [tauto|].
  destruct (N.eqb x c) eqn:E.
  - apply N.eqb_eq in E. split; [discriminate | intros H; tauto].
  - apply N.eqb_neq in E. rewrite IH. tauto.
Qed.

(** The greedy class [[^c]*] followed by [c] stops at the first [c]. *)
Lemma star_until (c : N) (s : jsstring) :
  star_greedy (CNot c) (exec_at [ALit [c]] [] []) s
  = option_map (fun r => ([], r)) (after_first c s).
Proof.
  induction s as [|x s IH]; [reflexivity|].
  cbn [star_greedy after_first cmatch].
  destruct (N.eqb x c) eqn:E; cbn [negb].
  - cbn [exec_at strip_prefix]. rewrite N.eqb_sym, E. reflexivity.
  - rewrite IH. destruct (after_first c s); [reflexivity|].
    cbn [option_map exec_at strip_prefix]. rewrite N.eqb_sym, E.
    reflexivity.
Qed.

(** Where the tag pattern matches: at a [<] with a [>] behind it, up to
    the first [>]. *)
Lemma exec_tag (s : jsstring) :
  exec_here tag_pattern s =
  match s with
  | x :: s' =>
      if N.eqb x LT then option_map (fun r => ([], r)) (after_first GT s')
      else None
  | [] => None
  end.
Proof.
  unfold exec_here, tag_pattern. cbn [exec_at strip_prefix].
  destruct s as [|x s]; [reflexivity|].
  rewrite N.eqb_sym. destruct (N.eqb x LT); [|reflexivity].
  apply star_until.
Qed.

(** Removing matches brings in no code unit. *)
Lemma remove_matches_In (r : regex) (s : jsstring) (k : nat) (y : N) :
  In y (replace_go r [] k s) -> In y s.
Proof.
  revert k; induction s as [|x s IH]; intros k; cbn [replace_go]; [tauto|].
  destruct k as [|k]; [|intros H; right; eauto].
  destruct (exec_here r (x :: s)) as [[cap rest]|].
  - cbn [app]. intros H; right; eauto.
  - intros [<-|H]; [left; reflexivity | right; eauto].
Qed.

Lemma existsb_In (c : N) (s : jsstring) :
  existsb (N.eqb c) s = true <-> In c s.
Proof.
  rewrite existsb_exists. split.
  - intros (x & H & E). apply N.eqb_eq in E. subst; assumption.
  - intros H. exists c. split; [assumption | apply N.eqb_refl].
Qed.

Lemma has_tag_cons (x : N) (s : jsstring) :
  has_tag (x :: s) <-> (x = LT /\ In GT s) \/ has_tag s.
Proof.
  split.
  - intros ([|y a] & b & c & E); injection E as -> ->.
    + left. split; [reflexivity|]. apply in_or_app. right. left. reflexivity.
    + right. exists a, b, c. reflexivity.
  - intros [[-> H]|(a & b & c & ->)].
    + apply in_split in H as (b & c & ->). exists [], b, c. reflexivity.
    + exists (x :: a), b, c. reflexivity.
Qed.

Lemma tag_free_spec (s : jsstring) : tag_free s = true <-> ~ has_tag s.
Proof.
  induction s as [|x s IH]; cbn [tag_free].
  - split; [|reflexivity]. intros _ ([|y a] & b & c & E); discriminate.
  - rewrite has_tag_cons, andb_true_iff, negb_true_iff, andb_false_iff,
      N.eqb_neq, IH.
    rewrite <- (existsb_In GT s).
    destruct (existsb (N.eqb GT) s), (N.eq_dec x LT); intuition congruence.
Qed.

Lemma strip_go_tag_free (s : jsstring) (k : nat) :
  tag_free (replace_go tag_pattern [] k s) = true.
Proof.
  revert k; induction s as [|x s IH]; intros k; cbn [replace_go];
    [reflexivity|].
  destruct k as [|k]; [|apply IH].
  rewrite exec_tag.
  destruct (N.eqb x LT) eqn:E.
  - destruct (after_first GT s) as [r|] eqn:A; cbn [option_map app];
      [apply IH|].
    cbn [tag_free]. rewrite IH, andb_true_r, negb_true_iff.
    apply andb_false_iff. right.
    destruct (existsb (N.eqb GT) (replace_go tag_pattern [] 0 s)) eqn:X;
      [|reflexivity].
    apply existsb_In, remove_matches_In in X.
    apply after_first_None in A. contradiction.
  - cbn [tag_free]. rewrite E, IH. reflexivity.
Qed.

Lemma strip_tag_free_id (s : jsstring) :
  tag_free s = true -> stripHtmlTags s = s.
Proof.
  unfold stripHtmlTags, replace_all.
  induction s as [|x s IH]; [reflexivity|].
  cbn [tag_free replace_go]. rewrite andb_true_iff, negb_true_iff.
  intros [H T]. rewrite exec_tag.
  destruct (N.eqb x LT) eqn:E.
  - cbn [andb] in H.
    assert (A : after_first GT s = None).
    { apply after_first_None. intros X. apply existsb_In in X. congruence. }
    rewrite A. cbn [option_map]. rewrite (IH T). reflexivity.
  - rewrite (IH T). reflexivity.
Qed.

(** X1: whatever the text, [stripHtmlTags] leaves no tag behind: in its
    result no [<] has a [>] anywhere behind it.  Stripping a second time
    therefore changes nothing, and every code unit of the result comes
    from the text. *)
Theorem strip_leaves_no_tag (text : jsstring) :
  ~ has_tag (stripHtmlTags text) /\
  stripHtmlTags (stripHtmlTags text) = stripHtmlTags text /\
  (forall c, In c (stripHtmlTags text) -> In c text).
Proof.
  assert (T : tag_free (stripHtmlTags text) = true)
    by apply strip_go_tag_free.
  split; [apply tag_free_spec, T|].
  split; [apply strip_tag_free_id, T|].
  intros c. apply remove_matches_In.
Qed.

(** X2: [stripHtmlTags] returns a text unchanged exactly when the text
    holds no [<] with a [>] behind it; a lone [<] or [>] is kept. *)
Theorem strip_identity_iff (text : jsstring) :
  stripHtmlTags text = text <-> ~ has_tag text.
Proof.
  rewrite <- tag_free_spec. split.
  - intros H. rewrite <- H. apply strip_go_tag_free.
  - apply strip_tag_free_id.
Qed.

(* ===================================================================== *)
(** ** The normalizer on marked-up text                                   *)
(* ===================================================================== *)

(** A match at the head of the text is replaced, and the replacing goes on
    behind it. *)
Lemma replace_hit (r : regex) (rep : jsstring) (x : N)
    (m rest cap : jsstring) :
  exec_here r (x :: m ++ rest) = Some (cap, rest) ->
  replace_all r rep (x :: m ++ rest) = rep ++ replace_all r rep rest.
Proof.
  intros H. unfold replace_all. cbn [replace_go]. rewrite H. f_equal.
  cbn [length]. rewrite length_app.
  replace (S (length m + length rest) - length rest - 1) with (length m)
    by lia.
  apply replace_go_skip.
Qed.

Lemma replace_miss (r : regex) (rep : jsstring) (x : N) (s : jsstring) :
  exec_here r (x :: s) = None ->
  replace_all r rep (x :: s) = x :: replace_all r rep s.
Proof.
  intros H. unfold replace_all. cbn [replace_go]. rewrite H. reflexivity.
Qed.

Lemma after_first_app (c : N) (x s : jsstring) :
  ~ In c x -> after_first c (x ++ c :: s) = Some s.
Proof.
  induction x as [|y x IH]; intros H; cbn [app after_first].
  - rewrite N.eqb_refl. reflexivity.
  - destruct (N.eqb y c) eqn:E.
    + apply N.eqb_eq in E. exfalso. apply H. left. exact E.
    + apply IH. intros X. apply H. right. exact X.
Qed.

(** Where the line-break pattern matches: at [<br] with a [>] behind it,
    up to the first [>]. *)
Lemma exec_br (s : jsstring) :
  exec_here br_pattern s =
  match strip_prefix (str "<br") s with
  | Some s1 => option_map (fun r => ([], r)) (after_first GT s1)
  | None => None
  end.
Proof.
  unfold exec_here, br_pattern. cbn [exec_at].
  destruct (strip_prefix (str "<br") s) as [s1|]; [|reflexivity].
  apply star_until.
Qed.

Lemma tag_inside_spec (inner : jsstring) :
  tag_inside inner = true -> ~ In LT inner /\ ~ In GT inner.
Proof.
  unfold tag_inside. rewrite forallb_forall. intros H.
  split; intros X; specialize (H _ X); cbn in H; discriminate H.
Qed.

Lemma plain_text_spec (t : jsstring) :
  plain_text t = true -> ~ In LT t /\ ~ In AMP t.
Proof.
  unfold plain_text. rewrite forallb_forall. intros H.
  split; intros X; specialize (H _ X); cbn in H; discriminate H.
Qed.

Lemma in_entity_table_spec (e c : jsstring) :
  in_entity_table e c = true -> In (e, c) entity_table.
Proof.
  unfold in_entity_table. rewrite existsb_exists.
  intros ([e' c'] & H & E). cbn [fst snd] in E.
  apply andb_true_iff in E as [E1 E2].
  apply eqb_eq in E1, E2. subst. exact H.
Qed.

Lemma entity_no_tag (e c : jsstring) :
  In (e, c) entity_table -> ~ In LT e.
Proof.
  intros H. cbn [In entity_table] in H.
  repeat (destruct H as [[= <- <-]|H];
          [intros X; cbv in X;
           repeat (destruct X as [X|X]; [discriminate X|]); exact X|]).
  destruct H.
Qed.

(** A stretch without [<] passes both tag patterns. *)
Lemma br_text (w s : jsstring) :
  ~ In LT w -> br_to_newline (w ++ s) = w ++ br_to_newline s.
Proof.
  unfold br_to_newline.
  induction w as [|y w IH]; intros H; [reflexivity|].
  cbn [app]. rewrite replace_miss.
  - rewrite IH; [reflexivity|]. intros X. apply H. right. exact X.
  - rewrite exec_br.
    change (str "<br") with (LT :: str "br"). cbn [strip_prefix].
    destruct (N.eqb LT y) eqn:E; [|reflexivity].
    apply N.eqb_eq in E. exfalso. apply H. left. symmetry. exact E.
Qed.

Lemma strip_text (w s : jsstring) :
  ~ In LT w -> stripHtmlTags (w ++ s) = w ++ stripHtmlTags s.
Proof.
  unfold stripHtmlTags.
  induction w as [|y w IH]; intros H; [reflexivity|].
  cbn [app]. rewrite replace_miss.
  - rewrite IH; [reflexivity|]. intros X. apply H. right. exact X.
  - rewrite exec_tag.
    destruct (N.eqb y LT) eqn:E; [|reflexivity].
    apply N.eqb_eq in E. exfalso. apply H. left. exact E.
Qed.

(** A line-break tag becomes a line feed. *)
Lemma br_break (inner s : jsstring) :
  ~ In GT inner ->
  br_to_newline (str "<br" ++ inner ++ [GT] ++ s) = [LF] ++ br_to_newline s.
Proof.
  intros H. unfold br_to_newline.
  replace (str "<br" ++ inner ++ [GT] ++ s)
    with (LT :: (str "br" ++ inner ++ [GT]) ++ s)
    by (rewrite <- !app_assoc; reflexivity).
  apply replace_hit with (cap := []).
  rewrite exec_br, <- !app_assoc.
  change (LT :: str "br" ++ inner ++ [GT] ++ s)
    with (str "<br" ++ inner ++ [GT] ++ s).
  rewrite strip_prefix_app.
  cbn [app]. rewrite (after_first_app GT inner s H). reflexivity.
Qed.

(** Another tag passes the line-break pattern. *)
Lemma br_tag (inner s : jsstring) :
  ~ In LT inner -> startsWith inner (str "br") = false ->
  br_to_newline ([LT] ++ inner ++ [GT] ++ s)
  = [LT] ++ inner ++ [GT] ++ br_to_newline s.
Proof.
  intros H B. cbn [app]. unfold br_to_newline. rewrite replace_miss.
  - f_equal. apply br_text. exact H.
  - rewrite exec_br. change (str "<br") with (LT :: str "br").
    cbn [strip_prefix]. rewrite N.eqb_refl.
    rewrite startsWith_false_strip; [reflexivity|].
    change (str "br") with [98; 114]%N in *.
    destruct inner as [|y1 [|y2 inner]]; cbn [app startsWith] in *.
    + reflexivity.
    + destruct (N.eqb 98 y1); reflexivity.
    + exact B.
Qed.

(** A tag is removed by [stripHtmlTags]. *)
Lemma strip_tag (inner s : jsstring) :
  ~ In GT inner ->
  stripHtmlTags ([LT] ++ inner ++ [GT] ++ s) = stripHtmlTags s.
Proof.
  intros H. unfold stripHtmlTags.
  replace ([LT] ++ inner ++ [GT] ++ s) with (LT :: (inner ++ [GT]) ++ s)
    by (rewrite <- !app_assoc; reflexivity).
  change (replace_all tag_pattern [] s)
    with ([] ++ replace_all tag_pattern [] s).
  apply replace_hit with (cap := []).
  rewrite exec_tag, N.eqb_refl, <- app_assoc. cbn [app].
  rewrite (after_first_app GT inner s H). reflexivity.
Qed.

(** Text without [&] passes the decoder. *)
Lemma decode_text (w s : jsstring) :
  ~ In AMP w ->
  decodeHtmlEntities (w ++ s) = w ++ decodeHtmlEntities s.
Proof.
  induction w as [|y w IH]; intros H; [reflexivity|].
  cbn [app]. rewrite decode_other.
  - rewrite IH; [reflexivity|]. intros X. apply H. right. exact X.
  - intros ->. apply H. left. reflexivity.
Qed.

Lemma well_formed_cons (p : piece) (ps : list piece) :
  well_formed (p :: ps) = true -> well_formed ps = true.
Proof.
  destruct p; cbn [well_formed]; rewrite ?andb_true_iff; tauto.
Qed.

(** The first step: every line break becomes a line feed, and nothing
    else changes. *)
Lemma line_breaks_first (ps : list piece) :
  well_formed ps = true ->
  br_to_newline (render ps) = with_line_feeds ps.
Proof.
  unfold render, with_line_feeds.
  induction ps as [|p ps IH]; intros W; [reflexivity|].
  pose proof (IH (well_formed_cons p ps W)) as IH'.
  cbn [flat_map]. destruct p; cbn [well_formed render_piece] in *;
    rewrite ?andb_true_iff in W.
  - destruct W as [T _]. apply plain_text_spec in T as [T _].
    rewrite (br_text _ _ T), IH'. reflexivity.
  - destruct W as [[T _] _]. apply in_entity_table_spec in T.
    rewrite (br_text _ _ (entity_no_tag e c T)), IH'. reflexivity.
  - destruct W as [T _]. apply tag_inside_spec in T as [_ T].
    rewrite <- !app_assoc, (br_break _ _ T), IH'. reflexivity.
  - destruct W as [[T B] _]. apply tag_inside_spec in T as [T _].
    apply negb_true_iff in B.
    rewrite <- !app_assoc, (br_tag _ _ T B), IH'. reflexivity.
Qed.

(** The second step: the tags go, the entities stay. *)
Lemma tags_second (ps : list piece) :
  well_formed ps = true ->
  stripHtmlTags (with_line_feeds ps) = without_tags ps.
Proof.
  unfold with_line_feeds, without_tags.
  induction ps as [|p ps IH]; intros W; [reflexivity|].
  pose proof (IH (well_formed_cons p ps W)) as IH'.
  cbn [flat_map]. destruct p; cbn [well_formed render_piece] in *;
    rewrite ?andb_true_iff in W.
  - destruct W as [T _]. apply plain_text_spec in T as [T _].
    rewrite (strip_text _ _ T), IH'. reflexivity.
  - destruct W as [[T _] _]. apply in_entity_table_spec in T.
    rewrite (strip_text _ _ (entity_no_tag e c T)), IH'. reflexivity.
  - rewrite (strip_text [LF]), IH'; [reflexivity|].
    intros [X|[]]. discriminate X.
  - destruct W as [[T _] _]. apply tag_inside_spec in T as [_ T].
    rewrite <- !app_assoc, (strip_tag _ _ T), IH'. reflexivity.
Qed.

(** The third step: every entity becomes its character. *)
Lemma entities_third (ps : list piece) :
  well_formed ps = true ->
  decodeHtmlEntities (without_tags ps) = reading ps.
Proof.
  unfold reading.
  induction ps as [|p ps IH]; intros W; [reflexivity|].
  pose proof (IH (well_formed_cons p ps W)) as IH'.
  unfold without_tags in *.
  cbn [flat_map]. destruct p; cbn [well_formed render_piece] in *;
    rewrite ?andb_true_iff in W.
  - destruct W as [T _]. apply plain_text_spec in T as [_ T].
    rewrite (decode_text _ _ T), IH'. reflexivity.
  - destruct W as [[T A] _]. apply in_entity_table_spec in T.
    destruct (eqb e (str "&amp;")) eqn:E.
    + apply eqb_eq in E. subst e. cbn [negb orb] in A.
      assert (C : c = str "&").
      { cbn [In entity_table] in T.
        repeat (destruct T as [T|T];
                [pose proof (f_equal fst T) as T1;
                 pose proof (f_equal snd T) as T2;
                 cbn [fst snd] in T1, T2;
                 first [cbv in T1; discriminate T1 | symmetry; exact T2]|]).
        destruct T. }
      subst c. rewrite decode_amp, IH'; [reflexivity|].
      intros e c H. unfold no_second_entity in A.
      rewrite forallb_forall in A. specialize (A (e, c) H).
      apply negb_true_iff in A. exact A.
    + apply eqb_neq in E.
      rewrite (decode_entity e c _ T E), IH'. reflexivity.
  - change ([LF] ++ ?x) with (LF :: x). rewrite decode_other, IH'.
    + reflexivity.
    + discriminate.
  - exact IH'.
Qed.

(** C9: when a strategy selects the content [c], the result of the body
    extractor is [c] with the line-break tags turned into line feeds, then
    the tags stripped, then the entities decoded, then the lines split,
    trimmed, the empty ones dropped, and joined again; no diagnostic is
    written.  On marked-up content each step does what its name says and
    no more.  First every line-break tag becomes a line feed and nothing
    else changes.  Then every other tag is removed and the entities stay.
    Then every entity becomes its character.  The result is what a reader
    of the page sees, line by line: a character [<] or [>] that comes out
    of an entity is kept, because the tags are stripped before the
    entities are decoded, and white space that comes out of an entity at
    the end of a line is trimmed. *)
Theorem body_normalisation_order (a : site) (html c : jsstring) :
  body_selection a html = Some c ->
  extractBody a html =
  (join_lines
     (filter (fun line => 0 <? length line)
        (map trim
           (split_lines
              (decodeHtmlEntities
                 (stripHtmlTags
                    (replace_all br_pattern [LF] c)))))),
   []) /\
  (forall ps, well_formed ps = true -> c = render ps ->
     replace_all br_pattern [LF] c = with_line_feeds ps /\
     stripHtmlTags (with_line_feeds ps) = without_tags ps /\
     decodeHtmlEntities (without_tags ps) = reading ps /\
     extractBody a html =
     (join_lines
        (filter (fun line => 0 <? length line)
           (map trim (split_lines (reading ps)))),
      [])).
Proof.
  intros S.
  assert (G : extractBody a html = (normalize_body c, []))
    by (rewrite extractBody_selection, S; reflexivity).
  split; [exact G|].
  intros ps W ->.
  pose proof (line_breaks_first ps W) as B.
  pose proof (tags_second ps W) as T.
  pose proof (entities_third ps W) as E.
  split; [exact B|]. split; [exact T|]. split; [exact E|].
  rewrite G. unfold normalize_body. rewrite B, T, E. reflexivity.
Qed.

Lemma body_normalisation_order_witness :
  render scenario_markup
  = str " one<br/>&lt;two&gt; <b>x</b> &amp; y&nbsp;" /\
  extractBody kakuyomu scenario_markup_page
  = (str "one" ++ [LF] ++ str "<two> x & y", []).
Proof.
  split; [reflexivity|].
  destruct (body_normalisation_order kakuyomu scenario_markup_page
              (render scenario_markup)) as [_ H].
  - vm_compute; reflexivity.
  - destruct (H scenario_markup) as (_ & _ & _ & R).
    + vm_compute; reflexivity.
    + reflexivity.
    + exact R.
Defined.

(* ===================================================================== *)
(** ** The lines of an extracted body                                     *)
(* ===================================================================== *)

Lemma trimStart_fixed (s : jsstring) :
  (forall c rest, s = c :: rest -> is_space c = false) -> trimStart s = s.
Proof.
  destruct s as [|c s]; [reflexivity|]. intros H. cbn [trimStart].
  rewrite (H c s eq_refl). reflexivity.
Qed.

Lemma trimStart_head (s : jsstring) (c : N) (rest : jsstring) :
  trimStart s = c :: rest -> is_space c = false.
Proof.
  induction s as [|x s IH]; cbn [trimStart]; [discriminate|].
  destruct (is_space x) eqn:E; [exact IH|].
  intros [= <- <-]. exact E.
Qed.

(** [trimStart] drops a prefix. *)
Lemma trimStart_suffix (s : jsstring) :
  exists p, s = p ++ trimStart s.
Proof.
  induction s as [|x s [p IH]]; [exists []; reflexivity|].
  cbn [trimStart]. destruct (is_space x).
  - exists (x :: p). cbn [app]. rewrite <- IH. reflexivity.
  - exists []. reflexivity.
Qed.

(** [trim] drops a prefix and a suffix. *)
Lemma trim_middle (s : jsstring) :
  exists p q, s = p ++ trim s ++ q.
Proof.
  unfold trim, trimEnd.
  destruct (trimStart_suffix s) as [p Hp].
  destruct (trimStart_suffix (rev (trimStart s))) as [q Hq].
  exists p, (rev q).
  rewrite <- rev_app_distr, <- Hq, rev_involutive. exact Hp.
Qed.

Lemma trim_In (s : jsstring) (c : N) : In c (trim s) -> In c s.
Proof.
  destruct (trim_middle s) as (p & q & E). intros H. rewrite E.
  apply in_or_app. right. apply in_or_app. left. exact H.
Qed.

Lemma trim_last (s : jsstring) (c : N) (front : jsstring) :
  trim s = front ++ [c] -> is_space c = false.
Proof.
  unfold trim, trimEnd. intros H.
  apply (f_equal (@rev N)) in H.
  rewrite rev_involutive, rev_app_distr in H. cbn [rev app] in H.
  eapply trimStart_head; exact H.
Qed.

Lemma trim_first (s : jsstring) (c : N) (rest : jsstring) :
  trim s = c :: rest -> is_space c = false.
Proof.
  unfold trim, trimEnd. intros H.
  destruct (trimStart_suffix (rev (trimStart s))) as [q Hq].
  apply (f_equal (@rev N)) in Hq.
  rewrite rev_involutive, rev_app_distr, H in Hq.
  cbn [app] in Hq.
  eapply trimStart_head. exact Hq.
Qed.

(** A line without white space at its ends is left alone by [trim]. *)
Lemma trim_fixed (l : jsstring) :
  (forall c rest, l = c :: rest -> is_space c = false) ->
  (forall c front, l = front ++ [c] -> is_space c = false) ->
  trim l = l.
Proof.
  intros F L. unfold trim, trimEnd. rewrite (trimStart_fixed l F).
  rewrite trimStart_fixed; [apply rev_involutive|].
  intros c rest H. apply (L c (rev rest)).
  rewrite <- (rev_involutive l), H. reflexivity.
Qed.

Lemma split_lines_not_nil (s : jsstring) : split_lines s <> [].
Proof.
  induction s as [|c s IH]; cbn [split_lines]; [discriminate|].
  destruct (N.eqb c LF); [discriminate|].
  destruct (split_lines s); [congruence | discriminate].
Qed.

Lemma split_lines_no_LF (s : jsstring) :
  Forall (fun l => ~ In LF l) (split_lines s).
Proof.
  induction s as [|c s IH]; cbn [split_lines].
  - constructor; [intros [] | constructor].
  - destruct (N.eqb c LF) eqn:E.
    + constructor; [intros [] | exact IH].
    + apply N.eqb_neq in E. destruct (split_lines s) as [|l ls].
      * constructor; [intros [H|[]]; congruence | constructor].
      * inversion IH as [|? ? Hl Hls]; subst. constructor; [|exact Hls].
        intros [H|H]; [congruence | auto].
Qed.

Lemma split_lines_app (l r : jsstring) :
  ~ In LF l -> split_lines (l ++ LF :: r) = l :: split_lines r.
Proof.
  induction l as [|c l IH]; intros H.
  - cbn [app split_lines]. rewrite N.eqb_refl. reflexivity.
  - cbn [app split_lines].
    assert (E : N.eqb c LF = false)
      by (apply N.eqb_neq; intros ->; apply H; left; reflexivity).
    rewrite E, IH; [reflexivity|]. intros X. apply H. right. exact X.
Qed.

Lemma split_lines_single (l : jsstring) :
  ~ In LF l -> split_lines l = [l].
Proof.
  induction l as [|c l IH]; intros H; [reflexivity|].
  cbn [split_lines].
  assert (E : N.eqb c LF = false)
    by (apply N.eqb_neq; intros ->; apply H; left; reflexivity).
  rewrite E, IH; [reflexivity|]. intros X. apply H. right. exact X.
Qed.

(** Splitting what [join] has put together gives the lines back. *)
Lemma split_join (ls : list jsstring) :
  ls <> [] -> Forall (fun l => ~ In LF l) ls ->
  split_lines (join_lines ls) = ls.
Proof.
  induction ls as [|l ls IH]; [congruence|]. intros _ F.
  inversion F as [|? ? Hl Hls]; subst.
  destruct ls as [|l2 ls].
  - cbn [join_lines]. apply split_lines_single, Hl.
  - change (join_lines (l :: l2 :: ls))
      with (l ++ LF :: join_lines (l2 :: ls)).
    rewrite (split_lines_app l _ Hl), IH; [reflexivity | discriminate|].
    exact Hls.
Qed.

(** The lines that the cleaning keeps. *)
Lemma cleaned_lines (content : jsstring) :
  Forall clean_line
    (filter (fun line => 0 <? length line) (map trim (split_lines content))).
Proof.
  apply Forall_forall. intros l H.
  apply filter_In in H as [H N0]. apply in_map_iff in H as (l0 & <- & H0).
  pose proof (split_lines_no_LF content) as NL.
  rewrite Forall_forall in NL. specialize (NL l0 H0).
  repeat split.
  - intros E. rewrite E in N0. discriminate.
  - intros X. apply NL. eapply trim_In; exact X.
  - intros c rest. apply trim_first.
  - intros c front. apply trim_last.
Qed.

Lemma clean_lines_fixed (ls : list jsstring) :
  Forall clean_line ls ->
  filter (fun line => 0 <? length line) (map trim ls) = ls.
Proof.
  induction 1 as [|l ls (N0 & _ & F & L) _ IH]; [reflexivity|].
  cbn [map filter]. rewrite (trim_fixed l F L), IH.
  destruct l; [congruence | reflexivity].
Qed.

(** The body of either adapter is a join of clean lines. *)
Lemma extractBody_lines (a : site) (html : jsstring) :
  exists ls, fst (extractBody a html) = join_lines ls /\ Forall clean_line ls.
Proof.
  rewrite extractBody_selection.
  destruct (body_selection a html) as [c|].
  - eexists. split; [reflexivity|]. apply cleaned_lines.
  - exists []. split; [reflexivity | constructor].
Qed.

(** X3: the body that [extractNovelContent] of either adapter returns is
    empty or made of clean lines: splitting it at the line feeds gives
    lines that are not empty and have no white space at either end, so
    the body has no blank line and neither starts nor ends with white
    space.  Cleaning the body once more changes nothing. *)
Theorem body_lines_clean (a : site) (html : jsstring) :
  let body := fst (extractBody a html) in
  (body = [] \/ Forall clean_line (split_lines body)) /\
  join_lines
    (filter (fun line => 0 <? length line) (map trim (split_lines body)))
  = body.
Proof.
  cbv zeta. destruct (extractBody_lines a html) as (ls & -> & F).
  destruct ls as [|l ls]; [split; [left|]; reflexivity|].
  assert (S : split_lines (join_lines (l :: ls)) = l :: ls).
  { apply split_join; [discriminate|].
    eapply Forall_impl; [|exact F]. intros x (_ & H & _). exact H. }
  rewrite S. split; [right; exact F|].
  rewrite (clean_lines_fixed _ F). reflexivity.
Qed.

(* ===================================================================== *)
(** ** The outcomes of a run                                              *)
(* ===================================================================== *)

Lemma parseArguments_spec (args : list jsstring) :
  parseArguments args =
  match args with
  | [] => ([Error MsgUsage; Exit 1], Exited)
  | arg0 :: _ =>
      if has_help_flag args then ([Log MsgHelp; Exit 0], Exited)
      else ret arg0
  end.
Proof.
  unfold parseArguments, has_help_flag. destruct args as [|arg0 args];
    [reflexivity|].
  destruct (array_includes (arg0 :: args) (str "--help")
            || array_includes (arg0 :: args) (str "-h")); reflexivity.
Qed.

Lemma dispatcher_arguments_exit (URL_parse : jsstring -> option URL)
    (network : jsstring -> option jsstring) (args : list jsstring)
    (t : trace) :
  parseArguments args = (t, Exited) ->
  Dispatcher.main URL_parse network args = (t, Exited).
Proof. intros PA. unfold Dispatcher.main. rewrite PA. reflexivity. Qed.

(** Only the first argument counts. *)
Lemma main_first_argument (a : site) (URL_parse : jsstring -> option URL)
    (network : jsstring -> option jsstring) (args : list jsstring)
    (urlString : jsstring) :
  parseArguments args = ret urlString ->
  parseArguments [urlString] = ret urlString /\
  main a URL_parse network args = main a URL_parse network [urlString] /\
  Dispatcher.main URL_parse network args
  = Dispatcher.main URL_parse network [urlString].
Proof.
  intros PA.
  assert (P1 : parseArguments [urlString] = ret urlString).
  { rewrite parseArguments_spec in PA |- *.
    destruct args as [|arg0 args]; [discriminate|].
    destruct (has_help_flag (arg0 :: args)) eqn:F; [discriminate|].
    injection PA as ->.
    unfold has_help_flag, array_includes in F |- *. cbn [existsb] in F |- *.
    apply orb_false_iff in F as [F1 F2].
    apply orb_false_iff in F1 as [F1 _]. apply orb_false_iff in F2 as [F2 _].
    rewrite F1, F2. reflexivity. }
  split; [exact P1|]. split.
  - destruct a; unfold main, Ncode.main, Kakuyomu.main, main_listing;
      rewrite PA, P1; reflexivity.
  - unfold Dispatcher.main. rewrite PA, P1. reflexivity.
Qed.

(** X4: the arguments of the three scripts.  Without an argument each
    script prints its usage on the error stream and ends with status 1.
    With [--help] or [-h] anywhere among the arguments, also behind a
    URL, each script prints its help and ends with status 0, without a
    fetch or a write.  Otherwise only the first argument is used: the run
    is the run on that argument alone. *)
Theorem arguments_cases (a : site) (URL_parse : jsstring -> option URL)
    (network : jsstring -> option jsstring) (args : list jsstring) :
  match args with
  | [] =>
      main a URL_parse network args = usage_run /\
      Dispatcher.main URL_parse network args = usage_run
  | urlString :: _ =>
      if has_help_flag args then
        main a URL_parse network args = help_run /\
        Dispatcher.main URL_parse network args = help_run
      else
        main a URL_parse network args
        = main a URL_parse network [urlString] /\
        Dispatcher.main URL_parse network args
        = Dispatcher.main URL_parse network [urlString]
  end.
Proof.
  pose proof (parseArguments_spec args) as PA.
  destruct args as [|urlString rest].
  - split; [apply main_arguments_exit | apply dispatcher_arguments_exit];
      exact PA.
  - destruct (has_help_flag (urlString :: rest)).
    + split; [apply main_arguments_exit | apply dispatcher_arguments_exit];
        exact PA.
    + apply (main_first_argument a URL_parse network _ urlString PA).
Qed.

Lemma map_nth_seq (l : list jsstring) (n : nat) :
  n <= length l -> map (fun j => nth j l []) (seq 0 n) = firstn n l.
Proof.
  revert n; induction l as [|x l IH]; intros n H.
  - assert (n = 0) by (simpl in H; lia). subst. reflexivity.
  - destruct n as [|n]; [reflexivity|].
    cbn [seq map firstn nth]. f_equal.
    rewrite <- seq_shift, map_map. cbn [length] in H.
    apply IH. lia.
Qed.

Lemma chapters_requests_eq (a : site)
    (network : jsstring -> option jsstring) (html : jsstring) :
  requests (chapters_events a network html)
  = firstn (download_count a (length (extractChapterLinks a html)))
      (extractChapterLinks a html).
Proof.
  unfold chapters_events. cbv zeta.
  generalize (extractChapterLinks a html) as links. intros links.
  pose proof (download_count_le a (length links)) as B.
  destruct (0 <? length links) eqn:E.
  - rewrite <- (map_nth_seq links _ B).
    destruct a; rewrite ?requests_app, loop_requests; cbn [requests];
      rewrite ?app_nil_r; reflexivity.
  - apply Nat.ltb_ge in E.
    assert (Z : download_count a (length links) = 0) by lia.
    rewrite Z. reflexivity.
Qed.

(** The four ways a run of an adapter can go. *)
Lemma main_outcomes (a : site) (URL_parse : jsstring -> option URL)
    (network : jsstring -> option jsstring) (args : list jsstring) :
  (exists t, main a URL_parse network args = (t, Exited) /\
             requests t = [] /\ written t = [])
  \/ (exists urlString url,
        parseArguments args = ret urlString /\
        validateUrl URL_parse (domain a) urlString = ret url /\
        network (href url) = None /\
        requests (fst (main a URL_parse network args)) = [href url] /\
        written (fst (main a URL_parse network args)) = [] /\
        snd (main a URL_parse network args) = Exited /\
        exit_status (fst (main a URL_parse network args)) = 1)
  \/ (exists urlString url html,
        parseArguments args = ret urlString /\
        validateUrl URL_parse (domain a) urlString = ret url /\
        network (href url) = Some html /\
        main a URL_parse network args
        = (listing_events a url html ++ chapters_events a network html
           ++ [Log MsgDone; ListFiles (output_dir a)], Return tt)).
Proof.
  destruct (parseArguments_cases args) as [[urlString PA]|(t & PA & R & W)].
  2:{ left. exists t. split; [|auto].
      apply main_arguments_exit, PA. }
  destruct (validateUrl_quiet URL_parse (domain a) urlString) as (Q & W & NT).
  destruct (snd (validateUrl URL_parse (domain a) urlString)) as [url| |] eqn:S.
  - apply validateUrl_Return in S as (_ & _ & _ & V).
    pose proof (main_trace a URL_parse network args urlString url PA V) as T.
    destruct (network (href url)) as [html|] eqn:Hnet.
    + right. right. exists urlString, url, html. auto.
    + right. left. exists urlString, url. rewrite T.
      repeat split; auto.
  - congruence.
  - left. exists (fst (validateUrl URL_parse (domain a) urlString)).
    split; [|auto].
    apply main_validation_exit; assumption.
Qed.

(** X5: when the listing page cannot be fetched, the run of an adapter is
    over: the error is reported, the status is 1, the listing URL is the
    only URL that was asked for, and no file has been written. *)
Theorem listing_fetch_failure_fatal (a : site)
    (URL_parse : jsstring -> option URL)
    (network : jsstring -> option jsstring) (args : list jsstring)
    (urlString : jsstring) (url : URL) :
  parseArguments args = ret urlString ->
  validateUrl URL_parse (domain a) urlString = ret url ->
  network (href url) = None ->
  let run := main a URL_parse network args in
  snd run = Exited /\
  exit_status (fst run) = 1 /\
  In (Error MsgFatal) (fst run) /\
  requests (fst run) = [href url] /\
  written (fst run) = [].
Proof.
  intros PA V Hnet. cbv zeta.
  rewrite (main_trace a URL_parse network args urlString url PA V), Hnet.
  cbn [fst snd]. repeat split. do 4 right. left. reflexivity.
Qed.

Lemma listing_fetch_failure_fatal_witness :
  let run := main kakuyomu NodeURL.parse (fun _ => None)
               [str "https://kakuyomu.jp/works/7"] in
  snd run = Exited /\
  exit_status (fst run) = 1 /\
  In (Error MsgFatal) (fst run) /\
  requests (fst run) = [str "https://kakuyomu.jp/works/7"] /\
  written (fst run) = [].
Proof.
  apply (listing_fetch_failure_fatal kakuyomu NodeURL.parse (fun _ => None)
           [str "https://kakuyomu.jp/works/7"]
           (str "https://kakuyomu.jp/works/7")
           (mkURL (str "https:") (str "kakuyomu.jp")
              (str "https://kakuyomu.jp/works/7")));
    reflexivity.
Defined.

(** X7: whatever its arguments, the page and the network, a run of the
    kakuyomu adapter calls the fetcher at most four times: once for the
    listing page and at most three times for chapters. *)
Theorem kakuyomu_at_most_four_requests
    (URL_parse : jsstring -> option URL)
    (network : jsstring -> option jsstring) (args : list jsstring) :
  length (requests (fst (Kakuyomu.main URL_parse network args))) <= 4.
Proof.
  destruct (main_outcomes kakuyomu URL_parse network args)
    as [(t & M & R & _)|[(u & url & _ & _ & _ & R & _)
                         |(u & url & html & _ & _ & _ & M)]];
    cbn [main] in *.
  - rewrite M. cbn [fst]. rewrite R. simpl. lia.
  - rewrite R. simpl. lia.
  - rewrite M. cbn [fst].
    rewrite !requests_app, listing_requests, chapters_requests_eq.
    cbn [requests app download_count]. rewrite app_nil_r.
    cbn [length]. rewrite length_firstn. lia.
Qed.

(* ===================================================================== *)
(** ** Files, delays and the dispatcher                                   *)
(* ===================================================================== *)

Lemma truthy_not_nil (s : jsstring) : truthy s = true -> s <> [].
Proof. intros H ->. discriminate. Qed.

(** X8: whatever its arguments, the page and the network, a run of an
    adapter writes only into its own output directory, and only
    [index.html], a non-empty [content.txt], and non-empty chapter files
    named by a chapter number of at least 1 (at most 3 for kakuyomu).  No
    file name comes from the page or from a URL. *)
Theorem writes_confined (a : site) (URL_parse : jsstring -> option URL)
    (network : jsstring -> option jsstring) (args : list jsstring)
    (path data : jsstring) :
  In (path, data) (written (fst (main a URL_parse network args))) ->
  exists name, path = path_join (output_dir a) name /\ artifact a name data.
Proof.
  destruct (main_outcomes a URL_parse network args)
    as [(t & M & _ & W)|[(u & url & _ & _ & _ & _ & W & _)
                         |(u & url & html & _ & _ & _ & M)]].
  - rewrite M. cbn [fst]. rewrite W. intros [].
  - rewrite W. intros [].
  - rewrite M. cbn [fst].
    rewrite !written_app, listing_written, chapters_written.
    cbn [written]. rewrite app_nil_r.
    intros [[= <- <-]|H].
    { exists (str "index.html"). split; [reflexivity | left; reflexivity]. }
    apply in_app_or in H as [H|H].
    + destruct (truthy (fst (extractBody a html))) eqn:T; [|destruct H].
      destruct H as [[= <- <-]|[]].
      exists (str "content.txt"). split; [reflexivity|].
      right; left. split; [reflexivity | apply truthy_not_nil, T].
    + apply in_flat_map in H as (j & Hj & H). apply in_seq in Hj.
      unfold chapter_artifact in H.
      destruct (network (nth j (extractChapterLinks a html) []))
        as [page|]; [|destruct H].
      destruct (truthy (fst (extractBody a page))) eqn:T; [|destruct H].
      destruct H as [[= <- <-]|[]].
      exists (chapter_filename (j + 1)). split; [reflexivity|].
      right; right. exists (j + 1).
      split; [lia|]. split; [|split; [reflexivity|apply truthy_not_nil, T]].
      intros ->. cbn [download_count] in Hj. lia.
Qed.

Lemma writes_confined_witness :
  exists name,
    str "novel_output/kakuyomu/chapter_003.txt"
    = path_join (output_dir kakuyomu) name /\
    artifact kakuyomu name (str "Once upon a time").
Proof.
  apply (writes_confined kakuyomu NodeURL.parse scenario_network
           [str "https://kakuyomu.jp/works/7"]
           (str "novel_output/kakuyomu/chapter_003.txt")
           (str "Once upon a time")).
  vm_compute. do 3 right. left. reflexivity.
Defined.

Lemma bind_value (A B : Type) (a : A) (f : A -> proc B) :
  bind ([], Return a) f = f a.
Proof. apply bind_Return. Qed.

Lemma requests_as_child (t : trace) :
  requests (map Dispatcher.as_child t) = requests t.
Proof.
  induction t as [|e t IH]; [reflexivity|].
  destruct e; cbn [map Dispatcher.as_child requests]; rewrite IH;
    reflexivity.
Qed.

Lemma written_as_child (t : trace) :
  written (map Dispatcher.as_child t) = written t.
Proof.
  induction t as [|e t IH]; [reflexivity|].
  destruct e; cbn [map Dispatcher.as_child written]; rewrite IH;
    reflexivity.
Qed.

Lemma exit_status_report (t : trace) (dir : jsstring) :
  exit_status (t ++ [Log MsgDone; ListFiles dir]) = 0.
Proof.
  unfold exit_status.
  change [Log MsgDone; ListFiles dir] with ([Log MsgDone] ++ [ListFiles dir]).
  rewrite app_assoc, last_last. reflexivity.
Qed.

(** X10: for a URL that is valid for a source, the run of the dispatcher
    is the run of the adapter of that source on the same URL as far as
    the network and the disk go: the same fetches in the same order and
    the same writes.  Its status is 0 when the adapter ended with 0 and 1
    when the adapter ended with another status. *)
Theorem dispatcher_runs_adapter_of_source (a : site)
    (URL_parse : jsstring -> option URL)
    (network : jsstring -> option jsstring) (args : list jsstring)
    (urlString : jsstring) :
  parseArguments args = ret urlString ->
  valid_url URL_parse (domain a) urlString ->
  let parent := fst (Dispatcher.main URL_parse network args) in
  let child := fst (main a URL_parse network [urlString]) in
  requests parent = requests child /\
  written parent = written child /\
  exit_status parent = exit_status child /\
  (exit_status parent = 0 \/ exit_status parent = 1).
Proof.
  intros PA Hvalid. cbv zeta.
  destruct (main_first_argument a URL_parse network args urlString PA)
    as (P1 & _ & _).
  pose proof (dispatcher_valid a URL_parse urlString Hvalid) as D.
  destruct Hvalid as (url & P & S & H).
  pose proof (validateUrl_valid URL_parse (domain a) urlString url P S H) as V.
  pose proof (main_trace a URL_parse network [urlString] urlString url P1 V)
    as T.
  assert (C : Dispatcher.child_process URL_parse network
                (Dispatcher.VString (script a)) urlString
              = main a URL_parse network [urlString])
    by (destruct a; reflexivity).
  unfold Dispatcher.main. rewrite PA, bind_Return, D, bind_value.
  unfold Dispatcher.runScraper, Dispatcher.spawn_node. cbv zeta.
  rewrite C, T.
  destruct (network (href url)) as [html|].
  - cbn [fst snd].
    pose proof (exit_status_report
                  (listing_events a url html ++ chapters_events a network html)
                  (output_dir a)) as E.
    rewrite <- app_assoc in E.
    set (t := listing_events a url html ++ chapters_events a network html
              ++ [Log MsgDone; ListFiles (output_dir a)]) in *.
    unfold bind, emit, try_catch, ret, throw. cbn [Nat.eqb fst snd].
    cbv beta iota zeta. cbn [fst].
    rewrite !requests_app, !written_app, requests_as_child, written_as_child.
    cbn [requests written app]. rewrite !app_nil_r, E.
    assert (X : exit_status
                  (Log MsgRunning
                   :: map Dispatcher.as_child t ++ [Log MsgAllDone]) = 0).
    { unfold exit_status.
      change (Log MsgRunning
              :: map Dispatcher.as_child t ++ [Log MsgAllDone])
        with ((Log MsgRunning :: map Dispatcher.as_child t)
              ++ [Log MsgAllDone]).
      rewrite last_last. reflexivity. }
    rewrite X. repeat split; auto.
  - split; [reflexivity|]. split; [reflexivity|].
    split; [reflexivity | right; reflexivity].
Qed.

Lemma dispatcher_runs_adapter_of_source_witness :
  let parent := fst (Dispatcher.main NodeURL.parse scenario_network
                       [str "https://kakuyomu.jp/works/7"]) in
  let child := fst (main kakuyomu NodeURL.parse scenario_network
                      [str "https://kakuyomu.jp/works/7"]) in
  requests parent = requests child /\
  written parent = written child /\
  exit_status parent = exit_status child /\
  (exit_status parent = 0 \/ exit_status parent = 1).
Proof.
  apply (dispatcher_runs_adapter_of_source kakuyomu NodeURL.parse
           scenario_network [str "https://kakuyomu.jp/works/7"]
           (str "https://kakuyomu.jp/works/7") eq_refl).
  exists (mkURL (str "https:") (str "kakuyomu.jp")
            (str "https://kakuyomu.jp/works/7")).
  repeat split.
Defined.

(** X11: [validateUrlAndGetScraper] returns only for an input that parses
    as a URL with the https scheme.  When the host is a registered domain
    it returns the script of that domain.  The lookup in the table of
    scrapers also finds what every object inherits: for a host that is
    such a name, like [constructor], it returns the inherited member and
    not a script name, without a diagnostic.  For every other host it
    ends the process. *)
Theorem scraper_lookup (URL_parse : jsstring -> option URL)
    (urlString : jsstring) (v : Dispatcher.jsvalue) :
  snd (Dispatcher.validateUrlAndGetScraper URL_parse urlString) = Return v ->
  fst (Dispatcher.validateUrlAndGetScraper URL_parse urlString) = [] /\
  exists url,
    URL_parse urlString = Some url /\ protocol url = str "https:" /\
    ((exists a, hostname url = domain a /\
                v = Dispatcher.VString (script a))
     \/ ((forall a, hostname url <> domain a) /\
         In (hostname url) Dispatcher.Object_prototype_keys /\
         v = Dispatcher.VInherited (hostname url))).
Proof.
  unfold Dispatcher.validateUrlAndGetScraper, new_URL.
  destruct (URL_parse urlString) as [u|]; [|discriminate].
  rewrite bind_Return.
  destruct (eqb (protocol u) (str "https:")) eqn:E1; [|discriminate].
  apply eqb_eq in E1. simpl negb. cbv iota. rewrite bind_Return.
  unfold Dispatcher.get.
  destruct (Dispatcher.own_property Dispatcher.SUPPORTED_SCRAPERS
              (hostname u)) as [s|] eqn:O.
  - apply own_property_supported in O as (a & Hd & ->).
    destruct a; cbn; intros [= <-];
      (split; [reflexivity|]); exists u; repeat split; auto; left;
      [exists ncode | exists kakuyomu]; auto.
  - destruct (array_includes Dispatcher.Object_prototype_keys (hostname u))
      eqn:I; [|discriminate].
    apply array_includes_In in I.
    cbn [Dispatcher.value_truthy negb]. rewrite bind_Return.
    cbn [try_catch ret fst snd]. intros [= <-]. split; [reflexivity|].
    exists u. split; [reflexivity|]. split; [assumption|]. right.
    split; [|split; [exact I | reflexivity]].
    intros a Hd.
    assert (X : Dispatcher.own_property Dispatcher.SUPPORTED_SCRAPERS
                  (hostname u) = Some (script a))
      by (apply own_property_supported; exists a; auto).
    congruence.
Qed.

Lemma scraper_lookup_witness :
  fst (Dispatcher.validateUrlAndGetScraper NodeURL.parse
         (str "https://constructor/works/7")) = [] /\
  exists url,
    NodeURL.parse (str "https://constructor/works/7") = Some url /\
    protocol url = str "https:" /\
    ((exists a, hostname url = domain a /\
                Dispatcher.VInherited (str "constructor")
                = Dispatcher.VString (script a))
     \/ ((forall a, hostname url <> domain a) /\
         In (hostname url) Dispatcher.Object_prototype_keys /\
         Dispatcher.VInherited (str "constructor")
         = Dispatcher.VInherited (hostname url))).
Proof.
  apply (scraper_lookup NodeURL.parse (str "https://constructor/works/7")
           (Dispatcher.VInherited (str "constructor"))).
  reflexivity.
Defined.

(* ===================================================================== *)
(** ** Runs on a disk that can fail                                       *)
(* ===================================================================== *)

Lemma delay_first_app (t1 t2 : trace) :
  delay_first t2 = false -> delay_first (t1 ++ t2) = delay_first t1.
Proof.
  intros H. induction t1 as [|e t1 IH]; [exact H|].
  destruct e; cbn [app delay_first]; auto.
Qed.

Lemma paced_on_disk_app (disk : fs_call -> bool) (a : site)
    (network : jsstring -> option jsstring) (k : nat) (t1 t2 : trace) :
  requests t1 = [] ->
  paced_on_disk disk a network k (t1 ++ t2)
  = paced_on_disk disk a network k t2.
Proof.
  induction t1 as [|e t1 IH]; intros R; [reflexivity|].
  destruct e; cbn [requests] in R; try discriminate R;
    cbn [app paced_on_disk]; auto.
Qed.

(** One round of the loop on the disk: every failure, of the fetch or of
    the write, is caught inside the round, and the delay is reached
    exactly when nothing was thrown. *)
Lemma disk_round (disk : fs_call -> bool) (a : site)
    (network : jsstring -> option jsstring) (links : list jsstring)
    (j : nat) :
  exists tail,
    Disk.download_chapter disk network (output_dir a) (extractTitle a)
      (extractBody a) links j
    = (Log (MsgDownloading (j + 1) (nth j links []))
         :: Request (nth j links []) :: tail, Return tt) /\
    requests tail = [] /\
    (forall ms, In (Sleep ms) tail -> ms = 1000 /\ delay_first tail = true) /\
    delay_first tail
    = match network (nth j links []) with
      | None => false
      | Some html =>
          negb (truthy (fst (extractBody a html)))
          || disk (WriteTo (path_join (output_dir a)
                              (chapter_filename (j + 1)))
                     (fst (extractBody a html)))
      end.
Proof.
  unfold Disk.download_chapter, Disk.writeFileSync, fetchUrl, lift.
  cbv zeta.
  destruct (network (nth j links [])) as [html|].
  - cbn [bind emit ret throw try_catch app fst snd].
    destruct (extractBody_diags a html) as [E|E]; rewrite E;
      (destruct (truthy (fst (extractBody a html)));
       [destruct (disk (WriteTo (path_join (output_dir a)
                                   (chapter_filename (j + 1)))
                          (fst (extractBody a html))))|]);
      cbn [bind emit ret throw try_catch app fst snd negb orb];
      eexists; (split; [reflexivity|]); (split; [reflexivity|]);
      (split; [|reflexivity]); intros ms H;
      repeat (destruct H as [H|H];
              [first [discriminate H
                     | injection H as <-; split; reflexivity]|]);
      destruct H.
  - cbn [bind emit ret throw try_catch app fst snd].
    eexists. split; [reflexivity|]. split; [reflexivity|].
    split; [|reflexivity]. intros ms [H|[]]. discriminate H.
Qed.

(** The loop on the disk: one round for every index, whatever fails. *)
Lemma disk_loop (disk : fs_call -> bool) (a : site)
    (network : jsstring -> option jsstring) (links : list jsstring)
    (n i : nat) :
  exists t,
    Disk.chapter_loop disk network (output_dir a) (extractTitle a)
      (extractBody a) links n i = (t, Return tt) /\
    requests t = map (fun j => nth j links []) (seq i n) /\
    paced_on_disk disk a network (i + 1) t = true /\
    delay_first t = false /\
    (forall ms, In (Sleep ms) t -> ms = 1000).
Proof.
  revert i; induction n as [|n IH]; intros i; cbn [Disk.chapter_loop seq map].
  - exists []. repeat split; intros ms [].
  - destruct (disk_round disk a network links i) as (tail & E & R & Sl & D).
    destruct (IH (S i)) as (t2 & E2 & R2 & P2 & D2 & Sl2).
    rewrite E, E2. cbn [bind].
    eexists. split; [reflexivity|].
    cbn [app requests paced_on_disk delay_first].
    rewrite requests_app, R, R2, (delay_first_app _ _ D2), D,
      (paced_on_disk_app _ _ _ _ _ _ R).
    split; [reflexivity|]. split.
    { change (S (i + 1)) with (S i + 1). rewrite P2.
      destruct (network (nth i links [])) as [html|]; [|reflexivity].
      rewrite Bool.eqb_reflx. reflexivity. }
    split; [reflexivity|].
    intros ms [H|[H|H]]; try discriminate H.
    apply in_app_or in H as [H|H]; [apply (Sl ms H) | apply (Sl2 ms H)].
Qed.

(** X9: in the chapter loop, on a disk where a write can fail, a fetch
    is followed by the delay of one second before the next fetch exactly
    when the fetch succeeded and the chapter file, if the chapter has a
    body, could be written.  A failed fetch and a failed write both end
    the round in its [catch], which skips the delay.  There is no delay
    before the first fetch, and every delay is 1000 ms. *)
Theorem chapter_loop_paced (disk : fs_call -> bool) (a : site)
    (network : jsstring -> option jsstring) (links : list jsstring)
    (n i : nat) :
  let t := fst (Disk.chapter_loop disk network (output_dir a)
                  (extractTitle a) (extractBody a) links n i) in
  paced_on_disk disk a network (i + 1) t = true /\
  delay_first t = false /\
  (forall ms, In (Sleep ms) t -> ms = 1000).
Proof.
  cbv zeta.
  destruct (disk_loop disk a network links n i) as (t & E & _ & P & D & Sl).
  rewrite E. cbn [fst]. auto.
Qed.

Lemma links_NoDup (a : site) (html : jsstring) :
  NoDup (extractChapterLinks a html).
Proof.
  destruct a; cbn [extractChapterLinks];
    unfold Ncode.extractChapterLinks, Kakuyomu.extractChapterLinks;
    (eapply Permutation_NoDup; [apply sort_perm|]).
  - apply ncode_collect_NoDup; constructor.
  - apply kakuyomu_collect_NoDup; constructor.
Qed.

Lemma NoDup_firstn (l : list jsstring) (n : nat) :
  NoDup l -> NoDup (firstn n l).
Proof.
  revert n; induction l as [|x l IH]; intros n N; destruct n; cbn [firstn];
    try constructor.
  - inversion N as [|? ? Hx Hl]; subst. intros X. apply Hx.
    rewrite <- (firstn_skipn n l). apply in_or_app. left. exact X.
  - inversion N; subst. auto.
Qed.

(** The chapter part of a run on the disk always returns, and asks for
    the first links in their order. *)
Lemma disk_chapters (disk : fs_call -> bool) (a : site)
    (network : jsstring -> option jsstring) (links : list jsstring) :
  exists t,
    match a with
    | ncode =>
        if 0 <? length links
        then
          emit (Log MsgStartDownload) ;;
          Disk.chapter_loop disk network Ncode.OUTPUT_DIR Ncode.extractTitle
            Ncode.extractNovelContent links (length links) 0
        else emit (Log MsgNoLinks)
    | kakuyomu =>
        if 0 <? length links
        then
          emit (Log (MsgFoundChapters (length links))) ;;
          emit (Log MsgFirstThree) ;;
          Disk.chapter_loop disk network Kakuyomu.OUTPUT_DIR
            Kakuyomu.extractTitle Kakuyomu.extractNovelContent links
            (Nat.min 3 (length links)) 0 ;;
          emit (Log (MsgChapterList links))
        else emit (Log MsgNoLinks)
    end = (t, Return tt) /\
    requests t
    = firstn (match a with ncode => length links | kakuyomu => 3 end) links.
Proof.
  destruct (0 <? length links) eqn:L.
  - destruct a.
    + destruct (disk_loop disk ncode network links (length links) 0)
        as (t & E & R & _).
      cbn [output_dir extractTitle extractBody] in E.
      rewrite E. cbn [bind emit]. eexists. split; [reflexivity|].
      cbn [app requests]. rewrite R. apply map_nth_seq. lia.
    + destruct (disk_loop disk kakuyomu network links
                  (Nat.min 3 (length links)) 0) as (t & E & R & _).
      cbn [output_dir extractTitle extractBody] in E.
      rewrite E. cbn [bind emit]. eexists. split; [reflexivity|].
      cbn [app requests]. rewrite requests_app, R. cbn [requests].
      rewrite app_nil_r, map_nth_seq by lia.
      destruct (Nat.le_ge_cases 3 (length links)) as [B|B].
      * rewrite Nat.min_l by exact B. reflexivity.
      * rewrite Nat.min_r by exact B. rewrite !firstn_all2 by lia.
        reflexivity.
  - apply Nat.ltb_ge in L. destruct links; [|cbn [length] in L; lia].
    destruct a; eexists; (split; [reflexivity|]); reflexivity.
Qed.

Lemma bind_trace (A B : Type) (t : trace) (a : A) (f : A -> proc B) :
  bind (t, Return a) f = (t ++ fst (f a), snd (f a)).
Proof. unfold bind. destruct (f a). reflexivity. Qed.

Lemma exit_status_exit (t : trace) (e : event) (code : nat) :
  exit_status (t ++ [e; Exit code]) = code.
Proof.
  unfold exit_status. change [e; Exit code] with ([e] ++ [Exit code]).
  rewrite app_assoc, last_last. reflexivity.
Qed.

(** The listing part of a run on the disk: it returns the page when the
    disk takes the directory and the files, and throws otherwise; the
    page is asked for unless the directory has failed. *)
Lemma disk_listing (disk : fs_call -> bool) (a : site)
    (URL_parse : jsstring -> option URL)
    (network : jsstring -> option jsstring) (args : list jsstring)
    (urlString : jsstring) (url : URL) (html : jsstring) :
  parseArguments args = ret urlString ->
  validateUrl URL_parse (domain a) urlString = ret url ->
  network (href url) = Some html ->
  exists t,
    Disk.main_listing disk URL_parse network (domain a) (output_dir a)
      (extractTitle a) (extractBody a) args
    = (t, if listing_stored disk a html then Return html else Throw) /\
    requests t = (if disk (Mkdir (output_dir a)) then [href url] else []).
Proof.
  intros PA V Hnet.
  pose proof (extractBody_requests a html) as RB.
  unfold listing_stored, Disk.main_listing, Disk.ensureOutputDir,
    Disk.writeFileSync, fetchUrl, lift.
  cbv zeta. rewrite PA, bind_Return, V, bind_Return, Hnet.
  destruct (disk (Mkdir (output_dir a)));
    cbn [bind emit ret throw fst snd app andb];
    [|eexists; split; reflexivity].
  destruct (disk (WriteTo (path_join (output_dir a) (str "index.html"))
                    html));
    cbn [bind emit ret throw fst snd app andb];
    [|eexists; split; reflexivity].
  destruct (truthy (fst (extractBody a html)));
    [destruct (disk (WriteTo (path_join (output_dir a) (str "content.txt"))
                       (fst (extractBody a html))))|];
    cbn [bind emit ret throw fst snd app andb negb orb];
    (eexists; split; [reflexivity|]);
    cbn [requests]; rewrite ?requests_app, RB; reflexivity.
Qed.

(** X6: a run of an adapter whose listing page is fetched, on a disk
    where a call can fail.  The run ends normally with status 0 exactly
    when the output directory, the file of the page, the file of its
    content when it has one, and the closing file listing succeed on the
    disk, and through the outer [catch] with status 1 otherwise; a chapter
    that cannot be fetched or written changes neither.  Nothing is fetched
    when the directory fails, and only the listing page when a file of
    the listing part fails.  Otherwise the listing URL is fetched and then
    the discovered links in their sorted order, each once, all of them
    for ncode and the first three for kakuyomu. *)
Theorem run_fetches_links_in_order (disk : fs_call -> bool) (a : site)
    (URL_parse : jsstring -> option URL)
    (network : jsstring -> option jsstring) (args : list jsstring)
    (urlString : jsstring) (url : URL) (html : jsstring) :
  parseArguments args = ret urlString ->
  validateUrl URL_parse (domain a) urlString = ret url ->
  network (href url) = Some html ->
  let run := Disk.main disk a URL_parse network args in
  let links :=
    firstn (match a with
            | ncode => length (extractChapterLinks a html)
            | kakuyomu => 3
            end) (extractChapterLinks a html) in
  let done := listing_stored disk a html && disk (ReadDir (output_dir a)) in
  snd run = (if done then Return tt else Exited) /\
  exit_status (fst run) = (if done then 0 else 1) /\
  requests (fst run)
  = (if disk (Mkdir (output_dir a))
     then href url :: (if listing_stored disk a html then links else [])
     else []) /\
  NoDup (tl (requests (fst run))).
Proof.
  intros PA V Hnet. cbv zeta.
  assert (N : NoDup
                (firstn (match a with
                         | ncode => length (extractChapterLinks a html)
                         | kakuyomu => 3
                         end) (extractChapterLinks a html)))
    by apply NoDup_firstn, links_NoDup.
  destruct (disk_chapters disk a network (extractChapterLinks a html))
    as (C & EC & RC).
  rewrite <- RC in *. clear RC.
  destruct (disk_listing disk a URL_parse network args urlString url html
              PA V Hnet) as (tL & EL & RL).
  assert (F : snd (Disk.main_report disk (output_dir a))
              = (if disk (ReadDir (output_dir a)) then Return tt else Throw)
              /\ requests (fst (Disk.main_report disk (output_dir a))) = []
              /\ (disk (ReadDir (output_dir a)) = true ->
                  exists t, fst (Disk.main_report disk (output_dir a))
                            = t ++ [Log MsgDone; ListFiles (output_dir a)])).
  { unfold Disk.main_report. destruct (disk (ReadDir (output_dir a)));
      cbn [bind emit throw fst snd app requests].
    - split; [reflexivity|]. split; [reflexivity|]. intros _. exists [].
      reflexivity.
    - split; [reflexivity|]. split; [reflexivity|]. discriminate. }
  destruct F as (FS & FR & FT).
  assert (M : Disk.main disk a URL_parse network args
              = if listing_stored disk a html
                then try_catch
                       (tL ++ C ++ fst (Disk.main_report disk (output_dir a)),
                        snd (Disk.main_report disk (output_dir a)))
                       main_catch
                else (tL ++ [Error MsgFatal; Exit 1], Exited)).
  { destruct a; cbn [Disk.main domain output_dir extractTitle extractBody
                     extractChapterLinks] in *;
      unfold Disk.ncode_main, Disk.kakuyomu_main; cbv zeta; rewrite EL;
      (destruct (listing_stored disk _ html); [|reflexivity]);
      rewrite bind_trace; cbv beta; rewrite EC, bind_trace;
      cbn [fst snd]; reflexivity. }
  rewrite M. clear M EL EC.
  destruct (listing_stored disk a html) eqn:LS; cbn [andb].
  - assert (MK : disk (Mkdir (output_dir a)) = true).
    { unfold listing_stored in LS.
      destruct (disk (Mkdir (output_dir a))); [reflexivity | discriminate LS]. }
    rewrite MK in *. rewrite FS.
    assert (R : requests
                  (tL ++ C ++ fst (Disk.main_report disk (output_dir a)))
                = href url :: requests C).
    { rewrite !requests_app, RL, FR, app_nil_r. reflexivity. }
    destruct (disk (ReadDir (output_dir a))) eqn:RD;
      cbn [try_catch main_catch bind emit exit fst snd app].
    + destruct (FT eq_refl) as (t & E).
      split; [reflexivity|]. split.
      { rewrite E, !app_assoc. apply exit_status_report. }
      rewrite R. split; [reflexivity | exact N].
    + split; [reflexivity|]. split; [apply exit_status_exit|].
      rewrite requests_app, R. cbn [requests]. rewrite app_nil_r.
      split; [reflexivity | exact N].
  - cbn [fst snd].
    split; [reflexivity|]. split; [apply exit_status_exit|].
    rewrite requests_app, RL. cbn [requests]. rewrite app_nil_r.
    split; [reflexivity|].
    destruct (disk (Mkdir (output_dir a))); constructor.
Qed.

Lemma run_fetches_links_in_order_witness :
  let run := Disk.main scenario_disk kakuyomu NodeURL.parse scenario_network
               [str "https://kakuyomu.jp/works/7"] in
  snd run = Return tt /\
  exit_status (fst run) = 0 /\
  requests (fst run)
  = [str "https://kakuyomu.jp/works/7";
     str "https://kakuyomu.jp/works/7/episodes/1";
     str "https://kakuyomu.jp/works/7/episodes/2";
     str "https://kakuyomu.jp/works/7/episodes/3"] /\
  NoDup (tl (requests (fst run))).
Proof.
  pose proof (run_fetches_links_in_order scenario_disk kakuyomu
                NodeURL.parse scenario_network
                [str "https://kakuyomu.jp/works/7"]
                (str "https://kakuyomu.jp/works/7")
                (mkURL (str "https:") (str "kakuyomu.jp")
                   (str "https://kakuyomu.jp/works/7"))
                scenario_listing eq_refl eq_refl eq_refl) as H.
  cbv zeta in H. cbv zeta.
  vm_compute in H. vm_compute. exact H.
Defined.

(** On a disk where every call succeeds the loop and the runs are those
    of the sections on the adapters. *)
Lemma reliable_disk_loop (network : jsstring -> option jsstring)
    (dir : jsstring) (title : jsstring -> jsstring)
    (body : jsstring -> jsstring * trace) (links : list jsstring)
    (n i : nat) :
  Disk.chapter_loop (fun _ => true) network dir title body links n i
  = chapter_loop network dir title body links n i.
Proof.
  revert i; induction n as [|n IH]; intros i; [reflexivity|].
  cbn [Disk.chapter_loop chapter_loop]. rewrite IH. reflexivity.
Qed.

Lemma reliable_disk (a : site) (URL_parse : jsstring -> option URL)
    (network : jsstring -> option jsstring) (args : list jsstring) :
  Disk.main (fun _ => true) a URL_parse network args
  = main a URL_parse network args.
Proof.
  destruct a; cbn [Disk.main main];
    unfold Disk.ncode_main, Disk.kakuyomu_main, Ncode.main, Kakuyomu.main;
    cbv zeta.
  - change (Disk.main_listing (fun _ => true) URL_parse network
              Ncode.ALLOWED_DOMAIN Ncode.OUTPUT_DIR Ncode.extractTitle
              Ncode.extractNovelContent args)
      with (main_listing URL_parse network Ncode.ALLOWED_DOMAIN
              Ncode.OUTPUT_DIR Ncode.extractTitle Ncode.extractNovelContent
              args).
    destruct (main_listing URL_parse network Ncode.ALLOWED_DOMAIN
                Ncode.OUTPUT_DIR Ncode.extractTitle
                Ncode.extractNovelContent args) as [t [html| |]];
      [|reflexivity|reflexivity].
    rewrite !bind_trace. cbv beta. rewrite reliable_disk_loop. reflexivity.
  - change (Disk.main_listing (fun _ => true) URL_parse network
              Kakuyomu.ALLOWED_DOMAIN Kakuyomu.OUTPUT_DIR
              Kakuyomu.extractTitle Kakuyomu.extractNovelContent args)
      with (main_listing URL_parse network Kakuyomu.ALLOWED_DOMAIN
              Kakuyomu.OUTPUT_DIR Kakuyomu.extractTitle
              Kakuyomu.extractNovelContent args).
    destruct (main_listing URL_parse network Kakuyomu.ALLOWED_DOMAIN
                Kakuyomu.OUTPUT_DIR Kakuyomu.extractTitle
                Kakuyomu.extractNovelContent args) as [t [html| |]];
      [|reflexivity|reflexivity].
    rewrite !bind_trace. cbv beta. rewrite reliable_disk_loop. reflexivity.
Qed.

(* ===================================================================== *)
(** ** The links of the ncode adapter and the titles                      *)
(* ===================================================================== *)

(** What a pattern of the shape l0 ( [^q]* m \d+ [^q]* ) l3 matches. *)
Lemma marked_number_match (l0 m l3 : jsstring) (q : N)
    (s cap rest : jsstring) :
  exec_here [ALit l0; AOpen; AStar (CNot q); ALit m; APlus CDigit;
             AStar (CNot q); AClose; ALit l3] s = Some (cap, rest) ->
  exists pre d post,
    cap = pre ++ m ++ d ++ post /\ digits d /\
    ~ In q pre /\ ~ In q post /\
    s = l0 ++ cap ++ l3 ++ rest.
Proof.
  unfold exec_here. cbn [exec_at]. intros H.
  literal_in H.
  apply star_greedy_sound in H as (pre & s2 & -> & F1 & H).
  literal_in H.
  apply plus_greedy_sound in H as (d & s4 & -> & N1 & D1 & H).
  apply star_greedy_sound in H as (post & s5 & -> & F2 & H).
  literal_in H.
  injection H as <- <-.
  match goal with
  | |- context [firstn _ (pre ++ m ++ d ++ post ++ l3 ++ ?r)] =>
      replace (pre ++ m ++ d ++ post ++ l3 ++ r)
        with ((pre ++ m ++ d ++ post) ++ l3 ++ r)
        by (rewrite <- !app_assoc; reflexivity)
  end.
  rewrite capture_firstn.
  exists pre, d, post. rewrite <- !not_class.
  repeat split; auto using digit_class.
Qed.

(** X12: the ncode adapter only discovers the chapters of the one work
    whose identifier is written into its link pattern: every link it
    returns comes from an href of the page that holds [n9734kw/] followed
    by a digit, taken as it is or put behind the origin of the site; a
    page in which [n9734kw/] does not occur has no chapter links at
    all. *)
Theorem ncode_links_one_work (html : jsstring) :
  (forall l, In l (Ncode.extractChapterLinks html) ->
     exists pre d post,
       let href := pre ++ str "n9734kw/" ++ d ++ post in
       digits d /\ ~ In DQ pre /\ ~ In DQ post /\
       l = Ncode.resolve_link href /\
       exists before after,
         html = before ++ str "href=" ++ [DQ] ++ href ++ [DQ] ++ after) /\
  ((~ exists a b, html = a ++ str "n9734kw/" ++ b) ->
   Ncode.extractChapterLinks html = []).
Proof.
  assert (S : forall l, In l (Ncode.extractChapterLinks html) ->
     exists pre d post,
       let href := pre ++ str "n9734kw/" ++ d ++ post in
       digits d /\ ~ In DQ pre /\ ~ In DQ post /\
       l = Ncode.resolve_link href /\
       exists before after,
         html = before ++ str "href=" ++ [DQ] ++ href ++ [DQ] ++ after).
  { intros l H. apply ncode_links_In in H as ([w cap] & Hm & ->).
    apply exec_all_go_In in Hm as (before & s' & rest & -> & E & _).
    apply marked_number_match in E as (pre & d & post & -> & D & P1 & P2 & ->).
    exists pre, d, post. cbv zeta.
    split; [exact D|]. split; [exact P1|]. split; [exact P2|].
    split; [reflexivity|].
    exists before, rest. rewrite <- !app_assoc. reflexivity. }
  split; [exact S|].
  intros NO. destruct (Ncode.extractChapterLinks html) as [|l ls] eqn:E;
    [reflexivity|].
  exfalso. apply NO.
  destruct (S l (or_introl eq_refl))
    as (pre & d & post & _ & _ & _ & _ & before & after & ->).
  exists (before ++ str "href=" ++ [DQ] ++ pre), (d ++ post ++ [DQ] ++ after).
  rewrite <- !app_assoc. reflexivity.
Qed.

Lemma replace_first_In (p s : jsstring) (c : N) :
  In c (replace_first p [] s) -> In c s.
Proof.
  induction s as [|x s IH]; cbn [replace_first].
  - destruct (strip_prefix p []) as [r|] eqn:E; [|tauto].
    apply strip_prefix_Some in E. cbn [app]. intros H. rewrite E.
    apply in_or_app. right. exact H.
  - destruct (strip_prefix p (x :: s)) as [r|] eqn:E.
    + apply strip_prefix_Some in E. cbn [app]. intros H. rewrite E.
      apply in_or_app. right. exact H.
    + intros [<-|H]; [left; reflexivity | right; auto].
Qed.

Lemma trim_trim (s : jsstring) : trim (trim s) = trim s.
Proof. apply trim_fixed; [apply trim_first | apply trim_last]. Qed.

(** X13: for every page the title that an adapter returns holds no [<]:
    no markup can begin inside a title.  The title of the kakuyomu adapter
    in addition never starts or ends with white space; the ncode adapter
    returns the text of the title element untrimmed. *)
Theorem title_has_no_markup (html : jsstring) :
  (forall a, ~ In LT (extractTitle a html)) /\
  trim (Kakuyomu.extractTitle html) = Kakuyomu.extractTitle html /\
  Ncode.extractTitle (str "<title> Work </title>") = str " Work ".
Proof.
  assert (U : ~ In LT unknown_title).
  { intros H. repeat (destruct H as [H|H]; [discriminate|]). destruct H. }
  split; [|split; [|vm_compute; reflexivity]].
  - intros a. destruct a; cbn [extractTitle];
      unfold Ncode.extractTitle, Kakuyomu.extractTitle.
    + destruct (match_first title_pattern html) as [t|] eqn:E; [|exact U].
      apply title_match_sound in E as (_ & _ & _ & NL).
      intros H. apply NL. eapply replace_first_In; exact H.
    + destruct (match_first title_pattern html) as [t|] eqn:E.
      * apply title_match_sound in E as (_ & _ & _ & NL).
        intros H. apply NL. eapply replace_first_In, trim_In; exact H.
      * destruct (match_first Kakuyomu.workTitle_pattern html) as [t|] eqn:E2;
          [|exact U].
        apply heading_match_sound in E2 as (_ & _ & _ & _ & _ & _ & _ & NL).
        intros H. apply NL. eapply trim_In; exact H.
  - unfold Kakuyomu.extractTitle.
    destruct (match_first title_pattern html); [apply trim_trim|].
    destruct (match_first Kakuyomu.workTitle_pattern html);
      [apply trim_trim | vm_compute; reflexivity].
Qed.

(* ===================================================================== *)
(** ** The URLs of a run                                                  *)
(* ===================================================================== *)

(** A link that the adapter of a source returns for a page is a chapter
    link that the source discovers on that page. *)
Lemma links_discovered (a : site) (page u : jsstring) :
  In u (extractChapterLinks a page) -> discovered_link a page u.
Proof.
  destruct a; cbn [extractChapterLinks discovered_link]; intros H.
  - apply ncode_links_In in H as ([w cap] & Hm & ->).
    apply exec_all_go_In in Hm as (before & s' & rest & -> & E & _).
    apply marked_number_match in E as (pre & d & post & -> & D & P1 & P2 & ->).
    exists pre, d, post. cbv zeta.
    split; [exact D|]. split; [exact P1|]. split; [exact P2|].
    split; [exists before, rest; rewrite <- !app_assoc; reflexivity|].
    cbn [snd]. unfold Ncode.resolve_link.
    destruct (startsWith (pre ++ str "n9734kw/" ++ d ++ post) (str "http"));
      [left | right]; split; reflexivity.
  - apply kakuyomu_links_In in H as ([w cap] & Hm & ->).
    apply exec_all_go_In in Hm as (before & s' & rest & -> & E & _).
    apply kakuyomu_link_match in E as [P ->].
    exists cap. split; [exact P|].
    split; [exists before, rest; reflexivity | reflexivity].
Qed.

(** The URLs that a run hands to the fetcher: the normalised input URL,
    and links of the page that the network delivered for it. *)
Lemma main_requests_page (a : site) (URL_parse : jsstring -> option URL)
    (network : jsstring -> option jsstring) (args : list jsstring)
    (u : jsstring) :
  In u (requests (fst (main a URL_parse network args))) ->
  exists urlString url,
    parseArguments args = ret urlString /\
    URL_parse urlString = Some url /\ protocol url = str "https:" /\
    hostname url = domain a /\
    (u = href url \/
     exists page, network (href url) = Some page /\
                  In u (extractChapterLinks a page)).
Proof.
  destruct (parseArguments_cases args) as [[urlString PA]|(t & PA & R & _)].
  2:{ rewrite (main_arguments_exit a URL_parse network args t PA).
      cbn [fst]. rewrite R. intros []. }
  destruct (validateUrl_quiet URL_parse (domain a) urlString) as (Q & _ & NT).
  destruct (snd (validateUrl URL_parse (domain a) urlString)) as [url| |] eqn:S.
  - apply validateUrl_Return in S as (P & Sch & H & V).
    rewrite (main_trace a URL_parse network args urlString url PA V).
    intros R. exists urlString, url.
    split; [exact PA|]. split; [exact P|]. split; [exact Sch|].
    split; [exact H|].
    destruct (network (href url)) as [html|].
    + cbn [fst] in R. rewrite !requests_app, listing_requests in R.
      cbn [requests] in R. rewrite app_nil_r in R.
      destruct R as [<-|C]; [left; reflexivity|].
      right. exists html. split; [reflexivity|].
      eapply chapters_requests; exact C.
    + cbn [fst requests] in R. destruct R as [<-|[]]. left; reflexivity.
  - congruence.
  - rewrite (main_validation_exit a URL_parse network args urlString PA S).
    cbn [fst]. rewrite Q. intros [].
Qed.

(** C5, amended: every URL that a run of an adapter hands to the fetcher
    is either the normalised form of the input URL, which validation has
    shown to use https and to have the domain of the source as its host,
    or a chapter link discovered on the listing page that the network
    delivered for that URL.  A chapter link of the kakuyomu adapter is
    https://kakuyomu.jp followed by a path of the shape
    /works/<digits>/episodes/<digits> that is an href of the page.  A
    chapter link of the ncode adapter comes from an href of the page that
    holds [n9734kw/] and digits: https://ncode.syosetu.com followed by
    the href when the href does not start with http, and otherwise the
    href as it is, whose host is not checked. *)
Theorem fetched_urls (a : site) (URL_parse : jsstring -> option URL)
    (network : jsstring -> option jsstring) (args : list jsstring)
    (u : jsstring) :
  In u (requests (fst (main a URL_parse network args))) ->
  exists urlString url,
    parseArguments args = ret urlString /\
    URL_parse urlString = Some url /\ protocol url = str "https:" /\
    hostname url = domain a /\
    (u = href url \/
     exists page, network (href url) = Some page /\
                  discovered_link a page u).
Proof.
  intros H.
  apply main_requests_page in H
    as (urlString & url & PA & P & S & D & [E|(page & Hnet & L)]).
  - exists urlString, url. repeat (split; [assumption|]). left. exact E.
  - exists urlString, url. repeat (split; [assumption|]). right.
    exists page. split; [exact Hnet|]. apply links_discovered, L.
Qed.

Lemma fetched_urls_witness :
  exists urlString url,
    parseArguments [str "https://ncode.syosetu.com/n9734kw/"]
    = ret urlString /\
    NodeURL.parse urlString = Some url /\
    protocol url = str "https:" /\
    hostname url = domain ncode /\
    (str "https://evil.example/n9734kw/1" = href url \/
     exists page, foreign_network (href url) = Some page /\
                  discovered_link ncode page
                    (str "https://evil.example/n9734kw/1")).
Proof.
  apply (fetched_urls ncode NodeURL.parse foreign_network
           [str "https://ncode.syosetu.com/n9734kw/"]
           (str "https://evil.example/n9734kw/1")).
  vm_compute. right; left; reflexivity.
Defined.

(* ===================================================================== *)
(** ** The end index of the ncode body                                    *)
(* ===================================================================== *)

Lemma find_from_sound (p s : jsstring) (i0 i : nat) :
  find_from p s i0 = Some i ->
  exists k, i = i0 + k /\ startsWith (skipn k s) p = true.
Proof.
  revert i0; induction s as [|x s IH]; intros i0; cbn [find_from].
  - destruct (startsWith [] p) eqn:E; [|discriminate].
    intros [= <-]. exists 0. split; [lia | exact E].
  - destruct (startsWith (x :: s) p) eqn:E.
    + intros [= <-]. exists 0. split; [lia | exact E].
    + intros H. apply IH in H as (k & -> & H).
      exists (S k). split; [lia | exact H].
Qed.

(** [indexOf] returns a position at which the text stands. *)
Lemma indexOf_sound (s p : jsstring) (from i : nat) :
  indexOf s p from = Some i -> startsWith (skipn i s) p = true.
Proof.
  unfold indexOf. intros H.
  apply find_from_sound in H as (k & -> & H).
  rewrite skipn_skipn in H. rewrite Nat.add_comm. exact H.
Qed.

(** [indexOf] returns the first such position behind the start. *)
Lemma find_from_first (p s : jsstring) (i0 i k : nat) :
  find_from p s i0 = Some i -> i0 + k < i ->
  startsWith (skipn k s) p = false.
Proof.
  revert i0 k; induction s as [|x s IH]; intros i0 k; cbn [find_from].
  - destruct (startsWith [] p); [intros [= <-]; lia | discriminate].
  - destruct (startsWith (x :: s) p) eqn:E; [intros [= <-]; lia|].
    intros H L. destruct k as [|k]; [exact E|].
    cbn [skipn]. apply (IH (S i0) k H). lia.
Qed.

(** The invariant of the loop: the end index is a position of a closing
    tag, at or behind the position the loop started from. *)
Lemma scan_loop_closing (content : jsstring) (d fuel divCount : nat)
    (endIndex : option nat) (ci : option nat) (e : nat) :
  (forall x, endIndex = Some x ->
     d <= x /\ startsWith (skipn x content) (str "</div>") = true) ->
  (forall c, ci = Some c -> d <= c) ->
  Ncode.scan_loop fuel content divCount endIndex ci = Some (Some e) ->
  d <= e /\ startsWith (skipn e content) (str "</div>") = true.
Proof.
  revert divCount endIndex ci.
  induction fuel as [|fuel IH]; intros dc en ci He Hc; [discriminate|].
  cbn [Ncode.scan_loop].
  destruct ci as [c|]; [|intros [= ->]; auto].
  specialize (Hc c eq_refl).
  destruct (0 <? dc); [|intros [= ->]; auto].
  destruct (indexOf content (str "</div>") c) as [ne|] eqn:E1;
    [|intros [= ->]; auto].
  pose proof (indexOf_sound _ _ _ _ E1) as S1.
  apply indexOf_bounds in E1; [|discriminate].
  destruct (indexOf content (str "<div") (c + 1)) as [nd|] eqn:E2.
  - apply indexOf_bounds in E2; [|discriminate].
    destruct (nd <? ne).
    + apply IH; [exact He|]. intros x [= <-]. lia.
    + apply IH.
      * intros x. destruct (dc - 1 =? 0); [|apply He].
        intros [= <-]. split; [lia | exact S1].
      * intros x [= <-]. lia.
  - apply IH.
    + intros x. destruct (dc - 1 =? 0); [|apply He].
      intros [= <-]. split; [lia | exact S1].
    + intros x [= <-]. lia.
Qed.

Lemma open_is_not_close (s : jsstring) :
  startsWith s (str "<div") = true ->
  startsWith s (str "</div>") = true -> False.
Proof.
  destruct s as [|a [|b s]]; try discriminate.
  - cbn [startsWith str map list_ascii_of_string N_of_ascii].
    intros H. apply andb_true_iff in H as [_ H]. discriminate.
  - change (str "<div") with (60%N :: 100%N :: str "iv").
    change (str "</div>") with (60%N :: 47%N :: str "div>").
    cbn [startsWith]. intros H1 H2.
    apply andb_true_iff in H1 as [_ H1]. apply andb_true_iff in H1 as [H1 _].
    apply andb_true_iff in H2 as [_ H2]. apply andb_true_iff in H2 as [H2 _].
    apply N.eqb_eq in H1, H2. congruence.
Qed.

(** X14: the end index that [extractNovelContent] of the ncode adapter
    cuts at, when there is one, is always the position of a closing tag
    [</div>] that lies behind the first [<div] behind the marker.  When
    there is no [<div] behind the marker, or no [</div>] behind that
    first [<div], there is no end index and the body runs to the end of
    the page. *)
Theorem end_index_is_closing_tag (content : jsstring) :
  (forall e, Ncode.find_endIndex content = Some e ->
     exists d,
       indexOf content (str "<div") 1 = Some d /\
       d < e < length content /\
       startsWith (skipn e content) (str "</div>") = true) /\
  (indexOf content (str "<div") 1 = None ->
   Ncode.find_endIndex content = None) /\
  (forall d, indexOf content (str "<div") 1 = Some d ->
     indexOf content (str "</div>") d = None ->
     Ncode.find_endIndex content = None).
Proof.
  unfold Ncode.find_endIndex. cbv zeta.
  split; [|split].
  - intros e H.
    destruct (indexOf content (str "<div") 1) as [d|] eqn:D.
    + destruct (Ncode.scan_loop (Ncode.scan_fuel content) content 1 None
                  (Some d)) as [r|] eqn:L; [|discriminate].
      subst r.
      apply (scan_loop_closing content d) in L.
      * destruct L as [L1 L2]. exists d. split; [reflexivity|].
        pose proof (indexOf_sound _ _ _ _ D) as O.
        assert (d <> e) by (intros ->; exact (open_is_not_close _ O L2)).
        assert (e < length content).
        { destruct (Nat.lt_ge_cases e (length content)) as [X|X]; [exact X|].
          rewrite skipn_all2 in L2 by exact X. discriminate. }
        repeat split; [lia | assumption | exact L2].
      * discriminate.
      * intros c [= <-]. lia.
    + unfold Ncode.scan_fuel in H. rewrite Nat.add_comm in H.
      cbn [Nat.add Ncode.scan_loop] in H. discriminate.
  - intros ->. unfold Ncode.scan_fuel. rewrite Nat.add_comm. reflexivity.
  - intros d -> E. unfold Ncode.scan_fuel. rewrite Nat.add_comm.
    cbn [Nat.add Ncode.scan_loop Nat.ltb Nat.leb]. rewrite E. reflexivity.
Qed.

(** X15: when the first [<div] behind the marker holds no further [<div]
    before the first [</div>] behind it, the end index is that first
    [</div>]: the body that the ncode adapter returns stops where the
    first nested element closes, and what follows inside the marker
    element is lost. *)
Theorem first_nested_div_ends_body (content : jsstring) (d e : nat) :
  indexOf content (str "<div") 1 = Some d ->
  indexOf content (str "</div>") d = Some e ->
  (forall n, indexOf content (str "<div") (d + 1) = Some n -> e <= n) ->
  Ncode.find_endIndex content = Some e.
Proof.
  intros D E N. unfold Ncode.find_endIndex. cbv zeta. rewrite D.
  assert (X : match indexOf content (str "<div") (d + 1) with
              | Some nd => nd <? e
              | None => false
              end = false).
  { destruct (indexOf content (str "<div") (d + 1)) as [n|]; [|reflexivity].
    apply Nat.ltb_ge. apply N. reflexivity. }
  unfold Ncode.scan_fuel. rewrite Nat.add_comm.
  cbn [Nat.add Ncode.scan_loop].
  change (0 <? 1) with true. cbv iota zeta. rewrite E, X.
  change (1 - 1 =? 0) with true. change (0 <? 1 - 1) with false.
  cbv iota. reflexivity.
Qed.

Lemma first_nested_div_ends_body_witness :
  Ncode.find_endIndex
    (ncode_marker ++ str "one<div>two</div>three<div>four</div>five</div>")
  = Some (length ncode_marker + 11).
Proof.
  apply (first_nested_div_ends_body
           (ncode_marker
            ++ str "one<div>two</div>three<div>four</div>five</div>")
           (length ncode_marker + 3) (length ncode_marker + 11)).
  - vm_compute; reflexivity.
  - vm_compute; reflexivity.
  - intros n. vm_compute. intros [= <-]. repeat constructor.
Defined.

(* ===================================================================== *)
(** ** The element strategies of the kakuyomu adapter                     *)
(* ===================================================================== *)

(** A lazy star stops at the first place where the rest of the pattern
    matches. *)
Lemma star_lazy_first (A : Type) (k : jsstring -> option A)
    (s : jsstring) (r : A) :
  star_lazy CAny k s = Some r ->
  exists pre rest,
    s = pre ++ rest /\ k rest = Some r /\
    forall p1 p2, pre = p1 ++ p2 -> p2 <> [] -> k (p2 ++ rest) = None.
Proof.
  induction s as [|x s IH]; cbn [star_lazy].
  - destruct (k []) eqn:K; [|discriminate]. intros [= <-].
    exists [], []. repeat split; auto.
    intros p1 p2 E N. destruct p1, p2; try discriminate. congruence.
  - destruct (k (x :: s)) eqn:K.
    + intros [= <-]. exists [], (x :: s). repeat split; auto.
      intros p1 p2 E N. destruct p1, p2; try discriminate. congruence.
    + cbn [cmatch]. intros H.
      destruct (IH H) as (pre & rest & -> & K' & M).
      exists (x :: pre), rest. repeat split; auto.
      intros [|y p1] p2 E N.
      * cbn [app] in E. subst p2. exact K.
      * injection E as -> E. eapply M; eauto.
Qed.

(** What the lazy group of an element pattern holds: the text up to the
    first closing tag. *)
Lemma lazy_element_first (a m g b : jsstring) (c : N)
    (s cap rest : jsstring) :
  exec_here [ALit a; AStar (CNot c); ALit m; AStar (CNot c); ALit g; AOpen;
             AStarLazy CAny; AClose; ALit b] s = Some (cap, rest) ->
  forall p1 p2 q, cap = p1 ++ p2 -> p2 <> [] -> p2 ++ b ++ rest <> b ++ q.
Proof.
  unfold exec_here. cbn [exec_at]. intros H.
  literal_in H.
  apply star_greedy_sound in H as (a1 & s2 & -> & F1 & H).
  literal_in H.
  apply star_greedy_sound in H as (a2 & s4 & -> & F2 & H).
  literal_in H.
  apply star_lazy_first in H as (t & s6 & -> & H & M).
  literal_in H.
  injection H as <- <-. rewrite capture_firstn.
  intros p1 p2 q E N X.
  specialize (M p1 p2 E N). rewrite X, strip_prefix_app in M. discriminate.
Qed.

Lemma no_closing_inside (b cap rest : jsstring) :
  (forall p1 p2 q, cap = p1 ++ p2 -> p2 <> [] -> p2 ++ b ++ rest <> b ++ q) ->
  b <> [] ->
  ~ exists x y, cap = x ++ b ++ y.
Proof.
  intros M NB (x & y & E).
  apply (M x (b ++ y) (y ++ b ++ rest) E).
  - destruct b; [congruence | discriminate].
  - rewrite <- !app_assoc. reflexivity.
Qed.

(** X16: the two element strategies of the kakuyomu body extractor cut
    at the first closing tag behind the opening tag: the content they
    select never holds a [</div>].  A body element with a nested [div]
    is therefore cut where the nested element closes. *)
Theorem kakuyomu_body_cut_at_first_close (html c : jsstring) :
  match_first Kakuyomu.episodeBody_pattern html = Some c \/
  match_first Kakuyomu.workEpisode_pattern html = Some c ->
  (~ exists x y, c = x ++ str "</div>" ++ y) /\
  exists before after, html = before ++ c ++ str "</div>" ++ after.
Proof.
  intros [H|H];
    apply match_first_Some in H as (pre & s & rest & -> & E);
    pose proof (lazy_element_first _ _ _ _ _ _ _ _ E) as M;
    apply lazy_element_sound in E as (a1 & a2 & -> & _ & _);
    (split; [apply (no_closing_inside _ _ rest M); discriminate|]).
  - exists (pre ++ str "<div" ++ a1 ++ str "widget-episodeBody" ++ a2
            ++ [GT]), rest.
    rewrite <- !app_assoc. reflexivity.
  - exists (pre ++ str "<div" ++ a1 ++ str "widget-workEpisode" ++ a2
            ++ [GT]), rest.
    rewrite <- !app_assoc. reflexivity.
Qed.

Lemma kakuyomu_body_cut_at_first_close_witness :
  (~ exists x y, str "a<div>b" = x ++ str "</div>" ++ y) /\
  exists before after,
    str "<div class='widget-episodeBody'>a<div>b</div>c</div>"
    = before ++ str "a<div>b" ++ str "</div>" ++ after.
Proof.
  apply (kakuyomu_body_cut_at_first_close
           (str "<div class='widget-episodeBody'>a<div>b</div>c</div>")
           (str "a<div>b")).
  left. vm_compute. reflexivity.
Defined.

(* ===================================================================== *)
(** ** The names of the chapter files                                     *)
(* ===================================================================== *)

Lemma number_of_digits_fuel (fuel n : nat) (acc : jsstring) :
  n < fuel -> number_of (digits_fuel fuel n acc) 0 = number_of acc n.
Proof.
  revert n acc; induction fuel as [|fuel IH]; intros n acc H; [lia|].
  cbn [digits_fuel]. destruct (n <? 10) eqn:E.
  - apply Nat.ltb_lt in E. cbn [number_of].
    rewrite Nat.mod_small by exact E.
    rewrite Nat2N.id. f_equal. lia.
  - apply Nat.ltb_ge in E.
    assert (D : n / 10 < n) by (apply Nat.div_lt; lia).
    rewrite IH by lia. cbn [number_of]. rewrite Nat2N.id. f_equal.
    pose proof (Nat.div_mod_eq n 10). lia.
Qed.

(** Reading the digits of [toString] gives the number back. *)
Lemma number_of_toString (n : nat) : number_of (toString n) 0 = n.
Proof. unfold toString. rewrite number_of_digits_fuel by lia. reflexivity. Qed.

Lemma number_of_padStart (w : nat) (s : jsstring) :
  number_of (padStart0 w s) 0 = number_of s 0.
Proof.
  unfold padStart0. induction (w - length s) as [|k IH]; [reflexivity|].
  cbn [repeat app number_of]. exact IH.
Qed.

Lemma chapter_filename_inj (n m : nat) :
  chapter_filename n = chapter_filename m -> n = m.
Proof.
  unfold chapter_filename. intros H.
  apply app_inv_head, app_inv_tail in H.
  apply (f_equal (fun s => number_of s 0)) in H.
  rewrite !number_of_padStart, !number_of_toString in H. exact H.
Qed.

(** X17: chapter numbers and file names correspond one to one, also
    beyond 999 where the name grows longer than three digits, and the
    digits of the name read as the chapter number.  The chapter files
    that one run of the loop writes therefore all have different names:
    no chapter overwrites another. *)
Theorem chapter_files_distinct (a : site)
    (network : jsstring -> option jsstring) (links : list jsstring)
    (n i : nat) :
  (forall k m, chapter_filename k = chapter_filename m -> k = m) /\
  (forall k, number_of (padStart0 3 (toString k)) 0 = k /\
             3 <= length (padStart0 3 (toString k))) /\
  NoDup (map fst
           (written (fst (chapter_loop network (output_dir a)
                            (extractTitle a) (extractBody a) links n i)))).
Proof.
  split; [exact chapter_filename_inj|]. split.
  - intros k. rewrite number_of_padStart, number_of_toString.
    split; [reflexivity|]. unfold padStart0.
    rewrite length_app, repeat_length. lia.
  - rewrite chapter_loop_trace. cbn [fst]. rewrite loop_written.
    assert (G : forall l, NoDup l ->
              NoDup (map fst (flat_map (chapter_artifact a network links) l))
              /\ forall p, In p (map fst (flat_map
                                  (chapter_artifact a network links) l)) ->
                   exists j, In j l /\
                     p = path_join (output_dir a) (chapter_filename (j + 1))).
    { induction l as [|j l IH]; intros ND.
      - split; [constructor | intros p []].
      - inversion ND as [|? ? Hj Hl]; subst.
        destruct (IH Hl) as [N1 N2]. cbn [flat_map].
        unfold chapter_artifact at 1 3.
        destruct (network (nth j links [])) as [html|]; cbn [app].
        + destruct (truthy (fst (extractBody a html))); cbn [app map fst].
          * split.
            -- constructor; [|exact N1]. intros X.
               apply N2 in X as (j' & Hj' & E).
               unfold path_join in E. apply app_inv_head, app_inv_head in E.
               apply chapter_filename_inj in E.
               assert (j = j') by lia. subst. contradiction.
            -- intros p [<-|X]; [exists j; split; [left|]; reflexivity|].
               apply N2 in X as (j' & Hj' & E). exists j'. split;
                 [right; exact Hj' | exact E].
          * split; [exact N1|]. intros p X.
            apply N2 in X as (j' & Hj' & E). exists j'. split;
              [right; exact Hj' | exact E].
        + split; [exact N1|]. intros p X.
          apply N2 in X as (j' & Hj' & E). exists j'. split;
            [right; exact Hj' | exact E]. }
    apply G, seq_NoDup.
Qed.

(* ===================================================================== *)
(** ** Every chapter href is found                                        *)
(* ===================================================================== *)

(** A greedy star takes all of a run that ends where the class ends, when
    the rest of the pattern matches behind it. *)
Lemma star_greedy_exact (A : Type) (cl : cclass) (k : jsstring -> option A)
    (pre rest : jsstring) (r : A) :
  forallb (cmatch cl) pre = true ->
  (forall y rest', rest = y :: rest' -> cmatch cl y = false) ->
  k rest = Some r ->
  star_greedy cl k (pre ++ rest) = Some r.
Proof.
  intros F E K. induction pre as [|x pre IH]; cbn [app].
  - destruct rest as [|y rest']; cbn [star_greedy]; [exact K|].
    rewrite (E y rest' eq_refl). exact K.
  - cbn [forallb] in F. apply andb_true_iff in F as [Fx F].
    cbn [star_greedy]. rewrite Fx, (IH F). reflexivity.
Qed.

Lemma class_digit (d : jsstring) :
  Forall (fun c => (48 <= c <= 57)%N) d -> forallb (cmatch CDigit) d = true.
Proof.
  intros H. apply forallb_forall. rewrite Forall_forall in H.
  intros c Hc. specialize (H c Hc). cbn [cmatch].
  apply andb_true_iff. split; apply N.leb_le; lia.
Qed.

(** A pattern of the shape l0 ( l1 \d+ l2 \d+ ) l3 matches a text of that
    shape as a whole, when [l2] and [l3] do not start with a digit. *)
Lemma two_numbers_exact (l0 l1 l2 l3 d1 d2 rest : jsstring) (y2 y3 : N)
    (t2 t3 : jsstring) :
  digits d1 -> digits d2 ->
  l2 = y2 :: t2 -> cmatch CDigit y2 = false ->
  l3 = y3 :: t3 -> cmatch CDigit y3 = false ->
  exec_here [ALit l0; AOpen; ALit l1; APlus CDigit; ALit l2; APlus CDigit;
             AClose; ALit l3]
    (l0 ++ (l1 ++ d1 ++ l2 ++ d2) ++ l3 ++ rest)
  = Some (l1 ++ d1 ++ l2 ++ d2, rest).
Proof.
  intros [N1 D1] [N2 D2] E2 C2 E3 C3.
  apply class_digit in D1, D2.
  unfold exec_here. cbn [exec_at].
  rewrite strip_prefix_app, <- !app_assoc, strip_prefix_app.
  destruct d1 as [|x1 d1]; [congruence|].
  destruct d2 as [|x2 d2]; [congruence|].
  cbn [forallb] in D1, D2.
  apply andb_true_iff in D1 as [X1 D1]. apply andb_true_iff in D2 as [X2 D2].
  cbn [app]. rewrite X1.
  apply star_greedy_exact; [exact D1 | |].
  { intros y r E. rewrite E2 in E. injection E as <- _. exact C2. }
  rewrite strip_prefix_app. cbn [app]. rewrite X2.
  apply star_greedy_exact; [exact D2 | |].
  { intros y r E. rewrite E3 in E. injection E as <- _. exact C3. }
  replace (l1 ++ x1 :: d1 ++ l2 ++ x2 :: d2 ++ l3 ++ rest)
    with ((l1 ++ x1 :: d1 ++ l2 ++ x2 :: d2) ++ l3 ++ rest)
    by (rewrite <- !app_assoc; cbn [app]; rewrite <- !app_assoc;
        reflexivity).
  rewrite capture_firstn, strip_prefix_app. reflexivity.
Qed.

(** The [exec] loop visits a match of the pattern when no match of the
    pattern begins inside another one. *)
Lemma exec_all_go_hit (r : regex) :
  (forall s1 cap rest i,
     exec_here r s1 = Some (cap, rest) ->
     0 < i < length s1 - length rest ->
     exec_here r (skipn i s1) = None) ->
  forall s k pre s' cap rest,
    s = pre ++ s' -> s' <> [] ->
    exec_here r s' = Some (cap, rest) ->
    (forall i, i < k -> exec_here r (skipn i s) = None) ->
    exists w, In (w, cap) (exec_all_go r k s).
Proof.
  intros NoInner. induction s as [|x s IH]; intros k pre s' cap rest E NE M Sk.
  - destruct pre, s'; try discriminate. congruence.
  - cbn [exec_all_go]. destruct k as [|k].
    + destruct (exec_here r (x :: s)) as [[cap0 rest0]|] eqn:X.
      * destruct pre as [|y pre].
        -- cbn [app] in E. subst s'. rewrite X in M. injection M as <- <-.
           eexists. left. reflexivity.
        -- injection E as <- E.
           destruct (IH (length (x :: s) - length rest0 - 1) pre s' cap rest
                       E NE M) as [w Hw].
           { intros i Hi.
             change (skipn i s) with (skipn (S i) (x :: s)).
             eapply NoInner; [exact X|]. lia. }
           exists w. right. exact Hw.
      * destruct pre as [|y pre].
        -- cbn [app] in E. subst s'. congruence.
        -- injection E as <- E.
           apply (IH 0 pre s' cap rest E NE M). intros i Hi. lia.
    + destruct pre as [|y pre].
      * cbn [app] in E. subst s'.
        specialize (Sk 0 ltac:(lia)). cbn [skipn] in Sk. congruence.
      * injection E as <- E.
        apply (IH k pre s' cap rest E NE M). intros i Hi.
        change (skipn i s) with (skipn (S i) (x :: s)). apply Sk. lia.
Qed.

Lemma episode_path_no_h (path : jsstring) :
  episode_path path -> ~ In 104%N (str "ref=" ++ [DQ] ++ path ++ [DQ]).
Proof.
  intros (w & e & [_ W] & [_ Ep] & ->) H.
  rewrite Forall_forall in W, Ep.
  repeat (apply in_app_or in H as [H|H]);
    try (repeat (destruct H as [H|H]; [discriminate|]); destruct H).
  - apply W in H. lia.
  - apply Ep in H. lia.
Qed.

(** No match of the link pattern of the kakuyomu adapter begins inside
    another one. *)
Lemma kakuyomu_link_no_inner (s1 cap rest : jsstring) (i : nat) :
  exec_here Kakuyomu.linkPattern s1 = Some (cap, rest) ->
  0 < i < length s1 - length rest ->
  exec_here Kakuyomu.linkPattern (skipn i s1) = None.
Proof.
  intros E Hi. apply kakuyomu_link_match in E as [P ->].
  pose proof (episode_path_no_h cap P) as NH.
  change (str "href=" ++ [DQ] ++ cap ++ [DQ] ++ rest)
    with (104%N :: (str "ref=" ++ [DQ] ++ cap ++ [DQ] ++ rest)) in *.
  set (T := str "ref=" ++ [DQ] ++ cap ++ [DQ]) in *.
  assert (ET : str "ref=" ++ [DQ] ++ cap ++ [DQ] ++ rest = T ++ rest)
    by (unfold T; rewrite <- !app_assoc; reflexivity).
  rewrite ET in *. cbn [length] in Hi. rewrite length_app in Hi.
  destruct i as [|i]; [lia|]. cbn [skipn].
  rewrite skipn_app.
  replace (i - length T) with 0 by lia. cbn [skipn].
  destruct (skipn i T) as [|y t] eqn:S.
  - apply (f_equal (@length N)) in S. rewrite length_skipn in S.
    cbn [length] in S. lia.
  - assert (Y : In y T).
    { rewrite <- (firstn_skipn i T), S. apply in_or_app. right. left.
      reflexivity. }
    assert (y <> 104%N) by (intros ->; contradiction).
    unfold exec_here, Kakuyomu.linkPattern. cbn [exec_at app].
    change (str "href=" ++ [DQ]) with (104%N :: (str "ref=" ++ [DQ])).
    cbn [strip_prefix].
    destruct (N.eqb 104 y) eqn:Q; [|reflexivity].
    apply N.eqb_eq in Q. congruence.
Qed.

(** X18: the kakuyomu adapter finds every chapter of the page: its links
    are exactly the origin https://kakuyomu.jp followed by the paths of
    the shape /works/<digits>/episodes/<digits> that stand as an href in
    double quotes on the page.  No such href is passed over. *)
Theorem kakuyomu_links_exactly (html l : jsstring) :
  In l (Kakuyomu.extractChapterLinks html) <->
  exists path,
    episode_path path /\ l = str "https://kakuyomu.jp" ++ path /\
    exists before after,
      html = before ++ str "href=" ++ [DQ] ++ path ++ [DQ] ++ after.
Proof.
  split.
  - intros H. apply kakuyomu_links_In in H as ([w cap] & Hm & ->).
    apply exec_all_go_In in Hm as (pre & s' & rest & -> & E & _).
    apply kakuyomu_link_match in E as [P ->].
    exists cap. split; [assumption|]. split; [reflexivity|].
    exists pre, rest. reflexivity.
  - intros (path & P & -> & before & after & ->).
    apply kakuyomu_links_In.
    assert (E : exec_here Kakuyomu.linkPattern
                  (str "href=" ++ [DQ] ++ path ++ [DQ] ++ after)
                = Some (path, after)).
    { destruct P as (w & e & W & Ep & ->).
      exact (two_numbers_exact (str "href=" ++ [DQ]) (str "/works/")
               (str "/episodes/") [DQ] w e after 47%N DQ (str "episodes/") []
               W Ep eq_refl eq_refl eq_refl eq_refl). }
    destruct (exec_all_go_hit Kakuyomu.linkPattern kakuyomu_link_no_inner
                (before ++ str "href=" ++ [DQ] ++ path ++ [DQ] ++ after)
                0 before _ path after eq_refl ltac:(discriminate) E)
      as [w Hw].
    { intros i Hi. lia. }
    exists (w, path). split; [exact Hw | reflexivity].
Qed.

(* ===================================================================== *)
(** ** The order of the effects of a run                                  *)
(* ===================================================================== *)

Lemma requests_nil_In (t : trace) (u : jsstring) :
  requests t = [] -> ~ In (Request u) t.
Proof.
  induction t as [|e t IH]; intros R H; [exact H|].
  destruct H as [->|H]; [discriminate R|].
  destruct e; cbn [requests] in R; try discriminate R; exact (IH R H).
Qed.

Lemma written_nil_In (t : trace) (p d : jsstring) :
  written t = [] -> ~ In (WriteFile p d) t.
Proof.
  induction t as [|e t IH]; intros R H; [exact H|].
  destruct H as [->|H]; [discriminate R|].
  destruct e; cbn [written] in R; try discriminate R; exact (IH R H).
Qed.

(** X19: in every run of an adapter the output directory is ensured
    before the first fetch and before the first write, and a file is only
    written after the listing page has been asked for and the network has
    answered: a run that gets no listing page leaves no file behind. *)
Theorem setup_precedes_effects (a : site)
    (URL_parse : jsstring -> option URL)
    (network : jsstring -> option jsstring) (args : list jsstring)
    (t1 t2 : trace) (e : event) :
  fst (main a URL_parse network args) = t1 ++ e :: t2 ->
  (exists u, e = Request u) \/ (exists p d, e = WriteFile p d) ->
  In (EnsureDir (output_dir a)) t1 /\
  (forall p d, e = WriteFile p d ->
     exists u page, In (Request u) t1 /\ network u = Some page).
Proof.
  intros T K.
  assert (I : In e (fst (main a URL_parse network args)))
    by (rewrite T; apply in_or_app; right; left; reflexivity).
  destruct (main_outcomes a URL_parse network args)
    as [(t & M & R & W)
       |[(urlString & url & PA & V & Hnet & _)
        |(urlString & url & html & PA & V & Hnet & M)]].
  - rewrite M in I. cbn [fst] in I. exfalso.
    destruct K as [[u ->]|(p & d & ->)].
    + exact (requests_nil_In t u R I).
    + exact (written_nil_In t p d W I).
  - rewrite (main_trace a URL_parse network args urlString url PA V), Hnet
      in T.
    cbn [fst] in T.
    destruct t1 as [|x t1];
      [cbn [app] in T; injection T as <- _;
       destruct K as [[u K]|(p & d & K)]; discriminate K|].
    cbn [app] in T. injection T as <- T.
    split; [left; reflexivity|].
    intros p d ->. exfalso.
    assert (I' : In (WriteFile p d)
                   [Log (MsgScraping (href url)); Log MsgFetchingIndex;
                    Request (href url); Error MsgFatal; Exit 1])
      by (rewrite T; apply in_or_app; right; left; reflexivity).
    repeat (destruct I' as [I'|I']; [discriminate I'|]). exact I'.
  - rewrite M in T. cbn [fst] in T. unfold listing_events in T.
    cbn [app] in T.
    destruct t1 as [|x1 t1];
      [cbn [app] in T; injection T as <- _;
       destruct K as [[u K]|(p & d & K)]; discriminate K|].
    cbn [app] in T. injection T as <- T.
    split; [left; reflexivity|].
    intros p d ->.
    do 2 (destruct t1 as [|? t1];
            [cbn [app] in T; injection T as T _; discriminate T|];
          cbn [app] in T; injection T as <- T).
    destruct t1 as [|? t1];
      [cbn [app] in T; injection T as T _; discriminate T|].
    cbn [app] in T. injection T as <- T.
    exists (href url), html. split; [|exact Hnet].
    right. right. right. left. reflexivity.
Qed.

Lemma setup_precedes_effects_witness :
  In (EnsureDir (output_dir kakuyomu))
    [EnsureDir (str "novel_output/kakuyomu");
     Log (MsgScraping (str "https://kakuyomu.jp/works/7"));
     Log MsgFetchingIndex; Request (str "https://kakuyomu.jp/works/7")] /\
  (forall p d,
     WriteFile (str "novel_output/kakuyomu/index.html") (str "<p>x</p>")
     = WriteFile p d ->
     exists u page,
       In (Request u)
         [EnsureDir (str "novel_output/kakuyomu");
          Log (MsgScraping (str "https://kakuyomu.jp/works/7"));
          Log MsgFetchingIndex;
          Request (str "https://kakuyomu.jp/works/7")] /\
       (fun u => if eqb u (str "https://kakuyomu.jp/works/7")
                 then Some (str "<p>x</p>") else None) u = Some page).
Proof.
  apply (setup_precedes_effects kakuyomu NodeURL.parse
           (fun u => if eqb u (str "https://kakuyomu.jp/works/7")
                     then Some (str "<p>x</p>") else None)
           [str "https://kakuyomu.jp/works/7"]
           [EnsureDir (str "novel_output/kakuyomu");
            Log (MsgScraping (str "https://kakuyomu.jp/works/7"));
            Log MsgFetchingIndex;
            Request (str "https://kakuyomu.jp/works/7")]
           (skipn 5 (fst (main kakuyomu NodeURL.parse
              (fun u => if eqb u (str "https://kakuyomu.jp/works/7")
                        then Some (str "<p>x</p>") else None)
              [str "https://kakuyomu.jp/works/7"])))
           (WriteFile (str "novel_output/kakuyomu/index.html")
              (str "<p>x</p>"))).
  - vm_compute. reflexivity.
  - right. eexists. eexists. reflexivity.
Defined.
